(** * Feedback classification and summary parsing: a shallow embedding

    The worker's [classifyFeedback], [processFeedback], [generateSummary],
    [parseSummary] and [extractBullets] are embedded as Rocq functions.
    JavaScript strings are sequences of UTF-16 code units, regular
    expressions are values of a small syntax tree that is run by a
    backtracking matcher with JavaScript's priority order, and exceptions
    are an explicit outcome type. *)

From Stdlib Require Import String Ascii.
From Stdlib Require Import NArith ZArith Bool Arith Lia List Sorted Permutation DecimalN.
Import ListNotations.

Set Implicit Arguments.

(** ** Strings *)

(** A JavaScript string: its UTF-16 code units. *)
Definition jsstring := list N.

Module Utf8.

Definition cont (b : N) : N := N.land b 63.

(** One code point as UTF-16: itself in the basic plane, a surrogate
    pair above it. *)
Definition utf16 (cp : N) : jsstring :=
  if (cp <? 65536)%N then [cp]
  else let v := (cp - 65536)%N in
       [(55296 + N.shiftr v 10)%N; (56320 + N.land v 1023)%N].

(** Decoder for the UTF-8 bytes of a source literal. *)
Fixpoint decode (bs : list N) : jsstring :=
  match bs with
  | [] => []
  | b0 :: t0 =>
    if (b0 <? 128)%N then b0 :: decode t0
    else match t0 with
    | [] => [b0]
    | b1 :: t1 =>
      if (b0 <? 224)%N
      then utf16 (N.land b0 31 * 64 + cont b1)%N ++ decode t1
      else match t1 with
      | [] => [b0; b1]
      | b2 :: t2 =>
        if (b0 <? 240)%N
        then utf16 (N.land b0 15 * 4096 + cont b1 * 64 + cont b2)%N
               ++ decode t2
        else match t2 with
        | [] => [b0; b1; b2]
        | b3 :: t3 =>
          utf16 (N.land b0 7 * 262144 + cont b1 * 4096
                 + cont b2 * 64 + cont b3)%N ++ decode t3
        end
      end
    end
  end.

Fixpoint bytes (s : string) : list N :=
  match s with
  | EmptyString => []
  | String a t => N_of_ascii a :: bytes t
  end.

End Utf8.

(** [js "..."] is the JavaScript string written by the literal. *)
Definition js (s : string) : jsstring := Utf8.decode (Utf8.bytes s).

Definition LF : N := 10.

Definition jsstring_eqb (a b : jsstring) : bool :=
  if list_eq_dec N.eq_dec a b then true else false.

(** *** Character classes *)

Definition charset := N -> bool.

Definition inRange (lo hi c : N) : bool := ((lo <=? c) && (c <=? hi))%N.

Definition oneOf (l : list N) : charset :=
  fun c => existsb (N.eqb c) l.

(** LineTerminator: LF, CR, LS, PS. *)
Definition isLineTerminator : charset := oneOf [10; 13; 8232; 8233]%N.

(** The class [\s], which is also what [trim] strips: WhiteSpace and
    LineTerminator code units. *)
Definition isSpace : charset :=
  fun c => oneOf [9; 10; 11; 12; 13; 32; 160; 5760; 8232; 8233; 8239;
                  8287; 12288; 65279]%N c
           || inRange 8192 8202 c.

(** [\d] *)
Definition isDigit : charset := inRange 48 57.

(** [.] without the [s] flag, and with it. *)
Definition dot : charset := fun c => negb (isLineTerminator c).
Definition dotAll : charset := fun _ => true.

(** [[\s\S]] *)
Definition anyChar : charset := fun _ => true.

Definition isUpper : charset := inRange 65 90.
Definition isLower : charset := inRange 97 122.

Definition lowerChar (c : N) : N := if isUpper c then (c + 32)%N else c.
Definition upperChar (c : N) : N := if isLower c then (c - 32)%N else c.

(** A pattern character without the [i] flag. *)
Definition lit (p : N) : charset := N.eqb p.

(** A pattern character under the [i] flag.  Canonicalize upper-cases
    both sides and never maps a code unit above 127 to one below 128, so
    an ASCII pattern character matches exactly its two ASCII cases. *)
Definition liti (p : N) : charset :=
  fun c => (c <? 128)%N && N.eqb (upperChar c) (upperChar p).

(** *** String built-ins *)

(** [String.prototype.toLowerCase] on the ASCII letters; other code units
    are left as they are.  (The two code points whose full lower-casing
    produces an ASCII letter, U+212A to k and U+0130 to i followed by
    U+0307, cannot complete any of the keywords searched for below.) *)
Definition toLowerCase (s : jsstring) : jsstring := map lowerChar s.

Fixpoint startsWith (p s : jsstring) : bool :=
  match p, s with
  | [], _ => true
  | _ :: _, [] => false
  | a :: p', b :: s' => N.eqb a b && startsWith p' s'
  end.

(** [String.prototype.includes] *)
Fixpoint includes (s p : jsstring) : bool :=
  startsWith p s ||
  match s with
  | [] => false
  | _ :: s' => includes s' p
  end.

Fixpoint trimStart (s : jsstring) : jsstring :=
  match s with
  | c :: s' => if isSpace c then trimStart s' else s
  | [] => []
  end.

Definition trimEnd (s : jsstring) : jsstring := rev (trimStart (rev s)).

(** [String.prototype.trim] *)
Definition trim (s : jsstring) : jsstring := trimEnd (trimStart s).

(** [String.prototype.split] on a one-character separator. *)
Fixpoint split (sep : N) (s : jsstring) : list jsstring :=
  match s with
  | [] => [[]]
  | c :: s' =>
    if N.eqb c sep then [] :: split sep s'
    else match split sep s' with
         | [] => [[c]]
         | h :: t => (c :: h) :: t
         end
  end.

(** [Array.prototype.slice(0, n)] *)
Definition slice0 (A : Type) (n : nat) (l : list A) : list A := firstn n l.

(** [String.prototype.substring(0, n)] *)
Definition substring0 (n : nat) (s : jsstring) : jsstring := firstn n s.

(** ** Regular expressions *)

(** The syntax the worker's patterns are written in.  Every quantified
    atom in the source is a single character, a class or an escape, so
    the star ranges over a character set; [+], [+?] and [?] are the
    derived forms below.  Each pattern has at most one capture group. *)
Inductive regex : Type :=
| Eps
| Chr (cs : charset)
| Seq (r1 r2 : regex)
| Alt (r1 r2 : regex)
| Star (greedy : bool) (cs : charset)
| Group (r : regex)
| Look (r : regex)
| Eoi.

Definition Plus (greedy : bool) (cs : charset) : regex :=
  Seq (Chr cs) (Star greedy cs).

Definition Opt (cs : charset) : regex := Alt (Chr cs) Eps.

Fixpoint seqs (rs : list regex) : regex :=
  match rs with
  | [] => Eps
  | [r] => r
  | r :: rs' => Seq r (seqs rs')
  end.

(** A run of pattern characters, without and with the [i] flag. *)
Definition str (s : jsstring) : regex := seqs (map (fun c => Chr (lit c)) s).
Definition stri (s : jsstring) : regex := seqs (map (fun c => Chr (liti c)) s).

Section Matcher.

Variable A : Type.

(** [cs*] and [cs*?] followed by the continuation [k]: the greedy star
    takes a character first and gives it back when the rest fails; the
    lazy star tries the rest first. *)
Fixpoint star (greedy : bool) (cs : charset) (s : jsstring)
         (k : jsstring -> option A) : option A :=
  if greedy then
    match s with
    | c :: s' =>
      if cs c then
        match star greedy cs s' k with
        | Some x => Some x
        | None => k s
        end
      else k s
    | [] => k s
    end
  else
    match k s with
    | Some x => Some x
    | None =>
      match s with
      | c :: s' => if cs c then star greedy cs s' k else None
      | [] => None
      end
    end.

End Matcher.

(** The backtracking matcher.  [s] is the input from the current
    position on, [cap] the capture group, [k] what remains to be matched;
    the first alternative that lets [k] succeed wins. *)
Fixpoint run (A : Type) (r : regex) (s : jsstring) (cap : option jsstring)
         (k : jsstring -> option jsstring -> option A) : option A :=
  match r with
  | Eps => k s cap
  | Chr cs =>
    match s with
    | c :: s' => if cs c then k s' cap else None
    | [] => None
    end
  | Seq r1 r2 => run r1 s cap (fun s1 cap1 => run r2 s1 cap1 k)
  | Alt r1 r2 =>
    match run r1 s cap k with
    | Some x => Some x
    | None => run r2 s cap k
    end
  | Star greedy cs => star greedy cs s (fun s1 => k s1 cap)
  | Group r1 =>
    run r1 s cap
        (fun s1 _ => k s1 (Some (firstn (length s - length s1) s)))
  | Look r1 =>
    match run r1 s cap (fun _ cap1 => Some cap1) with
    | Some cap1 => k s cap1
    | None => None
    end
  | Eoi =>
    match s with
    | [] => k s cap
    | _ :: _ => None
    end
  end.

(** A match: where it starts, where it ends, the matched text and the
    capture group ([None] is JavaScript's [undefined]). *)
Record rmatch : Type := mkMatch {
  index : nat;
  endIndex : nat;
  m0 : jsstring;
  m1 : option jsstring
}.

Definition matchHere (r : regex) (s : jsstring) (i : nat) : option rmatch :=
  run r s None
      (fun s1 cap =>
         let n := length s - length s1 in
         Some (mkMatch i (i + n) (firstn n s) cap)).

(** The leftmost match in [s], which starts at index [i] of the text. *)
Fixpoint scan (r : regex) (s : jsstring) (i : nat) : option rmatch :=
  match matchHere r s i with
  | Some m => Some m
  | None =>
    match s with
    | [] => None
    | _ :: s' => scan r s' (S i)
    end
  end.

(** [RegExp.prototype.exec] of a global pattern whose [lastIndex] is
    [lastIndex]; the new [lastIndex] is the match's [endIndex]. *)
Definition exec (r : regex) (text : jsstring) (lastIndex : nat)
  : option rmatch :=
  if length text <? lastIndex then None
  else scan r (skipn lastIndex text) lastIndex.

(** [String.prototype.match] with a pattern that has no [g] flag. *)
Definition smatch (text : jsstring) (r : regex) : option rmatch :=
  scan r text 0.

(** [a || b] on two match results. *)
Definition orElse (A : Type) (a b : option A) : option A :=
  match a with
  | Some x => Some x
  | None => b
  end.

(** ** Exceptions *)

Inductive error : Type :=
| TypeError
| SyntaxError
| ErrorMsg (msg : jsstring)
| Unavailable (msg : jsstring).

(** What running a piece of the worker produces: a value, a thrown
    exception, or [OutOfFuel] when a loop was cut short by its bound. *)
Inductive outcome (A : Type) : Type :=
| Ok (a : A)
| Throw (e : error)
| OutOfFuel.

Arguments Ok {A} a.
Arguments Throw {A} e.
Arguments OutOfFuel {A}.

Definition bind (A B : Type) (c : outcome A) (f : A -> outcome B)
  : outcome B :=
  match c with
  | Ok a => f a
  | Throw e => Throw e
  | OutOfFuel => OutOfFuel
  end.

(** [try { c } catch (error) { h error }] *)
Definition tryCatch (A : Type) (c : outcome A) (h : error -> outcome A)
  : outcome A :=
  match c with
  | Ok a => Ok a
  | Throw e => h e
  | OutOfFuel => OutOfFuel
  end.

Declare Scope outcome_scope.
Delimit Scope outcome_scope with outcome.
Notation "x <- c ;; k" := (bind c (fun x => k))
  (at level 61, c at next level, right associativity) : outcome_scope.
Local Open Scope outcome_scope.

(** [match[1]] where a string is required. *)
Definition group1 (m : rmatch) : outcome jsstring :=
  match m1 m with
  | Some g => Ok g
  | None => Throw TypeError
  end.

(** ** extractBullets *)

Definition bulletMark : charset := oneOf [8226; 42; 45; 43]%N.
Definition dotOrParen : charset := oneOf [46; 41]%N.

(** [/[•\*\-\+]\s*(.+?)(?=\n[•\*\-\+]|\n\n|$)/g] *)
Definition bulletRegex : regex :=
  seqs [Chr bulletMark; Star true isSpace; Group (Plus false dot);
        Look (Alt (Seq (Chr (lit LF)) (Chr bulletMark))
             (Alt (str [LF; LF])
                  Eoi))].

(** [/\d+[\.\)]\s*(.+?)(?=\n\d+[\.\)]|\n\n|$)/g] *)
Definition numberedRegex : regex :=
  seqs [Plus true isDigit; Chr dotOrParen; Star true isSpace;
        Group (Plus false dot);
        Look (Alt (seqs [Chr (lit LF); Plus true isDigit; Chr dotOrParen])
             (Alt (str [LF; LF])
                  Eoi))].

(** [while ((match = re.exec(text)) !== null) bullets.push(match[1].trim())]
    with the pattern's [lastIndex] and the array passed along. *)
Fixpoint execLoop (fuel : nat) (re : regex) (text : jsstring)
         (lastIndex : nat) (bullets : list jsstring)
  : outcome (list jsstring) :=
  match fuel with
  | O => OutOfFuel
  | S fuel' =>
    match exec re text lastIndex with
    | None => Ok bullets
    | Some m =>
      g <- group1 m ;;
      execLoop fuel' re text (endIndex m) (bullets ++ [trim g])
    end
  end.

Definition nonEmpty (b : jsstring) : bool := 0 <? length b.

Definition extractBullets (text : jsstring) : outcome (list jsstring) :=
  let fuel := S (length text) in
  bullets <- execLoop fuel bulletRegex text 0 [] ;;
  bullets <- execLoop fuel numberedRegex text 0 bullets ;;
  let bullets :=
    if length bullets =? 0 then
      let lines := filter nonEmpty (map trim (split LF text)) in
      bullets ++ lines
    else bullets in
  Ok (filter nonEmpty bullets).

(** ** parseSummary *)

Record SummarySections : Type := mkSections {
  headline : jsstring;
  themes : list jsstring;
  criticalIssues : list jsstring;
  recommendation : list jsstring
}.

Definition stars : regex := str (js "**").
Definition colonOrStar : charset := oneOf [58; 42]%N.
Definition colonOrDash : charset := oneOf [58; 45]%N.

(** The common tail [\s*\n?(body)(?=\n\*\*|$)]. *)
Definition sectionTail (body : regex) : regex :=
  seqs [Star true isSpace; Opt (lit LF); Group body;
        Look (Alt (str (LF :: js "**")) Eoi)].

(** [/\*\*name[:\*]?\*\*\s*\n?(body)(?=\n\*\*|$)/i] *)
Definition boldHeader (name body : regex) : regex :=
  seqs [stars; name; Opt colonOrStar; stars; sectionTail body].

(** [/name[:\-]?\s*\n?(body)(?=\n\*\*|$)/i] *)
Definition plainHeader (name body : regex) : regex :=
  seqs [name; Opt colonOrDash; sectionTail body].

(** [(.+?)] under the [s] flag and [([\s\S]*?)]. *)
Definition headlineBody : regex := Plus false dotAll.
Definition sectionBody : regex := Star false anyChar.

Definition reSummary : regex := stri (js "Summary").
Definition reHeadline : regex := stri (js "Headline").
(** [Key\s*Themes], [Top\s*3\s*Themes], [Critical\s*Issues] *)
Definition reKeyThemes : regex :=
  seqs [stri (js "Key"); Star true isSpace; stri (js "Themes")].
Definition reTop3Themes : regex :=
  seqs [stri (js "Top"); Star true isSpace; Chr (liti 51); Star true isSpace;
        stri (js "Themes")].
Definition reCriticalIssues : regex :=
  seqs [stri (js "Critical"); Star true isSpace; stri (js "Issues")].
Definition reRecommendation : regex := stri (js "Recommendation").

Definition noHeadline : jsstring := js "No headline available".

(** [m ? m[1] : ''] *)
Definition sectionText (m : option rmatch) : outcome jsstring :=
  match m with
  | Some m => group1 m
  | None => Ok []
  end.

(** The four [const ...Match = summaryText.match(...) || ...] chains. *)
Definition headlineMatch (summaryText : jsstring) : option rmatch :=
  orElse (smatch summaryText (boldHeader reSummary headlineBody))
 (orElse (smatch summaryText (boldHeader reHeadline headlineBody))
 (orElse (smatch summaryText (plainHeader reSummary headlineBody))
         (smatch summaryText (plainHeader reHeadline headlineBody)))).

Definition themesMatch (summaryText : jsstring) : option rmatch :=
  orElse (smatch summaryText (boldHeader reKeyThemes sectionBody))
 (orElse (smatch summaryText (boldHeader reTop3Themes sectionBody))
 (orElse (smatch summaryText (plainHeader reKeyThemes sectionBody))
         (smatch summaryText (plainHeader reTop3Themes sectionBody)))).

Definition issuesMatch (summaryText : jsstring) : option rmatch :=
  orElse (smatch summaryText (boldHeader reCriticalIssues sectionBody))
         (smatch summaryText (plainHeader reCriticalIssues sectionBody)).

Definition recMatch (summaryText : jsstring) : option rmatch :=
  orElse (smatch summaryText (boldHeader reRecommendation sectionBody))
         (smatch summaryText (plainHeader reRecommendation sectionBody)).

Definition parseSummary (summaryText : jsstring) : outcome SummarySections :=
  headline <- match headlineMatch summaryText with
              | Some m => g <- group1 m ;; Ok (trim g)
              | None => Ok noHeadline
              end ;;
  themesText <- sectionText (themesMatch summaryText) ;;
  themes <- extractBullets themesText ;;
  issuesText <- sectionText (issuesMatch summaryText) ;;
  criticalIssues <- extractBullets issuesText ;;
  recText <- sectionText (recMatch summaryText) ;;
  recommendation <- extractBullets recText ;;
  Ok (mkSections headline
                 (slice0 3 themes)
                 (slice0 3 criticalIssues)
                 (slice0 2 recommendation)).

(** The canonical template around the contents [h], [a], [b], [c], [d]. *)
Definition canonical (h a b c d : jsstring) : jsstring :=
  js "**Summary**" ++ [LF] ++ h ++ [LF; LF] ++
  js "**Key Themes**" ++ [LF] ++ js "• " ++ a ++ [LF] ++ js "• " ++ b
     ++ [LF; LF] ++
  js "**Critical Issues**" ++ [LF] ++ js "• " ++ c ++ [LF; LF] ++
  js "**Recommendation**" ++ [LF] ++ js "• " ++ d.


(** ** Values *)

(** A finite number in decimal: 0.d1...dk * 10^[point], with no leading
    and no trailing zero digit; zero has no digits.  (IEEE rounding is
    not modelled: a literal of more than seventeen significant digits,
    or outside the range of a double, keeps its exact value here.) *)
Record number : Type := mkNumber {
  negative : bool;
  digits : list N;
  point : Z
}.

(** The values an oracle returns and JSON text denotes.  An object is
    its own properties in enumeration order. *)
#[warnings="-register-all"] Inductive value : Type :=
| VUndefined
| VNull
| VBool (b : bool)
| VNum (n : number)
| VStr (s : jsstring)
| VArr (elems : list value)
| VObj (props : list (jsstring * value)).

(** ToBoolean *)
Definition truthy (v : value) : bool :=
  match v with
  | VUndefined | VNull => false
  | VBool b => b
  | VNum n => match digits n with [] => false | _ :: _ => true end
  | VStr s => match s with [] => false | _ :: _ => true end
  | VArr _ | VObj _ => true
  end.

(** [a || b] and [a && b] on values. *)
Definition vor (a b : value) : value := if truthy a then a else b.
Definition vand (a b : value) : value := if truthy a then b else a.

Definition nullish (v : value) : bool :=
  match v with
  | VUndefined | VNull => true
  | _ => false
  end.

Fixpoint lookup (key : jsstring) (props : list (jsstring * value))
  : option value :=
  match props with
  | [] => None
  | (k, v) :: rest => if jsstring_eqb k key then Some v else lookup key rest
  end.

(** [v.key] for the keys the worker reads ([response], [output],
    [sentiment], [urgency], [type], [content], [text]), none of which
    is defined on a built-in prototype: an own property of an object,
    [undefined] on any other value, a TypeError on [undefined] and
    [null]. *)
Definition getProp (v : value) (key : jsstring) : outcome value :=
  match v with
  | VUndefined | VNull => Throw TypeError
  | VObj props =>
    match lookup key props with
    | Some x => Ok x
    | None => Ok VUndefined
    end
  | _ => Ok VUndefined
  end.

(** [Array.isArray] *)
Definition isArray (v : value) : bool :=
  match v with
  | VArr _ => true
  | _ => false
  end.

(** [typeof v === 'string'] *)
Definition isString (v : value) : bool :=
  match v with
  | VStr _ => true
  | _ => false
  end.

(** [a === b] against a string constant. *)
Definition strictEqStr (v : value) (s : jsstring) : bool :=
  match v with
  | VStr x => jsstring_eqb x s
  | _ => false
  end.

(** [[s1, s2, ...].includes(v)] on an array of strings. *)
Definition arrayIncludes (l : list jsstring) (v : value) : bool :=
  existsb (strictEqStr v) l.

(** *** Number to string *)

Fixpoint uintChars (u : Decimal.uint) : jsstring :=
  match u with
  | Decimal.Nil => []
  | Decimal.D0 u => 48%N :: uintChars u
  | Decimal.D1 u => 49%N :: uintChars u
  | Decimal.D2 u => 50%N :: uintChars u
  | Decimal.D3 u => 51%N :: uintChars u
  | Decimal.D4 u => 52%N :: uintChars u
  | Decimal.D5 u => 53%N :: uintChars u
  | Decimal.D6 u => 54%N :: uintChars u
  | Decimal.D7 u => 55%N :: uintChars u
  | Decimal.D8 u => 56%N :: uintChars u
  | Decimal.D9 u => 57%N :: uintChars u
  end.

Definition natChars (n : N) : jsstring := uintChars (N.to_uint n).

Definition digitChars (ds : list N) : jsstring :=
  map (fun d => (48 + d)%N) ds.

Definition zeros (n : Z) : jsstring := repeat 48%N (Z.to_nat n).

(** Number::toString, radix 10. *)
Definition numberToString (x : number) : jsstring :=
  match digits x with
  | [] => js "0"
  | d1 :: rest =>
    let k := Z.of_nat (length (digits x)) in
    let n := point x in
    let body :=
      if ((k <=? n) && (n <=? 21))%Z then
        digitChars (digits x) ++ zeros (n - k)
      else if ((0 <? n) && (n <=? 21))%Z then
        digitChars (firstn (Z.to_nat n) (digits x)) ++ js "."
          ++ digitChars (skipn (Z.to_nat n) (digits x))
      else if ((-6 <? n) && (n <=? 0))%Z then
        js "0." ++ zeros (- n) ++ digitChars (digits x)
      else
        let e := (n - 1)%Z in
        let sign := if (0 <=? e)%Z then js "+" else js "-" in
        let mantissa :=
          match rest with
          | [] => digitChars [d1]
          | _ :: _ => digitChars [d1] ++ js "." ++ digitChars rest
          end in
        mantissa ++ js "e" ++ sign ++ natChars (Z.to_N (Z.abs e)) in
    if negative x then js "-" ++ body else body
  end.

(** *** JSON.stringify *)

Definition hexDigit (d : N) : N :=
  if (d <? 10)%N then (48 + d)%N else (87 + d)%N.

(** [\uXXXX] with lower-case digits. *)
Definition unicodeEscape (c : N) : jsstring :=
  js "\u" ++ [hexDigit (N.shiftr c 12 mod 16); hexDigit (N.shiftr c 8 mod 16);
              hexDigit (N.shiftr c 4 mod 16); hexDigit (c mod 16)]%N.

Definition isHighSurrogate : charset := inRange 55296 56319.
Definition isLowSurrogate : charset := inRange 56320 57343.

(** QuoteJSONString, without the enclosing quotes. *)
Fixpoint quoteChars (s : jsstring) : jsstring :=
  match s with
  | [] => []
  | c :: s' =>
    if N.eqb c 8 then js "\b" ++ quoteChars s'
    else if N.eqb c 9 then js "\t" ++ quoteChars s'
    else if N.eqb c 10 then js "\n" ++ quoteChars s'
    else if N.eqb c 12 then js "\f" ++ quoteChars s'
    else if N.eqb c 13 then js "\r" ++ quoteChars s'
    else if N.eqb c 34 then [92; 34]%N ++ quoteChars s'
    else if N.eqb c 92 then [92; 92]%N ++ quoteChars s'
    else if (c <? 32)%N then unicodeEscape c ++ quoteChars s'
    else if isHighSurrogate c then
      match s' with
      | c' :: s'' =>
        if isLowSurrogate c' then c :: c' :: quoteChars s''
        else unicodeEscape c ++ quoteChars s'
      | [] => unicodeEscape c
      end
    else if isLowSurrogate c then unicodeEscape c ++ quoteChars s'
    else c :: quoteChars s'
  end.

Definition quote (s : jsstring) : jsstring := [34%N] ++ quoteChars s ++ [34%N].

(** [Array.prototype.join] on strings. *)
Fixpoint join (sep : jsstring) (l : list jsstring) : jsstring :=
  match l with
  | [] => []
  | [x] => x
  | x :: rest => x ++ sep ++ join sep rest
  end.

(** SerializeJSONProperty with the gap [gap] at indentation [indent];
    [None] is [undefined]. *)
Fixpoint serialize (gap indent : jsstring) (v : value) : option jsstring :=
  match v with
  | VUndefined => None
  | VNull => Some (js "null")
  | VBool true => Some (js "true")
  | VBool false => Some (js "false")
  | VNum n => Some (numberToString n)
  | VStr s => Some (quote s)
  | VArr elems =>
    let stepback := indent in
    let indent := indent ++ gap in
    let partial :=
      map (fun e => match serialize gap indent e with
                    | Some strP => strP
                    | None => js "null"
                    end) elems in
    Some (match partial with
          | [] => js "[]"
          | _ :: _ =>
            match gap with
            | [] => js "[" ++ join (js ",") partial ++ js "]"
            | _ :: _ =>
              js "[" ++ [LF] ++ indent
                ++ join (js "," ++ [LF] ++ indent) partial
                ++ [LF] ++ stepback ++ js "]"
            end
          end)
  | VObj props =>
    let stepback := indent in
    let indent := indent ++ gap in
    let partial :=
      flat_map (fun kv =>
                  match serialize gap indent (snd kv) with
                  | Some strP =>
                    [quote (fst kv) ++ js ":"
                       ++ match gap with [] => [] | _ :: _ => js " " end
                       ++ strP]
                  | None => []
                  end) props in
    Some (match partial with
          | [] => js "{}"
          | _ :: _ =>
            match gap with
            | [] => js "{" ++ join (js ",") partial ++ js "}"
            | _ :: _ =>
              js "{" ++ [LF] ++ indent
                ++ join (js "," ++ [LF] ++ indent) partial
                ++ [LF] ++ stepback ++ js "}"
            end
          end)
  end.

(** [JSON.stringify(v)] and [JSON.stringify(v, null, 2)]; the result is
    a value because it is [undefined] for [undefined]. *)
Definition ofOption (o : option jsstring) : value :=
  match o with
  | Some s => VStr s
  | None => VUndefined
  end.

Definition JSON_stringify (v : value) : value :=
  ofOption (serialize [] [] v).

Definition JSON_stringify2 (v : value) : value :=
  ofOption (serialize (js "  ") [] v).

(** *** JSON.parse *)

Definition isJsonSpace : charset := oneOf [32; 9; 10; 13]%N.

Fixpoint skipSpace (s : jsstring) : jsstring :=
  match s with
  | c :: s' => if isJsonSpace c then skipSpace s' else s
  | [] => []
  end.

Definition hexValue (c : N) : option N :=
  if isDigit c then Some (c - 48)%N
  else if inRange 97 102 c then Some (c - 87)%N
  else if inRange 65 70 c then Some (c - 55)%N
  else None.

Definition hex4 (a b c d : N) : option N :=
  match hexValue a, hexValue b, hexValue c, hexValue d with
  | Some a, Some b, Some c, Some d =>
    Some (a * 4096 + b * 256 + c * 16 + d)%N
  | _, _, _, _ => None
  end.

(** The characters of a string literal after its opening quote, and the
    text after its closing quote; [acc] is what was read, reversed. *)
Fixpoint parseChars (s acc : jsstring) : option (jsstring * jsstring) :=
  match s with
  | [] => None
  | c :: r =>
    if N.eqb c 34 then Some (rev acc, r)
    else if N.eqb c 92 then
      match r with
      | [] => None
      | e :: r1 =>
        if N.eqb e 34 then parseChars r1 (34%N :: acc)
        else if N.eqb e 92 then parseChars r1 (92%N :: acc)
        else if N.eqb e 47 then parseChars r1 (47%N :: acc)
        else if N.eqb e 98 then parseChars r1 (8%N :: acc)
        else if N.eqb e 102 then parseChars r1 (12%N :: acc)
        else if N.eqb e 110 then parseChars r1 (10%N :: acc)
        else if N.eqb e 114 then parseChars r1 (13%N :: acc)
        else if N.eqb e 116 then parseChars r1 (9%N :: acc)
        else if N.eqb e 117 then
          match r1 with
          | h1 :: h2 :: h3 :: h4 :: r2 =>
            match hex4 h1 h2 h3 h4 with
            | Some u => parseChars r2 (u :: acc)
            | None => None
            end
          | _ => None
          end
        else None
      end
    else if (c <? 32)%N then None
    else parseChars r (c :: acc)
  end.

Fixpoint takeDigits (s : jsstring) : list N * jsstring :=
  match s with
  | c :: s' =>
    if isDigit c then
      let (ds, r) := takeDigits s' in ((c - 48)%N :: ds, r)
    else ([], s)
  | [] => ([], [])
  end.

Fixpoint dropZeros (ds : list N) : list N :=
  match ds with
  | 0%N :: ds' => dropZeros ds'
  | _ => ds
  end.

Definition digitsValue (ds : list N) : Z :=
  fold_left (fun a d => (a * 10 + Z.of_N d)%Z) ds 0%Z.

(** The number written with integer digits [ip], fraction digits [fp]
    and exponent [ex]. *)
Definition makeNumber (neg : bool) (ip fp : list N) (ex : Z) : number :=
  let all := ip ++ fp in
  let lead := dropZeros all in
  let sig := rev (dropZeros (rev lead)) in
  match sig with
  | [] => mkNumber neg [] 0
  | _ :: _ =>
    mkNumber neg sig
             (Z.of_nat (length ip) + ex
              - Z.of_nat (length all - length lead))%Z
  end.

(** A number literal: [-]int[.frac][(e|E)[+|-]digits]. *)
Definition parseNumber (s : jsstring) : option (number * jsstring) :=
  let (neg, s1) :=
    match s with
    | c :: r => if N.eqb c 45 then (true, r) else (false, s)
    | [] => (false, s)
    end in
  let (ip, s2) := takeDigits s1 in
  match ip with
  | [] => None
  | d :: more =>
    if N.eqb d 0 && (0 <? length more) then None
    else
      let frac :=
        match s2 with
        | c :: r =>
          if N.eqb c 46 then
            let (fp, r') := takeDigits r in
            match fp with
            | [] => None
            | _ :: _ => Some (fp, r')
            end
          else Some ([], s2)
        | [] => Some ([], s2)
        end in
      match frac with
      | None => None
      | Some (fp, s3) =>
        let expo :=
          match s3 with
          | c :: r =>
            if N.eqb c 101 || N.eqb c 69 then
              let (minus, r1) :=
                match r with
                | g :: r' =>
                  if N.eqb g 45 then (true, r')
                  else if N.eqb g 43 then (false, r')
                  else (false, r)
                | [] => (false, r)
                end in
              let (ed, r2) := takeDigits r1 in
              match ed with
              | [] => None
              | _ :: _ =>
                Some (if minus then (- digitsValue ed)%Z else digitsValue ed,
                      r2)
              end
            else Some (0%Z, s3)
          | [] => Some (0%Z, s3)
          end in
        match expo with
        | None => None
        | Some (ex, s4) => Some (makeNumber neg ip fp ex, s4)
        end
      end
  end.

(** An array index: the canonical decimal form of an integer below
    2^32 - 1.  Such keys are enumerated first, in ascending order. *)
Definition arrayIndex (key : jsstring) : option Z :=
  match takeDigits key with
  | (d :: more, []) =>
    if N.eqb d 0 && (0 <? length more) then None
    else if 10 <? length (d :: more) then None
    else let n := digitsValue (d :: more) in
         if (n <? 4294967295)%Z then Some n else None
  | _ => None
  end.

(** CreateDataProperty on an object under construction: an existing key
    keeps its place and takes the new value, a new array index goes to
    its numeric place, any other new key goes last. *)
Fixpoint defineProp (key : jsstring) (v : value)
         (props : list (jsstring * value)) : list (jsstring * value) :=
  match props with
  | [] => [(key, v)]
  | (k, x) :: rest =>
    if jsstring_eqb k key then (k, v) :: rest
    else
      let before :=
        match arrayIndex key, arrayIndex k with
        | Some n, Some m =>
          match lookup key rest with
          | Some _ => false
          | None => (n <? m)%Z
          end
        | Some _, None =>
          match lookup key rest with
          | Some _ => false
          | None => true
          end
        | None, _ => false
        end in
      if before then (key, v) :: (k, x) :: rest
      else (k, x) :: defineProp key v rest
  end.

Definition expect (c : N) (s : jsstring) : option jsstring :=
  match s with
  | c' :: r => if N.eqb c' c then Some r else None
  | [] => None
  end.

Definition syntaxError (A : Type) : outcome A := Throw SyntaxError.

(** A JSON value at the head of [s] (after white space), and the text
    that follows it.  Every recursive call is on a strictly shorter
    text, so [fuel] above the length of [s] is never used up. *)
Fixpoint parseValue (fuel : nat) (s : jsstring)
  : outcome (value * jsstring) :=
  match fuel with
  | O => OutOfFuel
  | S fuel' =>
    match skipSpace s with
    | [] => syntaxError _
    | c :: r =>
      if N.eqb c 123 then
        match skipSpace r with
        | c1 :: r1 =>
          if N.eqb c1 125 then Ok (VObj [], r1)
          else parseMembers fuel' (c1 :: r1) []
        | [] => syntaxError _
        end
      else if N.eqb c 91 then
        match skipSpace r with
        | c1 :: r1 =>
          if N.eqb c1 93 then Ok (VArr [], r1)
          else parseElements fuel' (c1 :: r1) []
        | [] => syntaxError _
        end
      else if N.eqb c 34 then
        match parseChars r [] with
        | Some (str, r1) => Ok (VStr str, r1)
        | None => syntaxError _
        end
      else if startsWith (js "true") (c :: r) then
        Ok (VBool true, skipn 4 (c :: r))
      else if startsWith (js "false") (c :: r) then
        Ok (VBool false, skipn 5 (c :: r))
      else if startsWith (js "null") (c :: r) then
        Ok (VNull, skipn 4 (c :: r))
      else
        match parseNumber (c :: r) with
        | Some (n, r1) => Ok (VNum n, r1)
        | None => syntaxError _
        end
    end
  end

(** The members of an object from a key on, up to the closing brace. *)
with parseMembers (fuel : nat) (s : jsstring)
                  (props : list (jsstring * value))
  : outcome (value * jsstring) :=
  match fuel with
  | O => OutOfFuel
  | S fuel' =>
    match expect 34 s with
    | None => syntaxError _
    | Some r =>
      match parseChars r [] with
      | None => syntaxError _
      | Some (key, r1) =>
        match expect 58 (skipSpace r1) with
        | None => syntaxError _
        | Some r2 =>
          match parseValue fuel' r2 with
          | Ok (v, r3) =>
            let props := defineProp key v props in
            match skipSpace r3 with
            | c :: r4 =>
              if N.eqb c 44 then parseMembers fuel' (skipSpace r4) props
              else if N.eqb c 125 then Ok (VObj props, r4)
              else syntaxError _
            | [] => syntaxError _
            end
          | Throw e => Throw e
          | OutOfFuel => OutOfFuel
          end
        end
      end
    end
  end

(** The elements of an array, up to the closing bracket; [elems] is what
    was read, reversed. *)
with parseElements (fuel : nat) (s : jsstring) (elems : list value)
  : outcome (value * jsstring) :=
  match fuel with
  | O => OutOfFuel
  | S fuel' =>
    match parseValue fuel' s with
    | Ok (v, r1) =>
      match skipSpace r1 with
      | c :: r2 =>
        if N.eqb c 44 then parseElements fuel' r2 (v :: elems)
        else if N.eqb c 93 then Ok (VArr (rev (v :: elems)), r2)
        else syntaxError _
      | [] => syntaxError _
      end
    | Throw e => Throw e
    | OutOfFuel => OutOfFuel
    end
  end.

(** [JSON.parse(text)] *)
Definition JSON_parse (text : jsstring) : outcome value :=
  match parseValue (S (2 * length text)) text with
  | Ok (v, rest) =>
    match skipSpace rest with
    | [] => Ok v
    | _ :: _ => syntaxError _
    end
  | Throw e => Throw e
  | OutOfFuel => OutOfFuel
  end.

(** ** The worker's environment *)

Module Feedback.

(** A row of the [feedback] table. *)
Record t : Type := mk {
  id : Z;
  content : jsstring;
  sentiment : option jsstring;
  urgency : option jsstring;
  created_at : jsstring
}.

End Feedback.

(** What is passed to [env.AI.run]: the model and the [input] messages,
    each a role and a content. *)
Record Request : Type := mkRequest {
  model : jsstring;
  input : list (jsstring * jsstring)
}.

(** How an oracle call ends. *)
Inductive reply : Type :=
| Returns (v : value)
| Fails (msg : jsstring).

(** The bindings: the oracle answers its [n]-th call on a request, and
    the store is reachable or not. *)
Record Env : Type := mkEnv {
  AI_run : nat -> Request -> reply;
  storageUp : bool
}.

(** What the worker changes: the table and the oracle calls made. *)
Record World : Type := mkWorld {
  feedback_db : list Feedback.t;
  requests : list Request
}.

(** An effectful computation: its outcome and the world it leaves. *)
Definition action (A : Type) : Type := World -> outcome A * World.

Definition ret (A : Type) (a : A) : action A := fun w => (Ok a, w).

Definition lift (A : Type) (c : outcome A) : action A := fun w => (c, w).

Definition bindA (A B : Type) (c : action A) (f : A -> action B)
  : action B :=
  fun w =>
    match c w with
    | (Ok a, w') => f a w'
    | (Throw e, w') => (Throw e, w')
    | (OutOfFuel, w') => (OutOfFuel, w')
    end.

(** [try { c } catch (error) { h error }]; what [c] did before it threw
    stays done. *)
Definition tryCatchA (A : Type) (c : action A) (h : error -> action A)
  : action A :=
  fun w =>
    match c w with
    | (Ok a, w') => (Ok a, w')
    | (Throw e, w') => h e w'
    | (OutOfFuel, w') => (OutOfFuel, w')
    end.

Declare Scope action_scope.
Delimit Scope action_scope with action.
Notation "x <~ c ;; k" := (bindA c (fun x => k))
  (at level 61, c at next level, right associativity) : action_scope.

(** [await env.AI.run(model, { input })] *)
Definition AI_call (env : Env) (req : Request) : action value :=
  fun w =>
    let w' := mkWorld (feedback_db w) (requests w ++ [req]) in
    match AI_run env (length (requests w)) req with
    | Returns v => (Ok v, w')
    | Fails msg => (Throw (Unavailable msg), w')
    end.

Definition storageError : error := Unavailable (js "Error: D1_ERROR").

(** A statement on the store: it throws when the store is unreachable. *)
Definition query (A : Type) (env : Env) (q : World -> A * World)
  : action A :=
  fun w =>
    if storageUp env then let (a, w') := q w in (Ok a, w')
    else (Throw storageError, w).

Definition unclassified (f : Feedback.t) : bool :=
  match Feedback.sentiment f, Feedback.urgency f with
  | Some _, Some _ => false
  | _, _ => true
  end.

(** [SELECT ... WHERE sentiment IS NULL OR urgency IS NULL LIMIT 10] *)
Definition selectUnclassified (env : Env) : action (list Feedback.t) :=
  query env (fun w => (firstn 10 (filter unclassified (feedback_db w)), w)).

(** A bound parameter: a string is stored as text, anything else that
    reaches these statements as NULL. *)
Definition toColumn (v : value) : option jsstring :=
  match v with
  | VStr s => Some s
  | _ => None
  end.

(** [UPDATE feedback SET sentiment = ?, urgency = ? WHERE id = ?] *)
Definition updateFeedback (env : Env) (sentiment urgency : value) (id : Z)
  : action unit :=
  query env (fun w =>
    (tt,
     mkWorld
       (map (fun f =>
               if Z.eqb (Feedback.id f) id then
                 Feedback.mk (Feedback.id f) (Feedback.content f)
                             (toColumn sentiment) (toColumn urgency)
                             (Feedback.created_at f)
               else f)
            (feedback_db w))
       (requests w))).

(** *** Responses *)

(** A response: its status, its content type and its body text. *)
Record Response : Type := mkResponse {
  status : nat;
  contentType : jsstring;
  body : value
}.

(** [new Response(JSON.stringify(payload), { status, headers })] *)
Definition jsonResponse (status : nat) (payload : value) : Response :=
  mkResponse status (js "application/json") (JSON_stringify payload).

(** The same with [JSON.stringify(payload, null, 2)]. *)
Definition jsonResponse2 (status : nat) (payload : value) : Response :=
  mkResponse status (js "application/json") (JSON_stringify2 payload).

(** [String(error)]: for an [Error] its name and message, for what an
    unreachable collaborator throws the text it carries.  (The message
    an engine attaches to a TypeError or SyntaxError is left out.) *)
Definition errorString (e : error) : jsstring :=
  match e with
  | TypeError => js "TypeError"
  | SyntaxError => js "SyntaxError"
  | ErrorMsg msg => js "Error: " ++ msg
  | Unavailable msg => msg
  end.

Fixpoint uintDigits (u : Decimal.uint) : list N :=
  match u with
  | Decimal.Nil => []
  | Decimal.D0 u => 0%N :: uintDigits u
  | Decimal.D1 u => 1%N :: uintDigits u
  | Decimal.D2 u => 2%N :: uintDigits u
  | Decimal.D3 u => 3%N :: uintDigits u
  | Decimal.D4 u => 4%N :: uintDigits u
  | Decimal.D5 u => 5%N :: uintDigits u
  | Decimal.D6 u => 6%N :: uintDigits u
  | Decimal.D7 u => 7%N :: uintDigits u
  | Decimal.D8 u => 8%N :: uintDigits u
  | Decimal.D9 u => 9%N :: uintDigits u
  end.

(** An integer as a number. *)
Definition numberOfZ (z : Z) : number :=
  makeNumber (z <? 0)%Z (uintDigits (N.to_uint (Z.to_N (Z.abs z)))) [] 0.

Definition numberOfNat (n : nat) : number := numberOfZ (Z.of_nat n).

(** ** classifyFeedback *)

Record ClassificationResult : Type := mkClassification {
  sentiment : value;
  urgency : value
}.

Definition dq : jsstring := [34%N].

Definition classifyModel : jsstring := js "@cf/openai/gpt-oss-120b".

Definition classifyPrompt (text : jsstring) : jsstring :=
  js "Analyze this customer feedback and classify it. Return ONLY a JSON object with "
  ++ dq ++ js "sentiment" ++ dq ++ js " (positive/negative/neutral) and "
  ++ dq ++ js "urgency" ++ dq ++ js " (high/medium/low)." ++ [LF; LF]
  ++ js "Feedback: " ++ dq ++ text ++ dq ++ [LF; LF]
  ++ js "Response format: {" ++ dq ++ js "sentiment" ++ dq ++ js ": " ++ dq
  ++ js "positive|negative|neutral" ++ dq ++ js ", " ++ dq ++ js "urgency"
  ++ dq ++ js ": " ++ dq ++ js "high|medium|low" ++ dq ++ js "}".

Definition classifyRequest (text : jsstring) : Request :=
  mkRequest classifyModel
    [(js "system",
      js "You are a feedback classification assistant. Always respond with valid JSON only.");
     (js "user", classifyPrompt text)].

(** [/\{[\s\S]*\}/] *)
Definition jsonRegex : regex :=
  seqs [Chr (lit 123); Star true anyChar; Chr (lit 125)].

Definition sentiments : list jsstring :=
  [js "positive"; js "negative"; js "neutral"].

Definition urgencies : list jsstring := [js "high"; js "medium"; js "low"].

(** The body of the [catch]: the keyword classification of the text. *)
Definition fallbackSentiment (text : jsstring) : jsstring :=
  let lowerText := toLowerCase text in
  if includes lowerText (js "great") || includes lowerText (js "love")
     || includes lowerText (js "excellent")
  then js "positive"
  else if includes lowerText (js "bad") || includes lowerText (js "hate")
          || includes lowerText (js "terrible")
  then js "negative"
  else js "neutral".

Definition fallbackUrgency (text : jsstring) : jsstring :=
  let lowerText := toLowerCase text in
  if includes lowerText (js "urgent") || includes lowerText (js "asap")
     || includes lowerText (js "critical")
  then js "high"
  else if includes lowerText (js "soon") || includes lowerText (js "important")
  then js "medium"
  else js "low".

Definition fallbackClassification (text : jsstring) : value :=
  VObj [(js "sentiment", VStr (fallbackSentiment text));
        (js "urgency", VStr (fallbackUrgency text))].

(** The body of the [try]: [responseText.match(...)] is a TypeError
    when [responseText] is not a string. *)
Definition extractJson (responseText : value) : outcome value :=
  match responseText with
  | VStr t =>
    match smatch t jsonRegex with
    | Some jsonMatch => JSON_parse (m0 jsonMatch)
    | None => Throw (ErrorMsg (js "No JSON found in response"))
    end
  | _ => Throw TypeError
  end.

(** The returned object literal, "Validate and normalize". *)
Definition normalize (classification : value) : outcome ClassificationResult :=
  s <- getProp classification (js "sentiment") ;;
  u <- getProp classification (js "urgency") ;;
  Ok (mkClassification
        (if arrayIncludes sentiments s then s else VStr (js "neutral"))
        (if arrayIncludes urgencies u then u else VStr (js "low"))).

(** [classifyFeedback] from the oracle's answer on. *)
Definition classifyResponse (text : jsstring) (response : value)
  : outcome ClassificationResult :=
  r <- getProp response (js "response") ;;
  let responseText := vor r (JSON_stringify response) in
  classification <-
    tryCatch (extractJson responseText)
             (fun _ => Ok (fallbackClassification text)) ;;
  normalize classification.

Local Open Scope action_scope.

Definition classifyFeedback (text : jsstring) (env : Env)
  : action ClassificationResult :=
  response <~ AI_call env (classifyRequest text) ;;
  lift (classifyResponse text response).

(** ** processFeedback *)

Definition processedItem (feedback : Feedback.t)
           (classification : ClassificationResult) : value :=
  VObj [(js "id", VNum (numberOfZ (Feedback.id feedback)));
        (js "content",
         VStr (substring0 50 (Feedback.content feedback) ++ js "..."));
        (js "sentiment", sentiment classification);
        (js "urgency", urgency classification)].

Definition errorItem (feedback : Feedback.t) (e : error) : value :=
  VObj [(js "id", VNum (numberOfZ (Feedback.id feedback)));
        (js "error", VStr (errorString e))].

(** The [for (const feedback of result.results)] loop over the arrays
    [processed] and [errors]. *)
Fixpoint processEach (env : Env) (results : list Feedback.t)
         (processed errors : list value)
  : action (list value * list value) :=
  match results with
  | [] => ret (processed, errors)
  | feedback :: rest =>
    arrays <~
      tryCatchA
        (classification <~ classifyFeedback (Feedback.content feedback) env ;;
         _ <~ updateFeedback env (sentiment classification)
                (urgency classification) (Feedback.id feedback) ;;
         ret (processed ++ [processedItem feedback classification], errors))
        (fun e => ret (processed, errors ++ [errorItem feedback e])) ;;
    processEach env rest (fst arrays) (snd arrays)
  end.

Definition processFeedback (env : Env) : action Response :=
  tryCatchA
    (results <~ selectUnclassified env ;;
     if length results =? 0 then
       ret (jsonResponse 200
              (VObj [(js "message", VStr (js "No unprocessed feedback found"))]))
     else
       arrays <~ processEach env results [] [] ;;
       let (processed, errors) := arrays in
       ret (jsonResponse 200
              (VObj [(js "processed", VNum (numberOfNat (length processed)));
                     (js "items", VArr processed);
                     (js "errors",
                      if 0 <? length errors then VArr errors
                      else VUndefined)])))
    (fun e =>
       ret (jsonResponse 500 (VObj [(js "error", VStr (errorString e))]))).

(** ** generateSummary *)

Local Open Scope outcome_scope.

(** [arr.filter(p)], [arr.flatMap(f)] and [arr.map(f)] with callbacks
    that may throw: the first exception ends the traversal. *)
Fixpoint filterM (A : Type) (p : A -> outcome bool) (l : list A)
  : outcome (list A) :=
  match l with
  | [] => Ok []
  | x :: rest =>
    keep <- p x ;;
    kept <- filterM p rest ;;
    Ok (if keep then x :: kept else kept)
  end.

Fixpoint mapM (A B : Type) (f : A -> outcome B) (l : list A)
  : outcome (list B) :=
  match l with
  | [] => Ok []
  | x :: rest =>
    y <- f x ;;
    ys <- mapM f rest ;;
    Ok (y :: ys)
  end.

Definition flatMapM (A B : Type) (f : A -> outcome (list B)) (l : list A)
  : outcome (list B) :=
  parts <- mapM f l ;; Ok (concat parts).

(** ToString.  An array is its elements joined by commas, [undefined]
    and [null] elements as the empty string; an object is
    "[object Object]" unless an own [toString] property, which cannot be
    callable here, hides the inherited method. *)
Fixpoint toStr (v : value) : outcome jsstring :=
  match v with
  | VUndefined => Ok (js "undefined")
  | VNull => Ok (js "null")
  | VBool true => Ok (js "true")
  | VBool false => Ok (js "false")
  | VNum n => Ok (numberToString n)
  | VStr s => Ok s
  | VArr elems =>
    parts <- (fix each (l : list value) : outcome (list jsstring) :=
                match l with
                | [] => Ok []
                | e :: rest =>
                  s <- (if nullish e then Ok [] else toStr e) ;;
                  ss <- each rest ;;
                  Ok (s :: ss)
                end) elems ;;
    Ok (join (js ",") parts)
  | VObj props =>
    match lookup (js "toString") props with
    | Some _ => Throw TypeError
    | None => Ok (js "[object Object]")
    end
  end.

(** [arr.join(sep)] *)
Definition joinValues (sep : jsstring) (l : list value) : outcome jsstring :=
  parts <- mapM (fun e => if nullish e then Ok [] else toStr e) l ;;
  Ok (join sep parts).

(** The template [${v}]. *)
Definition interpolate (v : value) : jsstring :=
  match toStr v with
  | Ok s => s
  | _ => []
  end.

(** [item.type === 'message' && item.content && Array.isArray(item.content)] *)
Definition isMessage (item : value) : outcome bool :=
  t <- getProp item (js "type") ;;
  if strictEqStr t (js "message") then
    c <- getProp item (js "content") ;;
    Ok (truthy (vand c (VBool (isArray c))))
  else Ok false.

(** What [flatMap] adds for the callback result [item.content]. *)
Definition contentOf (item : value) : outcome (list value) :=
  c <- getProp item (js "content") ;;
  Ok (match c with
      | VArr blocks => blocks
      | other => [other]
      end).

(** [c.type === 'output_text' && c.text] *)
Definition isOutputText (c : value) : outcome bool :=
  t <- getProp c (js "type") ;;
  if strictEqStr t (js "output_text") then
    x <- getProp c (js "text") ;;
    Ok (truthy x)
  else Ok false.

(** "Extract text from gpt-oss-120b response format": the [try] block
    that unwraps the oracle's answer into [summaryText], and its
    [catch]. *)
Definition unwrapParsed (parsed : value) : outcome value :=
  output <- getProp parsed (js "output") ;;
  if truthy (vand output (VBool (isArray output))) then
    match output with
    | VArr entries =>
      messages <- filterM isMessage entries ;;
      blocks <- flatMapM contentOf messages ;;
      texts <- filterM isOutputText blocks ;;
      textParts <- mapM (fun c => getProp c (js "text")) texts ;;
      joined <- joinValues [] textParts ;;
      Ok (vor (VStr joined) (JSON_stringify parsed))
    | _ => Throw TypeError
    end
  else
    response <- getProp parsed (js "response") ;;
    if truthy response then Ok response
    else Ok (JSON_stringify parsed).

Definition summaryTextOf (aiResponse : value) : outcome value :=
  tryCatch
    (parsed <- match aiResponse with
               | VStr s => JSON_parse s
               | _ => Ok aiResponse
               end ;;
     unwrapParsed parsed)
    (fun _ =>
       Ok (if isString aiResponse then aiResponse
           else JSON_stringify aiResponse)).

Definition today : jsstring := js "2026-01-18".

(** [DATE(created_at)] of a timestamp written by CURRENT_TIMESTAMP,
    'YYYY-MM-DD HH:MM:SS'. *)
Definition sqlDate (created_at : jsstring) : jsstring := firstn 10 created_at.

Definition classifiedOn (date : jsstring) (f : Feedback.t) : bool :=
  jsstring_eqb (sqlDate (Feedback.created_at f)) date
  && negb (unclassified f).

(** The comparison of two texts, code unit by code unit.  On the labels
    the worker stores, which are ASCII, it is the byte order of the
    BINARY collation. *)
Fixpoint compareStr (a b : jsstring) : comparison :=
  match a, b with
  | [], [] => Eq
  | [], _ :: _ => Lt
  | _ :: _, [] => Gt
  | x :: a', y :: b' =>
    match N.compare x y with
    | Eq => compareStr a' b'
    | c => c
    end
  end.

Definition column (c : option jsstring) : jsstring :=
  match c with
  | Some s => s
  | None => []
  end.

(** [ORDER BY urgency DESC, sentiment ASC]: whether [f] goes before [g]. *)
Definition rowBefore (f g : Feedback.t) : bool :=
  match compareStr (column (Feedback.urgency f)) (column (Feedback.urgency g)) with
  | Gt => true
  | Lt => false
  | Eq =>
    match compareStr (column (Feedback.sentiment f))
                     (column (Feedback.sentiment g)) with
    | Gt => false
    | _ => true
    end
  end.

Fixpoint insertRow (f : Feedback.t) (l : list Feedback.t) : list Feedback.t :=
  match l with
  | [] => [f]
  | g :: rest => if rowBefore f g then f :: l else g :: insertRow f rest
  end.

Definition orderRows (l : list Feedback.t) : list Feedback.t :=
  fold_right insertRow [] l.

(** [SELECT content, sentiment, urgency FROM feedback WHERE
    DATE(created_at) = ? AND sentiment IS NOT NULL AND urgency IS NOT NULL
    ORDER BY urgency DESC, sentiment ASC] *)
Definition selectClassified (env : Env) (date : jsstring)
  : action (list Feedback.t) :=
  query env (fun w =>
    (orderRows (filter (classifiedOn date) (feedback_db w)), w)).

Definition feedbackDatum (f : Feedback.t) : value :=
  VObj [(js "content", VStr (Feedback.content f));
        (js "sentiment", VStr (column (Feedback.sentiment f)));
        (js "urgency", VStr (column (Feedback.urgency f)))].

Definition summaryModel : jsstring := js "@cf/openai/gpt-oss-120b".

Definition summarySystem : jsstring :=
  js "You are a senior product manager at Cloudflare writing for a Director of Product. Generate concise, opinionated summaries that focus on root causes and specific recommendations. Follow the exact structure provided. Context: This feedback is about Cloudflare Workers and the Cloudflare Developer Platform. Focus on developer experience, runtime stability, deployment workflows, and tooling reliability. Avoid consumer SaaS language such as refunds or end-user outages.".

Definition summaryPrompt (feedbackJson : value) : jsstring :=
  js "Below is customer feedback collected from multiple channels (support, GitHub, Discord, social media).

Each item includes sentiment and urgency labels.

Data:

" ++ interpolate feedbackJson ++ js "

Produce a concise PM-facing summary with EXACTLY the following structure. Use the exact section headers shown:

**Summary**

[One sentence describing the single most critical product risk. Be specific about the risk and its impact.]

**Key Themes**

[Three bullet points synthesizing feedback into user problems. Focus on developer pain points, not feature requests. Avoid repeating similar wording across bullets.]

**Critical Issues**

[Maximum 3 bullet points focusing on root causes, not symptoms. Explain why these issues are blocking or risky. Use concrete examples when possible.]

**Recommendation**

[Maximum 2 bullet points that are opinionated and actionable. Suggest what to do first and what can wait. Be specific about actions, timelines, or priorities.]

Guidelines:
- Use the exact section headers: **Summary**, **Key Themes**, **Critical Issues**, **Recommendation**
- Do NOT repeat phrases across sections
- Do NOT use vague language like " ++ dq ++ js "prioritize" ++ dq ++ js " or "
  ++ dq ++ js "address issues" ++ dq ++ js " without specifics
- Write as if this will be read by a Director of Product
- Keep the entire response under 150 words
- Focus on developer experience, runtime stability, deployment workflows, and tooling reliability".

Definition summaryRequest (feedbackJson : value) : Request :=
  mkRequest summaryModel
    [(js "system", summarySystem); (js "user", summaryPrompt feedbackJson)].

Definition noFeedbackMessage : jsstring :=
  js "No processed feedback found for the specified date".

Local Open Scope action_scope.

Definition generateSummary (env : Env) : action Response :=
  tryCatchA
    (results <~ selectClassified env today ;;
     if length results =? 0 then
       ret (jsonResponse 200
              (VObj [(js "date", VStr today);
                     (js "message", VStr noFeedbackMessage)]))
     else
       let feedbackData := map feedbackDatum results in
       let feedbackJson := JSON_stringify2 (VArr feedbackData) in
       aiResponse <~ AI_call env (summaryRequest feedbackJson) ;;
       summaryText <~ lift (summaryTextOf aiResponse) ;;
       ret (jsonResponse2 200
              (VObj [(js "date", VStr today);
                     (js "summary", summaryText);
                     (js "feedback_count",
                      VNum (numberOfNat (length feedbackData)))])))
    (fun e =>
       ret (jsonResponse 500 (VObj [(js "error", VStr (errorString e))]))).

(** ** The earlier parseSummary *)

(** [src/index.ts] keeps the parser as it was before the prompt moved
    to the Summary and Key Themes headers: the headers are Headline and
    Top 3 Themes, the bold form ends in a colon, and what ends a section
    is consumed rather than looked at.  [extractBullets] is the same in
    both files, and [classifyFeedback] differs only in the request it
    sends to the oracle. *)
Module Legacy.

Local Open Scope outcome_scope.

(** [(?:\n|$)] and [(?:\*\*|$)] *)
Definition lineEnd : regex := Alt (Chr (lit LF)) Eoi.
Definition starsOrEnd : regex := Alt stars Eoi.

(** [/\*\*name:\*\*(body)end/i] *)
Definition boldHeader (name body ending : regex) : regex :=
  seqs [stars; name; Chr (lit 58); stars; Group body; ending].

(** [/name[:\-]?\s*(body)end/i] *)
Definition plainHeader (name body ending : regex) : regex :=
  seqs [name; Opt colonOrDash; Star true isSpace; Group body; ending].

(** [(.+?)] without the [s] flag. *)
Definition headlineBody : regex := Plus false dot.

Definition reTop3Themes : regex := stri (js "Top 3 Themes").
Definition reCriticalIssues : regex := stri (js "Critical Issues").

Definition headlineMatch (summaryText : jsstring) : option rmatch :=
  orElse (smatch summaryText (boldHeader reHeadline headlineBody lineEnd))
         (smatch summaryText (plainHeader reHeadline headlineBody lineEnd)).

Definition themesMatch (summaryText : jsstring) : option rmatch :=
  orElse (smatch summaryText (boldHeader reTop3Themes sectionBody starsOrEnd))
         (smatch summaryText (plainHeader reTop3Themes sectionBody starsOrEnd)).

Definition issuesMatch (summaryText : jsstring) : option rmatch :=
  orElse
    (smatch summaryText (boldHeader reCriticalIssues sectionBody starsOrEnd))
    (smatch summaryText (plainHeader reCriticalIssues sectionBody starsOrEnd)).

Definition recMatch (summaryText : jsstring) : option rmatch :=
  orElse
    (smatch summaryText (boldHeader reRecommendation sectionBody starsOrEnd))
    (smatch summaryText (plainHeader reRecommendation sectionBody starsOrEnd)).

Definition parseSummary (summaryText : jsstring) : outcome SummarySections :=
  headline <- match headlineMatch summaryText with
              | Some m => g <- group1 m ;; Ok (trim g)
              | None => Ok noHeadline
              end ;;
  themesText <- sectionText (themesMatch summaryText) ;;
  themes <- extractBullets themesText ;;
  issuesText <- sectionText (issuesMatch summaryText) ;;
  criticalIssues <- extractBullets issuesText ;;
  recText <- sectionText (recMatch summaryText) ;;
  recommendation <- extractBullets recText ;;
  Ok (mkSections headline
                 (slice0 3 themes)
                 (slice0 3 criticalIssues)
                 (slice0 2 recommendation)).

End Legacy.

(** ** renderDashboard *)

(** What [renderDashboard] hands to [renderDashboardHTML]: an error to
    show, or the date, the parsed sections and the item count.  (The
    markup built around them is not modelled.) *)
Inductive DashboardData : Type :=
| ErrorData (error : value)
| SummaryData (date : value) (sections : SummarySections)
              (feedbackCount : value).

(** [await response.json()] *)
Definition responseJson (r : Response) : outcome value :=
  match body r with
  | VStr text => JSON_parse text
  | _ => Throw SyntaxError
  end.

(** [parseSummary(summaryData.summary)]: the first [.match] is a
    TypeError on anything but a string. *)
Definition parseSummaryOf (summary : value) : outcome SummarySections :=
  match summary with
  | VStr summaryText => parseSummary summaryText
  | _ => Throw TypeError
  end.

Local Open Scope action_scope.

Definition renderDashboard (env : Env) : action DashboardData :=
  tryCatchA
    (summaryResponse <~ generateSummary env ;;
     summaryData <~ lift (responseJson summaryResponse) ;;
     error <~ lift (getProp summaryData (js "error")) ;;
     message <~ lift (getProp summaryData (js "message")) ;;
     if truthy (vor error message) then
       ret (ErrorData
              (vor error (vor message (VStr (js "Failed to load summary")))))
     else
       summary <~ lift (getProp summaryData (js "summary")) ;;
       parsed <~ lift (parseSummaryOf summary) ;;
       date <~ lift (getProp summaryData (js "date")) ;;
       feedbackCount <~ lift (getProp summaryData (js "feedback_count")) ;;
       ret (SummaryData date parsed feedbackCount))
    (fun e => ret (ErrorData (VStr (errorString e)))).

(** ** fetch *)

(** What the worker answers: the dashboard page for some data, or a
    response with a JSON body. *)
Inductive Reply : Type :=
| Page (data : DashboardData)
| Data (response : Response).

Definition endpointsResponse : Response :=
  jsonResponse 200
    (VObj [(js "endpoints",
            VObj [(js "/", VStr (js "GET - PM Dashboard"));
                  (js "/process",
                   VStr (js "GET - Process unclassified feedback"));
                  (js "/summary", VStr (js "GET - Generate daily summary"))])]).

Local Open Scope action_scope.

(** The router, on [req.method] and [new URL(req.url).pathname]. *)
Definition fetch (method path : jsstring) (env : Env) : action Reply :=
  if jsstring_eqb path (js "/") && jsstring_eqb method (js "GET") then
    data <~ renderDashboard env ;; ret (Page data)
  else if jsstring_eqb path (js "/process") && jsstring_eqb method (js "GET") then
    response <~ processFeedback env ;; ret (Data response)
  else if jsstring_eqb path (js "/summary") && jsstring_eqb method (js "GET") then
    response <~ generateSummary env ;; ret (Data response)
  else
    ret (Data endpointsResponse).

(** ** Vocabulary of the statements *)

Local Open Scope outcome_scope.

(** The least number of characters a match of [r] consumes. *)
Fixpoint minLen (r : regex) : nat :=
  match r with
  | Eps | Star _ _ | Look _ | Eoi => 0
  | Chr _ => 1
  | Seq r1 r2 => minLen r1 + minLen r2
  | Alt r1 r2 => Nat.min (minLen r1) (minLen r2)
  | Group r1 => minLen r1
  end.

(** Whether every match of [r] passes through the capture group. *)
Fixpoint setsCap (r : regex) : bool :=
  match r with
  | Eps | Chr _ | Star _ _ | Look _ | Eoi => false
  | Seq r1 r2 => setsCap r1 || setsCap r2
  | Alt r1 r2 => setsCap r1 && setsCap r2
  | Group _ => true
  end.

(** The match at position [j] of [text], if there is one. *)
Definition matchAt (r : regex) (text : jsstring) (j : nat) : option rmatch :=
  matchHere r (skipn j text) j.

(** All matches of a sticky-free global pattern from index [i] on, as
    the loop meets them: each is the leftmost match at or after the end
    of the one before, and none starts after the last. *)
Inductive allMatches (re : regex) (text : jsstring)
  : nat -> list rmatch -> Prop :=
| am_done i :
    (forall j, i <= j <= length text -> matchAt re text j = None) ->
    allMatches re text i []
| am_next i m ms :
    i <= index m <= length text ->
    matchAt re text (index m) = Some m ->
    (forall j, i <= j < index m -> matchAt re text j = None) ->
    allMatches re text (endIndex m) ms ->
    allMatches re text i (m :: ms).

(** What a match contributes to the array: [match[1].trim()]. *)
Definition bulletOf (m : rmatch) : jsstring :=
  match m1 m with
  | Some g => trim g
  | None => []
  end.

(** The lines of the fallback: [text.split('\n').map(trim).filter(...)]. *)
Definition fallbackLines (text : jsstring) : list jsstring :=
  filter nonEmpty (map trim (split LF text)).

(** What the two loops leave in the array. *)
Definition matched (bm nm : list rmatch) : list jsstring :=
  map bulletOf bm ++ map bulletOf nm.

(** The bullets of one section: [extractBullets(m ? m[1] : '')]. *)
Definition sectionBullets (m : option rmatch) : outcome (list jsstring) :=
  text <- sectionText m ;; extractBullets text.

(** The headline before it is stored. *)
Definition headlineOf (m : option rmatch) : outcome jsstring :=
  match m with
  | Some m => g <- group1 m ;; Ok (trim g)
  | None => Ok noHeadline
  end.


(** The property [key] of an object literal as the worker reads it. *)
Definition propOf (props : list (jsstring * value)) (key : jsstring) : value :=
  match lookup key props with
  | Some x => x
  | None => VUndefined
  end.

(** Membership in the two closed enumerations. *)
Definition validSentiment (v : value) : Prop :=
  v = VStr (js "positive") \/ v = VStr (js "negative")
  \/ v = VStr (js "neutral").

Definition validUrgency (v : value) : Prop :=
  v = VStr (js "high") \/ v = VStr (js "medium") \/ v = VStr (js "low").

(** A fully populated classification. *)
Definition populated (r : ClassificationResult) : Prop :=
  validSentiment (sentiment r) /\ validUrgency (urgency r).

(** The world after one more oracle call. *)
Definition called (w : World) (req : Request) : World :=
  mkWorld (feedback_db w) (requests w ++ [req]).

(** The batch [processFeedback] works on. *)
Definition batch (w : World) : list Feedback.t :=
  firstn 10 (filter unclassified (feedback_db w)).

(** [responseText] for an answer that is neither [null] nor
    [undefined]. *)
Definition responseTextOf (response : value) : value :=
  match getProp response (js "response") with
  | Ok r => vor r (JSON_stringify response)
  | _ => VUndefined
  end.

(** An oracle that fails every call with [msg], and an oracle that
    answers every call with [v]; the store is reachable. *)
Definition oracleDown (msg : jsstring) : Env :=
  mkEnv (fun _ _ => Fails msg) true.

Definition oracleSays (v : value) : Env :=
  mkEnv (fun _ _ => Returns v) true.

(** The ten rows of the sample data, not yet classified. *)
Definition sampleRow (id : Z) (content : jsstring) : Feedback.t :=
  Feedback.mk id content None None (js "2026-01-18 09:00:00").

Definition sampleFeedback : list Feedback.t :=
  [sampleRow 1 (js "This product is amazing! I love how easy it is to use.");
   sampleRow 2 (js "The app crashed three times today. This is urgent and needs immediate attention!");
   sampleRow 3 (js "The interface is okay, nothing special but it works.");
   sampleRow 4 (js "I hate this service. It's terrible and I want a refund ASAP!");
   sampleRow 5 (js "Great customer support, very helpful team.");
   sampleRow 6 (js "The loading time is too slow. Please fix this soon.");
   sampleRow 7 (js "Love the new features! Keep up the good work.");
   sampleRow 8 (js "Critical bug: users cannot log in. This needs to be fixed immediately!");
   sampleRow 9 (js "The design is nice but could use some improvements.");
   sampleRow 10 (js "Best product I've ever used. Highly recommend!")].

Definition sampleWorld : World := mkWorld sampleFeedback [].

(** The conventional envelope, as data: entries of some kind, each with
    content blocks of some kind that carry a text. *)
Record block : Type := mkBlock {
  blockType : jsstring;
  blockText : jsstring
}.

Record entry : Type := mkEntry {
  entryType : jsstring;
  entryContent : list block
}.

Definition encodeBlock (b : block) : value :=
  VObj [(js "type", VStr (blockType b)); (js "text", VStr (blockText b))].

Definition encodeEntry (e : entry) : value :=
  VObj [(js "type", VStr (entryType e));
        (js "content", VArr (map encodeBlock (entryContent e)))].

(** The texts of the blocks tagged output_text of the entries of kind
    message, concatenated in order. *)
Definition outputText (entries : list entry) : jsstring :=
  concat
    (map blockText
       (filter (fun b => jsstring_eqb (blockType b) (js "output_text"))
          (concat
             (map entryContent
                (filter (fun e => jsstring_eqb (entryType e) (js "message"))
                        entries))))).

(** Whether the envelope has an output array. *)
Definition hasOutputArray (props : list (jsstring * value)) : bool :=
  let output := propOf props (js "output") in
  truthy (vand output (VBool (isArray output))).

(** A computation that ends, with a value or an exception. *)
Definition finishes (A : Type) (c : outcome A) : Prop := c <> OutOfFuel.

(** The value the unwrapping works on: the oracle's answer itself, or
    what it denotes when it is a string of JSON. *)
Definition denotes (aiResponse parsed : value) : Prop :=
  match aiResponse with
  | VStr s => JSON_parse s = Ok parsed
  | _ => parsed = aiResponse
  end.

(** The rows [generateSummary] summarizes. *)
Definition summaryBatch (w : World) : list Feedback.t :=
  orderRows (filter (classifiedOn today) (feedback_db w)).

(** What the caller is told when there is nothing to summarize: the
    date and a message in place of a summary. *)
Definition emptyBatchResponse : Response :=
  jsonResponse 200
    (VObj [(js "date", VStr today); (js "message", VStr noFeedbackMessage)]).

(** Where a match of [r] that starts at [s] can end, whatever the
    priorities: [s'] is what is left of [s]. *)
Fixpoint exits (r : regex) (s s' : jsstring) : Prop :=
  match r with
  | Eps => s' = s
  | Chr cs => exists c, s = c :: s' /\ cs c = true
  | Seq r1 r2 => exists s1, exits r1 s s1 /\ exits r2 s1 s'
  | Alt r1 r2 => exits r1 s s' \/ exits r2 s s'
  | Star _ cs => exists p, s = p ++ s' /\ Forall (fun c => cs c = true) p
  | Group r1 => exits r1 s s'
  | Look r1 => s' = s /\ exists s1, exits r1 s s1
  | Eoi => s' = s /\ s = []
  end.

(** The text and lookahead shared by the two item patterns,
    [(.+?)(?=\n next|\n\n|$)]. *)
Definition itemTail (next : regex) : regex :=
  Seq (Group (Plus false dot))
      (Look (Alt (Seq (Chr (lit LF)) next) (Alt (str [LF; LF]) Eoi))).

(** An item pattern: each of its matches ends after one or more
    characters of a line, at the end of the text or before a line break
    that something follows. *)
Definition isItemPattern (re : regex) : Prop :=
  forall s s',
    exits re s s' ->
    exists w d q,
      s = w ++ d :: q ++ s' /\
      Forall (fun c => dot c = true) (d :: q) /\
      (s' = [] \/ exists y rest, s' = LF :: y :: rest).

(** ** Vocabulary of the further properties *)

(** An oracle that answers every call with something other than [null]
    and [undefined]. *)
Definition responsive (env : Env) : Prop :=
  forall n req, exists v, AI_run env n req = Returns v /\ nullish v = false.

(** What may have happened to a row: nothing, or it kept its id, content
    and timestamp and now carries a sentiment and an urgency of the two
    enumerations. *)
Definition evolved (f g : Feedback.t) : Prop :=
  g = f \/
  (Feedback.id g = Feedback.id f /\
   Feedback.content g = Feedback.content f /\
   Feedback.created_at g = Feedback.created_at f /\
   (exists s, Feedback.sentiment g = Some s /\ In s sentiments) /\
   (exists u, Feedback.urgency g = Some u /\ In u urgencies)).

(** The requests [processFeedback] sends for a batch. *)
Definition batchRequests (results : list Feedback.t) : list Request :=
  map (fun f => classifyRequest (Feedback.content f)) results.

Definition noUnprocessedResponse : Response :=
  jsonResponse 200
    (VObj [(js "message", VStr (js "No unprocessed feedback found"))]).

Definition errorResponse (e : error) : Response :=
  jsonResponse 500 (VObj [(js "error", VStr (errorString e))]).

(** The body of a processed batch. *)
Definition processedResponse (processed errors : list value) : Response :=
  jsonResponse 200
    (VObj [(js "processed", VNum (numberOfNat (length processed)));
           (js "items", VArr processed);
           (js "errors",
            if 0 <? length errors then VArr errors else VUndefined)]).

(** The update statement of one classification on one row. *)
Definition classifyRow (r : ClassificationResult) (id : Z) (f : Feedback.t)
  : Feedback.t :=
  if Z.eqb (Feedback.id f) id then
    Feedback.mk (Feedback.id f) (Feedback.content f)
                (toColumn (sentiment r)) (toColumn (urgency r))
                (Feedback.created_at f)
  else f.

(** A row after a batch that the oracle answered throughout: it keeps
    its id, it is the old row or a classified one, and it is classified
    when its id was in the batch. *)
Definition settled (results : list Feedback.t) (f g : Feedback.t) : Prop :=
  Feedback.id g = Feedback.id f /\
  (g = f \/ unclassified g = false) /\
  (In (Feedback.id f) (map Feedback.id results) -> unclassified g = false).

(** An entry of [items] for a row. *)
Definition itemOf (f : Feedback.t) (item : value) : Prop :=
  exists r, populated r /\ item = processedItem f r.

(** The rows still to classify. *)
Definition backlog (w : World) : list Feedback.t :=
  filter unclassified (feedback_db w).

(** An answer in prose around a JSON object with a sentiment only. *)
Definition chattyAnswerBody : jsstring :=
  dq ++ js "sentiment" ++ dq ++ js ": " ++ dq ++ js "negative" ++ dq.

Definition chattyAnswer : value :=
  VObj [(js "response",
         VStr (js "Sure! " ++ 123%N :: chattyAnswerBody
                 ++ 125%N :: js " Hope this helps."))].

(** A pattern without a capture group. *)
Fixpoint noGroup (r : regex) : bool :=
  match r with
  | Eps | Chr _ | Star _ _ | Eoi => true
  | Seq r1 r2 | Alt r1 r2 => noGroup r1 && noGroup r2
  | Group _ => false
  | Look r1 => noGroup r1
  end.

(** A pattern each of whose matches captures one or more characters of
    a line. *)
Definition capturesLine (re : regex) : Prop :=
  forall (A : Type) s cap (k : jsstring -> option jsstring -> option A) x,
    run re s cap k = Some x ->
    exists g s', g <> [] /\ Forall (fun c => dot c = true) g /\
                 k s' (Some g) = Some x.

(** A bullet as the caller receives it: not empty, without white space
    at either end, and within one line. *)
Definition cleanBullet (b : jsstring) : Prop :=
  b <> [] /\ trim b = b /\ ~ In LF b.

(** Whether [text] has the lower-case [word] in it, whatever the case of
    its ASCII letters. *)
Definition mentions (text word : jsstring) : bool :=
  includes (toLowerCase text) word.

(** A pattern each of whose matches runs over [word] in some case. *)
Definition spells (r : regex) (word : jsstring) : Prop :=
  forall s s',
    exits r s s' ->
    exists a u b, s = a ++ u ++ b /\ toLowerCase u = word.

(** *** Well-formed values *)

(** The invariant of [number]: digits below ten, no leading and no
    trailing zero; zero has no digits, no sign and no exponent. *)
Definition wfNumber (x : number) : bool :=
  match digits x with
  | [] => negb (negative x) && (point x =? 0)%Z
  | d :: _ =>
    negb (N.eqb d 0) && negb (N.eqb (last (digits x) 1%N) 0)
    && forallb (fun d => (d <? 10)%N) (digits x)
  end.

(** What may follow a number in JSON text. *)
Definition numberEnd (rest : jsstring) : bool :=
  match rest with
  | [] => true
  | c :: _ =>
    negb (isDigit c) && negb (N.eqb c 46) && negb (N.eqb c 101)
    && negb (N.eqb c 69)
  end.

(** The stages of [parseNumber]: the sign, the fraction, the exponent. *)
Definition signPart (s : jsstring) : bool * jsstring :=
  match s with
  | c :: r => if N.eqb c 45 then (true, r) else (false, s)
  | [] => (false, s)
  end.

Definition fracPart (s2 : jsstring) : option (list N * jsstring) :=
  match s2 with
  | c :: r =>
    if N.eqb c 46 then
      let (fp, r') := takeDigits r in
      match fp with
      | [] => None
      | _ :: _ => Some (fp, r')
      end
    else Some ([], s2)
  | [] => Some ([], s2)
  end.

Definition expoPart (s3 : jsstring) : option (Z * jsstring) :=
  match s3 with
  | c :: r =>
    if N.eqb c 101 || N.eqb c 69 then
      let (minus, r1) :=
        match r with
        | g :: r' =>
          if N.eqb g 45 then (true, r')
          else if N.eqb g 43 then (false, r')
          else (false, r)
        | [] => (false, r)
        end in
      let (ed, r2) := takeDigits r1 in
      match ed with
      | [] => None
      | _ :: _ =>
        Some (if minus then (- digitsValue ed)%Z else digitsValue ed, r2)
      end
    else Some (0%Z, s3)
  | [] => Some (0%Z, s3)
  end.

(** A number literal as text: sign, integer digits, fraction digits and
    exponent. *)
Definition fracText (fp : list N) : jsstring :=
  match fp with
  | [] => []
  | _ :: _ => 46%N :: digitChars fp
  end.

Definition expoText (ex : option (bool * list N)) : jsstring :=
  match ex with
  | None => []
  | Some (minus, ed) =>
    101%N :: (if minus then 45%N else 43%N) :: digitChars ed
  end.

Definition expoValue (ex : option (bool * list N)) : Z :=
  match ex with
  | None => 0%Z
  | Some (minus, ed) => if minus then (- digitsValue ed)%Z else digitsValue ed
  end.

Definition literal (neg : bool) (ip fp : list N)
           (ex : option (bool * list N)) : jsstring :=
  (if neg then [45%N] else []) ++ digitChars ip ++ fracText fp ++ expoText ex.

(** Decimal digits. *)
Definition below10 (ds : list N) : Prop := Forall (fun d => (d < 10)%N) ds.

(** Keys without repetition. *)
Fixpoint distinct (ks : list jsstring) : bool :=
  match ks with
  | [] => true
  | k :: rest => negb (existsb (jsstring_eqb k) rest) && distinct rest
  end.

(** A key that is not an array index keeps its place of insertion. *)
Definition wfKey (k : jsstring) : bool :=
  match arrayIndex k with
  | None => true
  | Some _ => false
  end.

(** The values JSON text denotes one to one: no [undefined] anywhere,
    numbers well formed, the keys of an object distinct and none an
    array index. *)
Fixpoint wfValue (v : value) : bool :=
  match v with
  | VUndefined => false
  | VNull | VBool _ | VStr _ => true
  | VNum n => wfNumber n
  | VArr elems => forallb wfValue elems
  | VObj props =>
    distinct (map fst props)
    && forallb (fun kv => wfKey (fst kv) && wfValue (snd kv)) props
  end.

(** The text of a value inside an array or an object. *)
Definition textOf (gap indent : jsstring) (v : value) : jsstring :=
  match serialize gap indent v with
  | Some strP => strP
  | None => js "null"
  end.

Definition lineBreak (gap indent : jsstring) : jsstring :=
  match gap with
  | [] => []
  | _ :: _ => LF :: indent
  end.

Definition colonSpace (gap : jsstring) : jsstring :=
  match gap with
  | [] => []
  | _ :: _ => [32%N]
  end.

Definition entryOf (gap indent : jsstring) (kv : jsstring * value)
  : jsstring :=
  quote (fst kv) ++ 58%N :: colonSpace gap ++ textOf gap indent (snd kv).

Definition spaces (ws : jsstring) : Prop :=
  Forall (fun c => isJsonSpace c = true) ws.

(** The first character of the text of a value. *)
Definition startsValue (t : jsstring) : Prop :=
  match t with
  | [] => False
  | c :: _ => isJsonSpace c = false /\ c <> 93%N
  end.

(** What is proved of each value by induction: it is written, and what
    is written is read back. *)
Definition readsBack (v : value) : Prop :=
  wfValue v = true ->
  forall gap indent,
    spaces gap -> spaces indent ->
    serialize gap indent v <> None /\
    startsValue (textOf gap indent v) /\
    forall ws rest fuel,
      spaces ws -> numberEnd rest = true ->
      length (textOf gap indent v) < fuel ->
      parseValue fuel (ws ++ textOf gap indent v ++ rest) = Ok (v, rest).

(** An answer in the output-array shape whose text names a negative
    sentiment and a high urgency. *)
Definition outputAnswerText : jsstring :=
  123%N :: dq ++ js "sentiment" ++ dq ++ js ": " ++ dq ++ js "negative" ++ dq
    ++ js ", " ++ dq ++ js "urgency" ++ dq ++ js ": " ++ dq ++ js "high" ++ dq
    ++ [125%N].

Definition outputAnswer : list (jsstring * value) :=
  [(js "output",
    VArr [encodeEntry
            (mkEntry (js "message")
                     [mkBlock (js "output_text") outputAnswerText])])].

Definition gapOfTwo : jsstring := js "  ".

(** A table with one row classified today. *)
Definition classifiedWorld : World :=
  mkWorld
    [Feedback.mk 2 (js "The app crashed three times today.")
                 (Some (js "negative")) (Some (js "high"))
                 (js "2026-01-18 09:00:00")]
    [].

Definition plainSummary : jsstring :=
  js "**Summary**" ++ LF :: js "Crashes block every deploy.".

(** *** A bullet list as text *)

(** A line of a bullet list: the mark, the blanks after it, the item. *)
Record bulletLine : Type := mkLine {
  lineMark : N;
  linePad : nat;
  lineItem : jsstring
}.

Definition lineText (l : bulletLine) : jsstring :=
  lineMark l :: repeat 32%N (linePad l) ++ lineItem l.

(** A digit directly followed by a period or a closing parenthesis. *)
Fixpoint hasNumberMark (s : jsstring) : bool :=
  match s with
  | [] => false
  | d :: s' =>
    match s' with
    | [] => false
    | c :: _ => (isDigit d && dotOrParen c) || hasNumberMark s'
    end
  end.

(** An item as [extractBullets] can return it: not empty, within one
    line, no white space at either end, and no numbered mark in it. *)
Definition goodItem (it : jsstring) : bool :=
  match it with
  | [] => false
  | c :: _ =>
    negb (isSpace c) && negb (isSpace (last it c))
    && forallb dot it && negb (hasNumberMark it)
  end.

Definition goodLine (l : bulletLine) : bool :=
  bulletMark (lineMark l) && goodItem (lineItem l).

(** The lines joined by line feeds, with no line feed after the last. *)
Definition listText (ls : list bulletLine) : jsstring :=
  join [LF] (map lineText ls).

(** The lines after the first, each behind its line feed. *)
Definition moreLines (ls : list bulletLine) : jsstring :=
  concat (map (fun l => LF :: lineText l) ls).

(** What follows an item: the end of the text or the next marked line. *)
Definition itemEnd (rest : jsstring) : Prop :=
  rest = [] \/
  exists m rest', rest = LF :: m :: rest' /\ bulletMark m = true.

(** Three lines with three different marks. *)
Definition sampleList : list bulletLine :=
  [mkLine 45 1 (js "Cold-start latency regressed");
   mkLine 8226 1 (js "Deploys fail 2 of 3 times");
   mkLine 42 2 (js "p99 doubled")].

(** *** Numbers that a double tells apart *)

(** A decimal of at most fifteen significant digits whose magnitude is
    zero or between 1e-301 and 1e300: the double nearest to it is read
    back and printed as the same decimal, is zero only if the decimal
    is, and no two such decimals share a double.  On these numbers the
    exact decimals of [number] behave as the engine's doubles do. *)
Definition exactNumber (x : number) : bool :=
  (length (digits x) <=? 15) && (-300 <=? point x)%Z && (point x <=? 300)%Z.

Fixpoint exactNumbers (v : value) : bool :=
  match v with
  | VNum n => exactNumber n
  | VArr elems => forallb exactNumbers elems
  | VObj props => forallb (fun kv => exactNumbers (snd kv)) props
  | _ => true
  end.

(** The same of an oracle's answer: of what it denotes when it is a
    string of JSON, of the answer itself otherwise. *)
Definition exactAnswer (aiResponse : value) : bool :=
  match aiResponse with
  | VStr s =>
    match JSON_parse s with
    | Ok parsed => exactNumbers parsed
    | _ => true
    end
  | _ => exactNumbers aiResponse
  end.

(** *** The output array of an envelope *)

(** [v.key] where it does not throw: an own property of an object,
    [undefined] on any other value. *)
Definition fieldOf (v : value) (key : jsstring) : value :=
  match v with
  | VObj props => propOf props key
  | _ => VUndefined
  end.

(** An entry of kind message whose content is an array. *)
Definition messageEntry (item : value) : bool :=
  strictEqStr (fieldOf item (js "type")) (js "message")
  && isArray (fieldOf item (js "content")).

Definition blocksOf (item : value) : list value :=
  match fieldOf item (js "content") with
  | VArr blocks => blocks
  | _ => []
  end.

(** A block tagged output_text whose text is not empty. *)
Definition outputTextBlock (c : value) : bool :=
  strictEqStr (fieldOf c (js "type")) (js "output_text")
  && truthy (fieldOf c (js "text")).

(** The content blocks of the message entries, in order, and the text
    fields of those tagged output_text. *)
Definition messageBlocks (entries : list value) : list value :=
  flat_map blocksOf (filter messageEntry entries).

Definition textFields (entries : list value) : list value :=
  map (fun c => fieldOf c (js "text"))
      (filter outputTextBlock (messageBlocks entries)).

Definition stringOf (v : value) : jsstring :=
  match v with
  | VStr s => s
  | _ => []
  end.

Definition outputTextOf (entries : list value) : jsstring :=
  concat (map stringOf (textFields entries)).

(** An output array the unwrapping reads without an exception and
    without a conversion: no entry and no content block of a message is
    [null] or [undefined], and the text fields it keeps are strings. *)
Definition wellShaped (entries : list value) : bool :=
  forallb (fun e => negb (nullish e)) entries
  && forallb (fun c => negb (nullish c)) (messageBlocks entries)
  && forallb isString (textFields entries).

(** A message as the model sends it, with the fields the unwrapping
    does not read. *)
Definition sampleMessage (text : jsstring) : value :=
  VObj [(js "id", VStr (js "msg_1"));
        (js "type", VStr (js "message"));
        (js "role", VStr (js "assistant"));
        (js "status", VStr (js "completed"));
        (js "content",
         VArr [VObj [(js "type", VStr (js "output_text"));
                     (js "annotations", VArr []);
                     (js "text", VStr text)]])].

Definition sampleReasoning : value :=
  VObj [(js "id", VStr (js "rs_1"));
        (js "type", VStr (js "reasoning"));
        (js "content",
         VArr [VObj [(js "type", VStr (js "reasoning_text"));
                     (js "text", VStr (js "thinking"))]])].

(** *** Rows as the worker's table holds them *)

Definition daysIn (month : N) : N :=
  match month with
  | 2 => 28
  | 4 | 6 | 9 | 11 => 30
  | _ => 31
  end%N.

Definition twoDigits (a b : N) : option N :=
  if isDigit a && isDigit b then Some ((a - 48) * 10 + (b - 48))%N else None.

(** A timestamp as CURRENT_TIMESTAMP writes it, 'YYYY-MM-DD HH:MM:SS'
    in UTC with a day of the calendar (the 29th of February left out)
    and a time of the clock: [DATE] of it is its first ten characters,
    which is what [sqlDate] takes. *)
Definition timestamp (s : jsstring) : bool :=
  match s with
  | [y1; y2; y3; y4; dash1; m1; m2; dash2; d1; d2; blank;
     h1; h2; colon1; i1; i2; colon2; s1; s2] =>
    isDigit y1 && isDigit y2 && isDigit y3 && isDigit y4
    && N.eqb dash1 45 && N.eqb dash2 45 && N.eqb blank 32
    && N.eqb colon1 58 && N.eqb colon2 58
    && match twoDigits m1 m2, twoDigits d1 d2,
             twoDigits h1 h2, twoDigits i1 i2, twoDigits s1 s2 with
       | Some month, Some day, Some hour, Some minute, Some second =>
         (1 <=? month)%N && (month <=? 12)%N
         && (1 <=? day)%N && (day <=? daysIn month)%N
         && (hour <=? 23)%N && (minute <=? 59)%N && (second <=? 59)%N
       | _, _, _, _, _ => false
       end
  | _ => false
  end.

(** Every row of the table carries such a timestamp. *)
Definition timestamped (w : World) : bool :=
  forallb (fun f => timestamp (Feedback.created_at f)) (feedback_db w).

(** Every urgency of the table is NULL or one of the three labels the
    classifier writes. *)
Definition urgencyLabel (u : option jsstring) : bool :=
  match u with
  | None => true
  | Some s => existsb (jsstring_eqb s) urgencies
  end.

Definition labelled (w : World) : bool :=
  forallb (fun f => urgencyLabel (Feedback.urgency f)) (feedback_db w).

(** A table with three rows classified today, one of each urgency. *)
Definition labelledWorld : World :=
  mkWorld
    [Feedback.mk 1 (js "Critical bug: users cannot log in.")
                 (Some (js "negative")) (Some (js "high"))
                 (js "2026-01-18 09:00:00");
     Feedback.mk 2 (js "The loading time is too slow.")
                 (Some (js "negative")) (Some (js "medium"))
                 (js "2026-01-18 09:05:00");
     Feedback.mk 3 (js "Love the new features!")
                 (Some (js "positive")) (Some (js "low"))
                 (js "2026-01-18 09:10:00")]
    [].

(** * Properties *)

(** ** The matcher *)

Lemma jsstring_eqb_eq a b : jsstring_eqb a b = true <-> a = b.
Proof.
  unfold jsstring_eqb. destruct (list_eq_dec N.eq_dec a b); split;
    intros; try easy.
Qed.

Lemma star_exit (A : Type) greedy cs s (k : jsstring -> option A) x :
  star greedy cs s k = Some x ->
  exists s', k s' = Some x /\ length s' <= length s.
Proof.
  revert x. destruct greedy; induction s as [|c s IH]; intros x H;
    simpl in H.
  - exists []. auto.
  - destruct (cs c).
    + destruct (star true cs s k) eqn:E.
      * destruct (IH _ eq_refl) as (s' & Hk & Hl). injection H as <-.
        exists s'. simpl. split; [assumption | lia].
      * exists (c :: s). auto.
    + exists (c :: s). auto.
  - exists []. destruct (k []); [auto | discriminate].
  - destruct (k (c :: s)) eqn:E.
    + exists (c :: s). split; [congruence | lia].
    + destruct (cs c); [| discriminate].
      destruct (IH _ H) as (s' & Hk & Hl).
      exists s'. simpl. split; [assumption | lia].
Qed.

(** Every result of [run] is a result of its continuation, called on a
    suffix at least [minLen r] shorter, with the group set when [r] sets
    it or it was set before. *)
Local Ltac exit_with s cap :=
  exists s, cap; simpl; split; [|split]; [auto | lia |].

Lemma run_exit r :
  forall (A : Type) s cap (k : jsstring -> option jsstring -> option A) x,
    run r s cap k = Some x ->
    exists s' cap',
      k s' cap' = Some x /\
      length s' + minLen r <= length s /\
      (setsCap r = true \/ cap <> None -> cap' <> None).
Proof.
  induction r as [|cs|r1 IH1 r2 IH2|r1 IH1 r2 IH2|g cs|r1 IH1|r1 IH1|];
    intros A s cap k x H; simpl in H.
  - exit_with s cap. intros [?|?]; easy.
  - destruct s as [|c s]; [discriminate|].
    destruct (cs c); [|discriminate].
    exit_with s cap. intros [?|?]; easy.
  - apply IH1 in H as (s1 & cap1 & H & L1 & C1).
    apply IH2 in H as (s2 & cap2 & H & L2 & C2).
    exit_with s2 cap2.
    intros [Hs|Hc]; auto.
    apply orb_true_iff in Hs as [Hs|Hs]; auto.
  - destruct (run r1 s cap k) eqn:E.
    + injection H as ->. apply IH1 in E as (s1 & cap1 & H & L1 & C1).
      exit_with s1 cap1.
      intros [Hs|Hc]; auto. apply andb_true_iff in Hs as [? ?]; auto.
    + apply IH2 in H as (s1 & cap1 & H & L1 & C1).
      exit_with s1 cap1.
      intros [Hs|Hc]; auto. apply andb_true_iff in Hs as [? ?]; auto.
  - apply star_exit in H as (s' & H & L).
    exit_with s' cap. intros [?|?]; easy.
  - apply IH1 in H as (s1 & cap1 & H & L1 & C1).
    exit_with s1 (Some (firstn (length s - length s1) s)). easy.
  - destruct (run r1 s cap (fun _ cap1 => Some cap1)) as [c1|] eqn:E;
      [|discriminate].
    apply IH1 in E as (s1 & cap1 & E & L1 & C1). injection E as ->.
    exit_with s c1. intros [?|?]; [easy | auto].
  - destruct s; [|discriminate].
    exit_with (@nil N) cap. intros [?|?]; easy.
Qed.

Lemma matchHere_spec r s i m :
  matchHere r s i = Some m ->
  index m = i /\
  i + minLen r <= endIndex m <= i + length s /\
  m0 m = firstn (endIndex m - i) s /\
  (setsCap r = true -> m1 m <> None).
Proof.
  unfold matchHere. intros H.
  apply run_exit in H as (s' & cap' & H & L & C).
  injection H as <-. simpl. repeat split; auto; try lia.
  f_equal. lia.
Qed.

(** [scan] returns the match at the first position that has one. *)
Lemma scan_some r : forall s i m,
  scan r s i = Some m ->
  exists d,
    d <= length s /\
    matchHere r (skipn d s) (i + d) = Some m /\
    forall d', d' < d -> matchHere r (skipn d' s) (i + d') = None.
Proof.
  induction s as [|c s IH]; intros i m H; simpl in H.
  - destruct (matchHere r [] i) eqn:E; [|discriminate].
    injection H as ->. exists 0. rewrite Nat.add_0_r. simpl.
    split; [lia | split; [exact E | intros; lia]].
  - destruct (matchHere r (c :: s) i) eqn:E.
    + injection H as ->. exists 0. rewrite Nat.add_0_r. simpl.
      split; [lia | split; [exact E | intros; lia]].
    + apply IH in H as (d & Hd & Hm & Hn). exists (S d).
      rewrite Nat.add_succ_r. simpl.
      split; [lia | split; [exact Hm |]].
      intros [|d'] Hlt.
      * rewrite Nat.add_0_r. exact E.
      * rewrite Nat.add_succ_r. apply Hn. lia.
Qed.

Lemma scan_none r : forall s i,
  scan r s i = None ->
  forall d, d <= length s -> matchHere r (skipn d s) (i + d) = None.
Proof.
  induction s as [|c s IH]; intros i H d Hd; simpl in H.
  - destruct (matchHere r [] i) eqn:E; [discriminate|].
    simpl in Hd. assert (d = 0) as -> by lia. rewrite Nat.add_0_r. exact E.
  - destruct (matchHere r (c :: s) i) eqn:E; [discriminate|].
    destruct d as [|d].
    + rewrite Nat.add_0_r. exact E.
    + rewrite Nat.add_succ_r. simpl. apply (IH (S i) H). simpl in Hd. lia.
Qed.

Lemma exec_some r text i m :
  exec r text i = Some m ->
  i <= index m /\ index m <= length text /\
  matchAt r text (index m) = Some m /\
  (forall j, i <= j < index m -> matchAt r text j = None) /\
  index m + minLen r <= endIndex m <= length text /\
  (setsCap r = true -> m1 m <> None).
Proof.
  unfold exec, matchAt. destruct (length text <? i) eqn:E; [discriminate|].
  apply Nat.ltb_ge in E. intros H.
  apply scan_some in H as (d & Hd & Hm & Hn).
  rewrite skipn_skipn in Hm. rewrite length_skipn in Hd.
  pose proof (@matchHere_spec _ _ _ _ Hm) as (Hi & He & _ & Hc).
  rewrite length_skipn in He.
  replace (d + i) with (index m) in Hm by lia.
  replace (i + d) with (index m) in Hm by lia.
  split; [lia | split; [lia | split; [exact Hm | split; [| split]]]].
  - intros j Hj. specialize (Hn (j - i)).
    rewrite skipn_skipn in Hn.
    replace (j - i + i) with j in Hn by lia.
    replace (i + (j - i)) with j in Hn by lia. apply Hn. lia.
  - lia.
  - exact Hc.
Qed.

Lemma exec_none r text i :
  exec r text i = None ->
  forall j, i <= j <= length text -> matchAt r text j = None.
Proof.
  unfold exec, matchAt. destruct (length text <? i) eqn:E.
  - apply Nat.ltb_lt in E. intros; lia.
  - apply Nat.ltb_ge in E. intros H j Hj.
    pose proof (@scan_none r _ _ H (j - i)) as Hn.
    rewrite skipn_skipn, length_skipn in Hn.
    replace (j - i + i) with j in Hn by lia.
    replace (i + (j - i)) with j in Hn by lia. apply Hn. lia.
Qed.

(** ** The matching loops of extractBullets *)

Lemma matchAt_index re text j m :
  matchAt re text j = Some m -> index m = j.
Proof.
  unfold matchAt. intros H. apply matchHere_spec in H. tauto.
Qed.

Lemma allMatches_unique re text : forall i ms ms',
  allMatches re text i ms -> allMatches re text i ms' -> ms = ms'.
Proof.
  intros i ms ms' H. revert ms'.
  induction H as [i Hn | i m ms Hi Hm Hn Hrest IH]; intros ms' H'.
  - destruct H' as [|i m' ms' Hi' Hm' _ _]; [reflexivity|].
    rewrite Hn in Hm'; [discriminate | lia].
  - destruct H' as [i Hn' | i m' ms' Hi' Hm' Hn' Hrest'].
    + rewrite Hn' in Hm; [discriminate | lia].
    + assert (index m = index m') as Heq.
      { destruct (Nat.lt_trichotomy (index m) (index m')) as [L|[L|L]].
        - rewrite Hn' in Hm; [discriminate | lia].
        - exact L.
        - rewrite Hn in Hm'; [discriminate | lia]. }
      rewrite Heq in Hm. assert (m = m') as -> by congruence.
      f_equal. apply IH. exact Hrest'.
Qed.

(** Matches come in source order: their start indices increase. *)
Lemma allMatches_sorted re text :
  1 <= minLen re ->
  forall i ms, allMatches re text i ms ->
    Forall (fun m => i <= index m) ms /\
    StronglySorted lt (map index ms).
Proof.
  intros Hmin i ms H.
  induction H as [i Hn | i m ms Hi Hm Hn Hrest [IHf IHs]]; simpl.
  - split; constructor.
  - pose proof (@matchHere_spec _ _ _ _ Hm) as (_ & He & _).
    split.
    + constructor; [lia|].
      eapply Forall_impl; [|exact IHf]. simpl. intros; lia.
    + constructor; [exact IHs|].
      apply Forall_map. eapply Forall_impl; [|exact IHf].
      simpl. intros; lia.
Qed.

(** The loop terminates within its bound and pushes exactly the
    matches of [allMatches], in that order. *)
Lemma execLoop_spec re text :
  1 <= minLen re -> setsCap re = true ->
  forall fuel i acc,
    i <= length text < fuel + i ->
    exists ms,
      allMatches re text i ms /\
      execLoop fuel re text i acc = Ok (acc ++ map bulletOf ms).
Proof.
  intros Hmin Hcap. induction fuel as [|fuel IH]; intros i acc Hfuel.
  - lia.
  - simpl. destruct (exec re text i) as [m|] eqn:E.
    + apply exec_some in E as (Hi & Hl & Hm & Hn & He & Hc).
      specialize (Hc Hcap). unfold group1.
      destruct (m1 m) as [g|] eqn:Eg; [|congruence]. simpl.
      destruct (IH (endIndex m) (acc ++ [trim g])) as (ms & Hms & Hrun);
        [lia|].
      exists (m :: ms). split.
      * constructor; [lia | assumption..].
      * rewrite Hrun. rewrite <- app_assoc. simpl.
        unfold bulletOf at 2. rewrite Eg. reflexivity.
    + exists []. split.
      * constructor. apply exec_none. exact E.
      * rewrite app_nil_r. reflexivity.
Qed.

Lemma bulletRegex_shape : 1 <= minLen bulletRegex /\ setsCap bulletRegex = true.
Proof. split; [simpl; lia | reflexivity]. Qed.

Lemma numberedRegex_shape :
  1 <= minLen numberedRegex /\ setsCap numberedRegex = true.
Proof. split; [simpl; lia | reflexivity]. Qed.

Lemma extractBullets_spec text :
  exists bm nm,
    allMatches bulletRegex text 0 bm /\
    allMatches numberedRegex text 0 nm /\
    extractBullets text =
      Ok (filter nonEmpty
            (match matched bm nm with
             | [] => fallbackLines text
             | _ :: _ => matched bm nm
             end)).
Proof.
  destruct bulletRegex_shape as [Bmin Bcap].
  destruct numberedRegex_shape as [Nmin Ncap].
  destruct (@execLoop_spec bulletRegex text Bmin Bcap (S (length text)) 0 [])
    as (bm & Hbm & Eb); [lia|].
  destruct (@execLoop_spec numberedRegex text Nmin Ncap (S (length text)) 0
              ([] ++ map bulletOf bm)) as (nm & Hnm & En); [lia|].
  exists bm, nm. split; [exact Hbm | split; [exact Hnm|]].
  simpl app in Eb, En.
  unfold extractBullets. cbv zeta. rewrite Eb. cbn [bind].
  rewrite En. cbn [bind]. fold (matched bm nm).
  unfold fallbackLines.
  destruct (matched bm nm); reflexivity.
Qed.

Lemma extractBullets_total text : exists bs, extractBullets text = Ok bs.
Proof.
  destruct (extractBullets_spec text) as (bm & nm & _ & _ & E). eauto.
Qed.

(** ** parseSummary *)

Lemma smatch_group1 text r m :
  setsCap r = true -> smatch text r = Some m -> exists g, m1 m = Some g.
Proof.
  intros Hc H. unfold smatch in H.
  assert (exec r text 0 = Some m) as E by exact H.
  apply exec_some in E as (_ & _ & _ & _ & _ & Hg).
  destruct (m1 m) as [g|]; [eauto | now specialize (Hg Hc)].
Qed.

Local Ltac group1_chain H :=
  repeat match type of H with
         | orElse ?a _ = Some _ =>
           let E := fresh "E" in
           destruct a eqn:E; simpl in H;
           [injection H as ->; eapply smatch_group1; [|exact E]; reflexivity|]
         end;
  eapply smatch_group1; [|exact H]; reflexivity.

Lemma headlineMatch_group1 s m :
  headlineMatch s = Some m -> exists g, m1 m = Some g.
Proof. unfold headlineMatch. intros H. group1_chain H. Qed.

Lemma themesMatch_group1 s m :
  themesMatch s = Some m -> exists g, m1 m = Some g.
Proof. unfold themesMatch. intros H. group1_chain H. Qed.

Lemma issuesMatch_group1 s m :
  issuesMatch s = Some m -> exists g, m1 m = Some g.
Proof. unfold issuesMatch. intros H. group1_chain H. Qed.

Lemma recMatch_group1 s m :
  recMatch s = Some m -> exists g, m1 m = Some g.
Proof. unfold recMatch. intros H. group1_chain H. Qed.

Lemma sectionBullets_total m :
  (forall x, m = Some x -> exists g, m1 x = Some g) ->
  exists bs, sectionBullets m = Ok bs /\ (m = None -> bs = []).
Proof.
  intros Hg. unfold sectionBullets, sectionText.
  destruct m as [x|].
  - destruct (Hg x eq_refl) as (g & Eg). unfold group1. rewrite Eg. simpl.
    destruct (extractBullets_total g) as (bs & E). exists bs.
    split; [exact E | discriminate].
  - simpl. exists []. split; [reflexivity | reflexivity].
Qed.

Lemma headlineOf_total m :
  (forall x, m = Some x -> exists g, m1 x = Some g) ->
  exists h, headlineOf m = Ok h /\ (m = None -> h = noHeadline).
Proof.
  intros Hg. unfold headlineOf. destruct m as [x|].
  - destruct (Hg x eq_refl) as (g & Eg). unfold group1. rewrite Eg. simpl.
    exists (trim g). split; [reflexivity | discriminate].
  - exists noHeadline. split; reflexivity.
Qed.

(** [parseSummary] is the four extractions followed by the cuts. *)
Lemma parseSummary_unfold s :
  parseSummary s =
    (h <- headlineOf (headlineMatch s) ;;
     t <- sectionBullets (themesMatch s) ;;
     i <- sectionBullets (issuesMatch s) ;;
     c <- sectionBullets (recMatch s) ;;
     Ok (mkSections h (slice0 3 t) (slice0 3 i) (slice0 2 c))).
Proof.
  unfold parseSummary, sectionBullets, headlineOf.
  destruct (headlineMatch s) as [m|]; simpl.
  2: destruct (sectionText (themesMatch s)); simpl; try reflexivity;
     destruct (extractBullets a); simpl; try reflexivity;
     destruct (sectionText (issuesMatch s)); simpl; try reflexivity;
     destruct (extractBullets a1); simpl; try reflexivity;
     destruct (sectionText (recMatch s)); simpl; reflexivity.
  destruct (group1 m); simpl; try reflexivity.
  destruct (sectionText (themesMatch s)); simpl; try reflexivity;
     destruct (extractBullets a0); simpl; try reflexivity;
     destruct (sectionText (issuesMatch s)); simpl; try reflexivity;
     destruct (extractBullets a2); simpl; try reflexivity;
     destruct (sectionText (recMatch s)); simpl; reflexivity.
Qed.

Lemma parseSummary_spec s :
  exists h t i c,
    headlineOf (headlineMatch s) = Ok h /\
    sectionBullets (themesMatch s) = Ok t /\
    sectionBullets (issuesMatch s) = Ok i /\
    sectionBullets (recMatch s) = Ok c /\
    parseSummary s = Ok (mkSections h (slice0 3 t) (slice0 3 i) (slice0 2 c)).
Proof.
  destruct (@headlineOf_total (headlineMatch s)) as (h & Eh & _).
  { intros x Hx. eapply headlineMatch_group1; eauto. }
  destruct (@sectionBullets_total (themesMatch s)) as (t & Et & _).
  { intros x Hx. eapply themesMatch_group1; eauto. }
  destruct (@sectionBullets_total (issuesMatch s)) as (i & Ei & _).
  { intros x Hx. eapply issuesMatch_group1; eauto. }
  destruct (@sectionBullets_total (recMatch s)) as (c & Ec & _).
  { intros x Hx. eapply recMatch_group1; eauto. }
  exists h, t, i, c. repeat (split; [assumption|]).
  rewrite parseSummary_unfold, Eh, Et, Ei, Ec. reflexivity.
Qed.

(** ** Why a bullet before a single closing line break is lost *)

Lemma star_exits (A : Type) greedy cs s (k : jsstring -> option A) x :
  star greedy cs s k = Some x ->
  exists p s',
    s = p ++ s' /\ Forall (fun c => cs c = true) p /\ k s' = Some x.
Proof.
  revert x. destruct greedy; induction s as [|c s IH]; intros x H;
    simpl in H.
  - exists [], []. auto.
  - destruct (cs c) eqn:Ec.
    + destruct (star true cs s k) eqn:E.
      * destruct (IH _ eq_refl) as (p & s' & -> & Hp & Hk).
        injection H as <-. exists (c :: p), s'. auto.
      * exists [], (c :: s). auto.
    + exists [], (c :: s). auto.
  - exists [], []. destruct (k []); [auto | discriminate].
  - destruct (k (c :: s)) eqn:E.
    + exists [], (c :: s). split; [reflexivity|]. split; [constructor|].
      congruence.
    + destruct (cs c) eqn:Ec; [| discriminate].
      destruct (IH _ H) as (p & s' & -> & Hp & Hk).
      exists (c :: p), s'. auto.
Qed.

(** Every result of [run] comes from one of the ends [exits] allows. *)
Lemma run_exits r :
  forall (A : Type) s cap (k : jsstring -> option jsstring -> option A) x,
    run r s cap k = Some x ->
    exists s' cap', exits r s s' /\ k s' cap' = Some x.
Proof.
  induction r as [|cs|r1 IH1 r2 IH2|r1 IH1 r2 IH2|g cs|r1 IH1|r1 IH1|];
    intros A s cap k x H; simpl in H.
  - exists s, cap. simpl. auto.
  - destruct s as [|c s]; [discriminate|].
    destruct (cs c) eqn:Ec; [|discriminate].
    exists s, cap. simpl. eauto.
  - apply IH1 in H as (s1 & cap1 & X1 & H).
    apply IH2 in H as (s2 & cap2 & X2 & H).
    exists s2, cap2. simpl. eauto.
  - destruct (run r1 s cap k) eqn:E.
    + injection H as ->. apply IH1 in E as (s1 & cap1 & X1 & H).
      exists s1, cap1. simpl. auto.
    + apply IH2 in H as (s1 & cap1 & X1 & H).
      exists s1, cap1. simpl. auto.
  - apply star_exits in H as (p & s' & -> & Hp & H).
    exists s', cap. simpl. eauto.
  - apply IH1 in H as (s1 & cap1 & X1 & H).
    eexists s1, _. simpl. eauto.
  - destruct (run r1 s cap (fun _ cap1 => Some cap1)) as [c1|] eqn:E;
      [|discriminate].
    apply IH1 in E as (s1 & cap1 & X1 & _).
    exists s, c1. simpl. eauto.
  - destruct s; [|discriminate].
    exists [], cap. simpl. auto.
Qed.

Lemma exits_suffix r : forall s s', exits r s s' -> exists w, s = w ++ s'.
Proof.
  induction r as [|cs|r1 IH1 r2 IH2|r1 IH1 r2 IH2|g cs|r1 IH1|r1 IH1|];
    intros s s' H; simpl in H.
  - exists []. subst. reflexivity.
  - destruct H as (c & -> & _). exists [c]. reflexivity.
  - destruct H as (s1 & H1 & H2).
    apply IH1 in H1 as (w1 & ->). apply IH2 in H2 as (w2 & ->).
    exists (w1 ++ w2). rewrite app_assoc. reflexivity.
  - destruct H as [H|H]; [apply IH1 in H | apply IH2 in H]; exact H.
  - destruct H as (p & -> & _). exists p. reflexivity.
  - apply IH1 in H. exact H.
  - destruct H as [-> _]. exists []. reflexivity.
  - destruct H as [-> _]. exists []. reflexivity.
Qed.

Lemma exits_minLen r : forall s s',
  exits r s s' -> length s' + minLen r <= length s.
Proof.
  induction r as [|cs|r1 IH1 r2 IH2|r1 IH1 r2 IH2|g cs|r1 IH1|r1 IH1|];
    intros s s' H; simpl in *.
  - subst. lia.
  - destruct H as (c & -> & _). simpl. lia.
  - destruct H as (s1 & H1 & H2). apply IH1 in H1. apply IH2 in H2. lia.
  - destruct H as [H|H]; [apply IH1 in H | apply IH2 in H]; lia.
  - destruct H as (p & -> & _). rewrite length_app. lia.
  - apply IH1 in H. lia.
  - destruct H as [-> _]. lia.
  - destruct H as [-> _]. lia.
Qed.

(** Past the head of [Seq head rest] there is an end of [rest]. *)
Lemma exits_seq_tail head rest s s' :
  exits (Seq head rest) s s' ->
  exists w s1, s = w ++ s1 /\ exits rest s1 s'.
Proof.
  simpl. intros (s1 & H1 & H2).
  apply exits_suffix in H1 as (w & ->). eauto.
Qed.

Lemma scan_none_intro r : forall s i,
  (forall d, d <= length s -> matchHere r (skipn d s) (i + d) = None) ->
  scan r s i = None.
Proof.
  induction s as [|c s IH]; intros i H; simpl.
  - specialize (H 0 (Nat.le_refl _)). rewrite Nat.add_0_r in H. simpl in H.
    rewrite H. reflexivity.
  - pose proof (H 0 (Nat.le_0_l _)) as H0. rewrite Nat.add_0_r in H0.
    simpl in H0. rewrite H0. apply IH. intros d Hd.
    specialize (H (S d)). rewrite Nat.add_succ_r in H. apply H.
    simpl. lia.
Qed.

(** An item's text and lookahead: one or more characters of a line, then
    the end of the text or a line break that something follows. *)
Lemma itemTail_exits next s1 s' :
  1 <= minLen next ->
  exits (itemTail next) s1 s' ->
  exists d q,
    s1 = d :: q ++ s' /\ Forall (fun c => dot c = true) (d :: q) /\
    (s' = [] \/ exists y rest, s' = LF :: y :: rest).
Proof.
  intros Hnext H. unfold itemTail in H. cbn [exits Plus str seqs map] in H.
  destruct H as (s2 & (s3 & (d & -> & Hd) & (q & -> & Hq)) & (-> & s4 & Hl)).
  exists d, q. split; [reflexivity|]. split; [constructor; assumption|].
  destruct Hl as [(s5 & (c & -> & Hc) & Hn)|[(s5 & (c & -> & Hc) & (c' & -> & Hc'))
                 |[_ ->]]].
  - right. apply N.eqb_eq in Hc. subst c.
    apply exits_minLen in Hn.
    destruct s5 as [|y rest]; [simpl in Hn; lia|]. eauto.
  - right. apply N.eqb_eq in Hc. subst c. eauto.
  - left. reflexivity.
Qed.

Lemma bulletRegex_item : isItemPattern bulletRegex.
Proof.
  intros s s' X.
  change bulletRegex
    with (Seq (Chr bulletMark)
              (Seq (Star true isSpace) (itemTail (Chr bulletMark)))) in X.
  apply exits_seq_tail in X as (w1 & s1 & -> & X).
  apply exits_seq_tail in X as (w2 & s2 & -> & X).
  apply itemTail_exits in X as (d & q & -> & Hdot & Hend); [|simpl; lia].
  exists (w1 ++ w2), d, q. rewrite <- app_assoc. auto.
Qed.

Lemma numberedRegex_item : isItemPattern numberedRegex.
Proof.
  intros s s' X.
  change numberedRegex
    with (Seq (Plus true isDigit)
              (Seq (Chr dotOrParen)
                   (Seq (Star true isSpace)
                        (itemTail (Seq (Plus true isDigit) (Chr dotOrParen))))))
    in X.
  apply exits_seq_tail in X as (w1 & s1 & -> & X).
  apply exits_seq_tail in X as (w2 & s2 & -> & X).
  apply exits_seq_tail in X as (w3 & s3 & -> & X).
  apply itemTail_exits in X as (d & q & -> & Hdot & Hend); [|simpl; lia].
  exists (w1 ++ w2 ++ w3), d, q. rewrite <- !app_assoc. auto.
Qed.

(** A line break that something follows is not the last character. *)
Lemma inner_line_break pre line : forall front y rest,
  ~ In LF line ->
  pre ++ line ++ [LF] = front ++ LF :: y :: rest ->
  length front < length pre.
Proof.
  induction pre as [|p pre IH]; intros front y rest Hline E.
  - exfalso. cbn [app] in E.
    destruct (@exists_last _ (y :: rest)) as (r' & z & Er); [discriminate|].
    rewrite Er in E.
    replace (front ++ LF :: r' ++ [z]) with ((front ++ LF :: r') ++ [z]) in E
      by (rewrite <- app_assoc; reflexivity).
    apply app_inj_tail in E as [El _]. apply Hline. rewrite El.
    apply in_or_app. right. left. reflexivity.
  - destruct front as [|f front]; [simpl; lia|].
    cbn [app] in E. injection E as _ E. apply IH in E; [simpl; lia | exact Hline].
Qed.

(** Where a match of an item pattern ends: after one or more characters
    of a line, before the end of the text or an inner line break. *)
Lemma item_match_end re text j m :
  isItemPattern re ->
  j <= length text ->
  matchAt re text j = Some m ->
  exists front d q rest,
    text = front ++ d :: q ++ rest /\
    Forall (fun c => dot c = true) (d :: q) /\
    (rest = [] \/ exists y rest', rest = LF :: y :: rest') /\
    endIndex m = length front + length (d :: q).
Proof.
  intros Hre Hj H. unfold matchAt, matchHere in H.
  apply run_exits in H as (s' & cap' & X & Hm).
  apply Hre in X as (w & d & q & Es & Hdot & Hend).
  exists (firstn j text ++ w), d, q, s'.
  split; [|split; [exact Hdot | split; [exact Hend|]]].
  - rewrite <- (firstn_skipn j text) at 1. rewrite Es, <- app_assoc.
    reflexivity.
  - injection Hm as <-. cbn [endIndex]. rewrite Es.
    rewrite !length_app, length_firstn. cbn [length]. rewrite length_app. lia.
Qed.

(** The last line of a text that ends in a single line break is out of
    reach: every match of an item pattern ends before the line starts. *)
Lemma last_line_out_of_reach re pre line j m :
  isItemPattern re ->
  ~ In LF line ->
  j <= length (pre ++ line ++ [LF]) ->
  matchAt re (pre ++ line ++ [LF]) j = Some m ->
  endIndex m < length pre.
Proof.
  intros Hre Hline Hj H.
  apply item_match_end in H as (front & d & q & rest & E & Hdot & Hend & ->);
    [|exact Hre|exact Hj].
  destruct Hend as [->|(y & rest' & ->)].
  - exfalso. rewrite app_nil_r in E.
    destruct (@exists_last _ (d :: q)) as (q' & z & Eq); [discriminate|].
    rewrite Eq in E, Hdot. rewrite !app_assoc in E.
    apply app_inj_tail in E as [_ Hz]. subst z.
    apply Forall_app in Hdot as [_ Hz]. inversion Hz as [|? ? Hlf _].
    discriminate Hlf.
  - replace (front ++ d :: q ++ LF :: y :: rest')
      with ((front ++ d :: q) ++ LF :: y :: rest') in E
      by (rewrite <- app_assoc; reflexivity).
    apply inner_line_break in E; [|exact Hline].
    rewrite length_app in E. exact E.
Qed.

Lemma exec_last_line re line :
  isItemPattern re -> ~ In LF line -> exec re (line ++ [LF]) 0 = None.
Proof.
  intros Hre Hline.
  destruct (exec re (line ++ [LF]) 0) as [m|] eqn:E; [|reflexivity].
  exfalso. apply exec_some in E as (_ & Hl & Hm & _).
  apply (@last_line_out_of_reach re [] line) in Hm; try assumption.
  simpl in Hm. lia.
Qed.

Lemma split_last_line line :
  ~ In LF line -> split LF (line ++ [LF]) = [line; []].
Proof.
  induction line as [|c line IH]; intros Hline; [reflexivity|].
  cbn [app split].
  destruct (N.eqb c LF) eqn:E.
  - apply N.eqb_eq in E. subst c. exfalso. apply Hline. left. reflexivity.
  - rewrite IH; [reflexivity|]. intros Hin. apply Hline. right. exact Hin.
Qed.

(** A section text that is one line and its line break comes back as
    that line, trimmed and with its marker: no pattern matches before a
    single closing line break, and the line fallback takes over. *)
Lemma extractBullets_last_line line :
  ~ In LF line ->
  extractBullets (line ++ [LF]) = Ok (filter nonEmpty [trim line]).
Proof.
  intros Hline. unfold extractBullets. cbv zeta.
  cbn [execLoop].
  rewrite (@exec_last_line bulletRegex line bulletRegex_item Hline).
  cbn [bind].
  rewrite (@exec_last_line numberedRegex line numberedRegex_item Hline).
  cbn [bind length Nat.eqb app].
  rewrite (@split_last_line line Hline). cbn [map filter].
  change (nonEmpty (trim [])) with false. cbn [filter].
  destruct (nonEmpty (trim line)) eqn:E; cbn [filter]; rewrite ?E;
    reflexivity.
Qed.

(** In a section text that ends in a single line break, whatever its
    other lines, every bullet the two loops push was matched before the
    last line began. *)
Lemma allMatches_before_last_line re pre line :
  isItemPattern re ->
  ~ In LF line ->
  forall i ms,
    allMatches re (pre ++ line ++ [LF]) i ms ->
    Forall (fun m => endIndex m < length pre) ms.
Proof.
  intros Hre Hline i ms H.
  induction H as [i Hn | i m ms Hi Hm Hn Hrest IH]; constructor.
  - apply (@last_line_out_of_reach re pre line (index m)); try assumption.
    lia.
  - exact IH.
Qed.

Lemma slice0_length (A : Type) n (l : list A) : length (slice0 n l) <= n.
Proof. unfold slice0. apply firstn_le_length. Qed.

(** C3: the Section Parser is total with bounded output.  For every input
    string [parseSummary] returns a [SummarySections] value with at most
    3 themes, at most 3 critical issues and at most 2 recommendations;
    its headline is a string, the placeholder 'No headline available'
    when no headline pattern matches and the trimmed capture of the
    pattern that matched otherwise, and a section whose patterns do not
    match comes out as the empty list. *)
Theorem parseSummary_total_bounded :
  forall summaryText,
  exists r,
    parseSummary summaryText = Ok r /\
    length (themes r) <= 3 /\
    length (criticalIssues r) <= 3 /\
    length (recommendation r) <= 2 /\
    (headlineMatch summaryText = None -> headline r = noHeadline) /\
    (themesMatch summaryText = None -> themes r = []) /\
    (issuesMatch summaryText = None -> criticalIssues r = []) /\
    (recMatch summaryText = None -> recommendation r = []) /\
    (forall m, headlineMatch summaryText = Some m ->
       exists g, m1 m = Some g /\ headline r = trim g).
Proof.
  intros s.
  destruct (parseSummary_spec s) as (h & t & i & c & Eh & Et & Ei & Ec & E).
  exists (mkSections h (slice0 3 t) (slice0 3 i) (slice0 2 c)).
  cbn [headline themes criticalIssues recommendation].
  split; [exact E|].
  do 3 (split; [apply slice0_length|]).
  split; [|split; [|split; [|split]]].
  - intros Hn. rewrite Hn in Eh. simpl in Eh. congruence.
  - intros Hn. rewrite Hn in Et. cbv in Et. injection Et as <-. reflexivity.
  - intros Hn. rewrite Hn in Ei. cbv in Ei. injection Ei as <-. reflexivity.
  - intros Hn. rewrite Hn in Ec. cbv in Ec. injection Ec as <-. reflexivity.
  - intros m Hm. rewrite Hm in Eh.
    destruct (headlineMatch_group1 _ Hm) as (g & Eg). exists g.
    split; [exact Eg|]. unfold headlineOf, group1 in Eh. rewrite Eg in Eh.
    simpl in Eh. congruence.
Qed.

(** The theorem at the empty summary, where no pattern matches. *)
Lemma parseSummary_total_bounded_witness :
  exists r,
    parseSummary [] = Ok r /\
    headline r = noHeadline /\
    themes r = [] /\ criticalIssues r = [] /\ recommendation r = [].
Proof.
  destruct (parseSummary_total_bounded [])
    as (r & E & _ & _ & _ & Hh & Ht & Hi & Hc & _).
  exists r. split; [exact E|].
  split; [apply Hh; reflexivity|].
  split; [apply Ht; reflexivity|].
  split; [apply Hi; reflexivity | apply Hc; reflexivity].
Defined.

(** The empty summary: placeholder headline and three empty sections. *)
Example parseSummary_empty :
  parseSummary [] = Ok (mkSections (js "No headline available") [] [] []).
Proof. vm_compute. reflexivity. Qed.

(** C10: the numbered pattern is not anchored to a line start, so the
    one line "• fix 1. now" is matched by the bullet pattern (from its
    marker) and by the numbered pattern (from its "1."), and
    [extractBullets] returns the two bullets "fix 1. now" and "now", the
    second a proper suffix of the first. *)
Theorem extractBullets_line_matched_twice :
  let text := js "• fix 1. now" in
  extractBullets text = Ok [js "fix 1. now"; js "now"] /\
  option_map index (exec bulletRegex text 0) = Some 0 /\
  option_map index (exec numberedRegex text 0) = Some 6 /\
  split LF text = [text] /\
  js "fix 1. now" = js "fix 1. " ++ js "now".
Proof. vm_compute. repeat split; reflexivity. Qed.

(** C4, evaluated: on the canonical template around H, a, b, c, d the
    parser keeps the headline and the recommendation, loses the second
    theme and returns the critical issue with its bullet marker. *)
Theorem parseSummary_canonical_template :
  parseSummary (canonical (js "H") (js "a") (js "b") (js "c") (js "d")) =
  Ok (mkSections (js "H") [js "a"] [js "• c"] [js "d"]).
Proof. vm_compute. reflexivity. Qed.

(** Where the round trip is lost: the themes section is captured with its
    closing line break, and the bullet pattern's lookahead accepts a
    bullet only before a marker line, a blank line or the end of text. *)
Example canonical_themes_text :
  option_map m1
    (themesMatch (canonical (js "H") (js "a") (js "b") (js "c") (js "d")))
  = Some (Some (js "• a" ++ [LF] ++ js "• b" ++ [LF])) /\
  extractBullets (js "• a" ++ [LF] ++ js "• b" ++ [LF]) = Ok [js "a"] /\
  extractBullets (js "• a" ++ [LF] ++ js "• b") = Ok [js "a"; js "b"] /\
  extractBullets (js "• c" ++ [LF]) = Ok [js "• c"] /\
  extractBullets (js "• c") = Ok [js "c"].
Proof. vm_compute. repeat split; reflexivity. Qed.

(** An answer laid out as the prompt asks, with blank lines after the
    headers: each section but the last loses its last bullet. *)
Example parseSummary_prompt_layout :
  parseSummary
    (js "**Summary**

Deploys fail silently.

**Key Themes**

- builds
- logs
- limits

**Critical Issues**

- rollbacks
- quotas

**Recommendation**

- fix deploys
- defer quotas")
  = Ok (mkSections (js "Deploys fail silently.")
                   [js "builds"; js "logs"]
                   [js "rollbacks"]
                   [js "fix deploys"; js "defer quotas"]).
Proof. vm_compute. reflexivity. Qed.

(** The earlier parser does not know the headers of the canonical
    template; it finds no headline and no bullets in it. *)
Example legacy_parseSummary_canonical :
  Legacy.parseSummary
    (canonical (js "H") (js "a") (js "b") (js "c") (js "d"))
  = Ok (mkSections noHeadline [] [] []).
Proof. vm_compute. reflexivity. Qed.

(** C9: [extractBullets] returns the bullet-pattern matches in source
    order followed by the numbered-pattern matches in source order,
    whatever their order in the text, without any cap (only the entries
    that are empty after trimming are dropped, and the line fallback
    applies when neither pattern matched); the ceilings 3, 3 and 2 are
    applied by [parseSummary] to the complete lists. *)
Theorem extractBullets_bullets_then_numbered :
  (forall text,
    exists bm nm,
      allMatches bulletRegex text 0 bm /\
      allMatches numberedRegex text 0 nm /\
      StronglySorted lt (map index bm) /\
      StronglySorted lt (map index nm) /\
      extractBullets text =
        Ok (filter nonEmpty
              (match matched bm nm with
               | [] => fallbackLines text
               | _ :: _ => map bulletOf bm ++ map bulletOf nm
               end))) /\
  (forall summaryText,
    exists h t i c,
      sectionBullets (themesMatch summaryText) = Ok t /\
      sectionBullets (issuesMatch summaryText) = Ok i /\
      sectionBullets (recMatch summaryText) = Ok c /\
      parseSummary summaryText =
        Ok (mkSections h (firstn 3 t) (firstn 3 i) (firstn 2 c))).
Proof.
  split.
  - intros text.
    destruct (extractBullets_spec text) as (bm & nm & Hb & Hn & E).
    exists bm, nm.
    destruct bulletRegex_shape as [Bmin _].
    destruct numberedRegex_shape as [Nmin _].
    pose proof (allMatches_sorted Bmin Hb) as [_ Sb].
    pose proof (allMatches_sorted Nmin Hn) as [_ Sn].
    repeat (split; [assumption|]). exact E.
  - intros s.
    destruct (parseSummary_spec s) as (h & t & i & c & _ & Et & Ei & Ec & E).
    exists h, t, i, c. repeat (split; [assumption|]). exact E.
Qed.

(** A numbered item before a bulleted one comes out after it. *)
Example extractBullets_order_quirk :
  extractBullets (js "1. one" ++ [LF; LF] ++ js "- two")
  = Ok [js "two"; js "one"].
Proof. vm_compute. reflexivity. Qed.

(** Five bullets are all extracted; the parser keeps the first three. *)
Example extractBullets_uncapped :
  let section := js "- a" ++ [LF] ++ js "- b" ++ [LF] ++ js "- c" ++ [LF]
                 ++ js "- d" ++ [LF] ++ js "- e" in
  extractBullets section = Ok [js "a"; js "b"; js "c"; js "d"; js "e"] /\
  option_map themes (match parseSummary (js "**Key Themes**" ++ [LF] ++ section)
                     with Ok r => Some r | _ => None end)
  = Some [js "a"; js "b"; js "c"].
Proof. vm_compute. split; reflexivity. Qed.

(** C9, a blank match: in the text "1. x", blank line, "- " the bullet
    pattern matches the last line with a capture that is blank once
    trimmed, the numbered pattern matches the first with "x"; the
    closing filter drops the blank entry, so what is returned is not
    all the matches. *)
Lemma blank_match_is_dropped :
  let text := js "1. x" ++ [LF; LF] ++ js "- " in
  exists bm nm,
    allMatches bulletRegex text 0 bm /\
    allMatches numberedRegex text 0 nm /\
    map bulletOf bm = [[]] /\
    map bulletOf nm = [js "x"] /\
    extractBullets text = Ok [js "x"] /\
    extractBullets text <> Ok (map bulletOf bm ++ map bulletOf nm).
Proof.
  intros text.
  destruct bulletRegex_shape as [Bmin Bcap].
  destruct numberedRegex_shape as [Nmin Ncap].
  destruct (@execLoop_spec bulletRegex text Bmin Bcap (S (length text)) 0 [])
    as (bm & Hbm & Eb); [simpl; lia|].
  destruct (@execLoop_spec numberedRegex text Nmin Ncap (S (length text)) 0 [])
    as (nm & Hnm & En); [simpl; lia|].
  assert (execLoop (S (length text)) bulletRegex text 0 [] = Ok [[]]) as Cb
    by (vm_compute; reflexivity).
  assert (execLoop (S (length text)) numberedRegex text 0 [] = Ok [js "x"])
    as Cn by (vm_compute; reflexivity).
  rewrite Cb in Eb. rewrite Cn in En.
  injection Eb as Eb. injection En as En. cbn [app] in Eb, En.
  exists bm, nm. rewrite <- Eb, <- En.
  split; [exact Hbm|]. split; [exact Hnm|].
  split; [reflexivity|]. split; [reflexivity|].
  split; [vm_compute; reflexivity | vm_compute; discriminate].
Qed.

(** ** JSON.parse *)

Lemma skipSpace_length s : length (skipSpace s) <= length s.
Proof.
  induction s as [|c s IH]; simpl; [lia|].
  destruct (isJsonSpace c); simpl; lia.
Qed.

Lemma expect_length c s r : expect c s = Some r -> length s = S (length r).
Proof.
  destruct s as [|c' s]; simpl; [discriminate|].
  destruct (N.eqb c' c); [|discriminate]. intros [= ->]. reflexivity.
Qed.

Lemma parseChars_length : forall s acc x r,
  parseChars s acc = Some (x, r) -> length r < length s.
Proof.
  fix IH 1. intros s acc x r H. destruct s as [|c s]; simpl in H;
    [discriminate|].
  destruct (N.eqb c 34).
  { injection H as _ ->. simpl. lia. }
  destruct (N.eqb c 92).
  - destruct s as [|e s1]; [discriminate|].
    repeat match type of H with
           | (if ?b then _ else _) = _ =>
             destruct b;
             [first [ apply IH in H; simpl; lia | idtac ] |]
           end; try discriminate.
    destruct s1 as [|h1 [|h2 [|h3 [|h4 r2]]]]; try discriminate.
    destruct (hex4 h1 h2 h3 h4); [|discriminate].
    apply IH in H. simpl. lia.
  - destruct (c <? 32)%N; [discriminate|].
    apply IH in H. simpl. lia.
Qed.

Lemma takeDigits_length : forall s ds r,
  takeDigits s = (ds, r) -> length ds + length r = length s.
Proof.
  induction s as [|c s IH]; intros ds r H; simpl in H.
  - injection H as <- <-. reflexivity.
  - destruct (isDigit c).
    + destruct (takeDigits s) as [ds' r'] eqn:E. injection H as <- <-.
      specialize (IH _ _ eq_refl). simpl. lia.
    + injection H as <- <-. reflexivity.
Qed.

Lemma parseNumber_length s n r :
  parseNumber s = Some (n, r) -> length r < length s.
Proof.
  unfold parseNumber.
  set (sign := match s with
               | c :: r0 => if N.eqb c 45 then (true, r0) else (false, s)
               | [] => (false, s)
               end).
  assert (length (snd sign) <= length s) as Hs.
  { subst sign. destruct s as [|c s0]; simpl; [lia|].
    destruct (N.eqb c 45); simpl; lia. }
  destruct sign as [neg s1]. simpl in Hs.
  destruct (takeDigits s1) as [ip s2] eqn:E1.
  apply takeDigits_length in E1.
  destruct ip as [|d more]; [discriminate|]. simpl in E1.
  destruct (N.eqb d 0 && (0 <? length more)); [discriminate|].
  intros H.
  match type of H with
  | match ?f with _ => _ end = _ => destruct f as [[fp s3]|] eqn:Ef
  end; [|discriminate].
  assert (length s3 <= length s2) as H3.
  { destruct s2 as [|c r0]; [injection Ef as _ <-; simpl; lia|].
    destruct (N.eqb c 46).
    - destruct (takeDigits r0) as [fp' r'] eqn:E2.
      apply takeDigits_length in E2.
      destruct fp'; [discriminate|]. injection Ef as _ <-. simpl in *. lia.
    - injection Ef as _ <-. lia. }
  match type of H with
  | match ?f with _ => _ end = _ => destruct f as [[ex s4]|] eqn:Ee
  end; [|discriminate].
  injection H as _ <-.
  assert (length s4 <= length s3) as H4.
  { destruct s3 as [|c r0]; [injection Ee as _ <-; simpl; lia|].
    destruct (N.eqb c 101 || N.eqb c 69).
    - match type of Ee with
      | (let (_, _) := ?sg in _) = _ =>
        assert (length (snd sg) <= length r0) as Hg;
          [|destruct sg as [minus r1]]
      end.
      { destruct r0 as [|g r']; simpl; [lia|].
        destruct (N.eqb g 45); simpl; [lia|].
        destruct (N.eqb g 43); simpl; lia. }
      simpl in Hg.
      destruct (takeDigits r1) as [ed r2] eqn:E3.
      apply takeDigits_length in E3.
      destruct ed; [discriminate|]. injection Ee as _ <-. simpl in *. lia.
    - injection Ee as _ <-. lia. }
  lia.
Qed.

(** With fuel above twice the length of the text the parser does not
    run out, what it leaves is shorter than what it was given, and the
    members of an object make an object. *)
Lemma parse_fuel : forall fuel,
  (forall s, 2 * length s < fuel ->
     parseValue fuel s <> OutOfFuel /\
     forall v r, parseValue fuel s = Ok (v, r) -> length r < length s) /\
  (forall s props, 2 * length s + 1 < fuel ->
     parseMembers fuel s props <> OutOfFuel /\
     forall v r, parseMembers fuel s props = Ok (v, r) ->
       length r < length s /\ exists p, v = VObj p) /\
  (forall s elems, 2 * length s + 1 < fuel ->
     parseElements fuel s elems <> OutOfFuel /\
     forall v r, parseElements fuel s elems = Ok (v, r) ->
       length r < length s).
Proof.
  induction fuel as [|fuel (IHv & IHm & IHe)].
  { repeat split; intros; lia. }
  split; [|split].
  - intros s Hs. cbn [parseValue].
    pose proof (skipSpace_length s) as Hsk.
    destruct (skipSpace s) as [|c r] eqn:Es.
    { split; [discriminate | intros; discriminate]. }
    simpl in Hsk.
    destruct (N.eqb c 123).
    { pose proof (skipSpace_length r) as Hr.
      destruct (skipSpace r) as [|c1 r1] eqn:Er.
      { split; [discriminate | intros; discriminate]. }
      simpl in Hr.
      destruct (N.eqb c1 125).
      { split; [discriminate|]. intros v r0 [= <- <-]. lia. }
      destruct (IHm (c1 :: r1) []) as [Hn Hl]; [simpl; lia|].
      split; [exact Hn|]. intros v r0 H. apply Hl in H as [H _].
      simpl in H. lia. }
    destruct (N.eqb c 91).
    { pose proof (skipSpace_length r) as Hr.
      destruct (skipSpace r) as [|c1 r1] eqn:Er.
      { split; [discriminate | intros; discriminate]. }
      simpl in Hr.
      destruct (N.eqb c1 93).
      { split; [discriminate|]. intros v r0 [= <- <-]. lia. }
      destruct (IHe (c1 :: r1) []) as [Hn Hl]; [simpl; lia|].
      split; [exact Hn|]. intros v r0 H. apply Hl in H.
      simpl in H. lia. }
    destruct (N.eqb c 34).
    { destruct (parseChars r []) as [[x r1]|] eqn:Ec.
      - apply parseChars_length in Ec.
        split; [discriminate|]. intros v r0 [= <- <-]. lia.
      - split; [discriminate | intros; discriminate]. }
    destruct (startsWith (js "true") (c :: r)) eqn:Et.
    { pose proof (length_skipn 4 (c :: r)) as Hskip.
      set (after := skipn 4 (c :: r)) in *. simpl length in Hskip.
      split; [discriminate|]. intros v r0 [= <- <-]. lia. }
    destruct (startsWith (js "false") (c :: r)) eqn:Ef.
    { pose proof (length_skipn 5 (c :: r)) as Hskip.
      set (after := skipn 5 (c :: r)) in *. simpl length in Hskip.
      split; [discriminate|]. intros v r0 [= <- <-]. lia. }
    destruct (startsWith (js "null") (c :: r)) eqn:En.
    { pose proof (length_skipn 4 (c :: r)) as Hskip.
      set (after := skipn 4 (c :: r)) in *. simpl length in Hskip.
      split; [discriminate|]. intros v r0 [= <- <-]. lia. }
    destruct (parseNumber (c :: r)) as [[n r1]|] eqn:Ep.
    + apply parseNumber_length in Ep. simpl in Ep.
      split; [discriminate|]. intros v r0 [= <- <-]. lia.
    + split; [discriminate | intros; discriminate].
  - intros s props Hs. cbn [parseMembers].
    destruct (expect 34 s) as [r|] eqn:E1.
    2: { split; [discriminate | intros; discriminate]. }
    apply expect_length in E1.
    destruct (parseChars r []) as [[key r1]|] eqn:E2.
    2: { split; [discriminate | intros; discriminate]. }
    apply parseChars_length in E2.
    pose proof (skipSpace_length r1) as Hk.
    destruct (expect 58 (skipSpace r1)) as [r2|] eqn:E3.
    2: { split; [discriminate | intros; discriminate]. }
    apply expect_length in E3.
    destruct (IHv r2) as [Hn Hl]; [lia|].
    destruct (parseValue fuel r2) as [[v r3]| |] eqn:E4.
    3: { contradiction. }
    2: { split; [discriminate | intros; discriminate]. }
    specialize (Hl _ _ eq_refl).
    pose proof (skipSpace_length r3) as Hk3.
    destruct (skipSpace r3) as [|c r4] eqn:E5.
    { split; [discriminate | intros; discriminate]. }
    simpl in Hk3.
    destruct (N.eqb c 44).
    { pose proof (skipSpace_length r4) as Hk4.
      destruct (IHm (skipSpace r4) (defineProp key v props)) as [Hn' Hl'];
        [lia|].
      split; [exact Hn'|]. intros v0 r0 H. apply Hl' in H as [H Ho].
      split; [lia | exact Ho]. }
    destruct (N.eqb c 125).
    { split; [discriminate|]. intros v0 r0 [= <- <-].
      split; [lia | eauto]. }
    split; [discriminate | intros; discriminate].
  - intros s elems Hs. cbn [parseElements].
    destruct (IHv s) as [Hn Hl]; [lia|].
    destruct (parseValue fuel s) as [[v r1]| |] eqn:E1.
    3: { contradiction. }
    2: { split; [discriminate | intros; discriminate]. }
    specialize (Hl _ _ eq_refl).
    pose proof (skipSpace_length r1) as Hk.
    destruct (skipSpace r1) as [|c r2] eqn:E2.
    { split; [discriminate | intros; discriminate]. }
    simpl in Hk.
    destruct (N.eqb c 44).
    { destruct (IHe r2 (v :: elems)) as [Hn' Hl']; [lia|].
      split; [exact Hn'|]. intros v0 r0 H. apply Hl' in H. lia. }
    destruct (N.eqb c 93).
    { split; [discriminate|]. intros v0 r0 [= <- <-]. lia. }
    split; [discriminate | intros; discriminate].
Qed.

(** [JSON.parse] returns a value or throws. *)
Lemma JSON_parse_terminates text : JSON_parse text <> OutOfFuel.
Proof.
  unfold JSON_parse.
  destruct (parse_fuel (S (2 * length text))) as (Hv & _).
  destruct (Hv text (Nat.lt_succ_diag_r _)) as [Hn _].
  destruct (parseValue (S (2 * length text)) text) as [[v r]| |];
    [| discriminate | contradiction].
  destruct (skipSpace r); discriminate.
Qed.

(** Text that opens with a brace parses to an object, if it parses. *)
Lemma JSON_parse_brace rest v :
  JSON_parse (123%N :: rest) = Ok v -> exists props, v = VObj props.
Proof.
  unfold JSON_parse.
  remember (2 * length (123%N :: rest)) as n eqn:En.
  destruct (parseValue (S n) (123%N :: rest)) as [[x r]| |] eqn:E;
    try discriminate.
  intros H. assert (x = v) as <-.
  { destruct (skipSpace r); [congruence | discriminate]. }
  clear H. cbn [parseValue] in E.
  change (skipSpace (123%N :: rest)) with (123%N :: rest) in E.
  cbn [N.eqb Pos.eqb] in E.
  pose proof (skipSpace_length rest) as Hk.
  destruct (skipSpace rest) as [|c1 r1]; [discriminate|].
  destruct (N.eqb c1 125).
  - injection E as <- _. eauto.
  - destruct (parse_fuel n) as (_ & Hm & _).
    destruct (Hm (c1 :: r1) []) as [_ Ho].
    { subst n. simpl in *. lia. }
    apply Ho in E as [_ Ho']. exact Ho'.
Qed.

(** ** classifyFeedback *)

Lemma strictEqStr_true v s : strictEqStr v s = true <-> v = VStr s.
Proof.
  destruct v; simpl; split; try discriminate; intros H.
  - apply jsstring_eqb_eq in H. congruence.
  - injection H as ->. apply jsstring_eqb_eq. reflexivity.
Qed.

Lemma arrayIncludes_In l v : arrayIncludes l v = true <-> In v (map VStr l).
Proof.
  unfold arrayIncludes. rewrite existsb_exists, in_map_iff. split.
  - intros (s & Hs & E). apply strictEqStr_true in E. eauto.
  - intros (s & E & Hs). exists s. split; [exact Hs|].
    apply strictEqStr_true. congruence.
Qed.

Lemma validSentiment_iff v :
  validSentiment v <-> arrayIncludes sentiments v = true.
Proof.
  rewrite arrayIncludes_In. unfold validSentiment, sentiments. simpl.
  intuition congruence.
Qed.

Lemma validUrgency_iff v :
  validUrgency v <-> arrayIncludes urgencies v = true.
Proof.
  rewrite arrayIncludes_In. unfold validUrgency, urgencies. simpl.
  intuition congruence.
Qed.

Lemma getProp_object props key : getProp (VObj props) key = Ok (propOf props key).
Proof. unfold getProp, propOf. destruct (lookup key props); reflexivity. Qed.

(** What "Validate and normalize" returns for an object. *)
Lemma normalize_object props :
  normalize (VObj props) =
  Ok (mkClassification
        (if arrayIncludes sentiments (propOf props (js "sentiment"))
         then propOf props (js "sentiment") else VStr (js "neutral"))
        (if arrayIncludes urgencies (propOf props (js "urgency"))
         then propOf props (js "urgency") else VStr (js "low"))).
Proof. unfold normalize. rewrite !getProp_object. reflexivity. Qed.

Lemma normalize_populated props :
  exists r, normalize (VObj props) = Ok r /\ populated r.
Proof.
  rewrite normalize_object. eexists. split; [reflexivity|].
  split; cbn [sentiment urgency].
  - destruct (arrayIncludes sentiments (propOf props (js "sentiment"))) eqn:E.
    + apply validSentiment_iff. exact E.
    + right. right. reflexivity.
  - destruct (arrayIncludes urgencies (propOf props (js "urgency"))) eqn:E.
    + apply validUrgency_iff. exact E.
    + right. right. reflexivity.
Qed.

(** A match of the brace pattern opens with a brace. *)
Lemma jsonRegex_match t m :
  smatch t jsonRegex = Some m -> exists rest, m0 m = 123%N :: rest.
Proof.
  unfold smatch. intros H.
  apply scan_some in H as (d & _ & H & _).
  pose proof (@matchHere_spec _ _ _ _ H) as (_ & He & H0 & _).
  change (minLen jsonRegex) with 2 in He.
  unfold matchHere, jsonRegex in H. cbn [seqs run] in H.
  destruct (skipn d t) as [|c s']; [discriminate|].
  destruct (lit 123 c) eqn:Ec; [|discriminate].
  apply N.eqb_eq in Ec. subst c. rewrite H0.
  destruct (endIndex m - (0 + d)) as [|n] eqn:En; [lia|].
  simpl. eauto.
Qed.

Lemma extractJson_cases v :
  (exists props, extractJson v = Ok (VObj props)) \/
  (exists e, extractJson v = Throw e).
Proof.
  destruct v; simpl; try (right; eexists; reflexivity).
  destruct (smatch s jsonRegex) as [m|] eqn:E;
    [|right; eexists; reflexivity].
  destruct (@jsonRegex_match _ _ E) as (rest & Hm). rewrite Hm.
  pose proof (JSON_parse_terminates (123%N :: rest)) as Ht.
  destruct (JSON_parse (123%N :: rest)) as [x|e|] eqn:Ep.
  - apply JSON_parse_brace in Ep as (props & ->). left. eauto.
  - right. eauto.
  - contradiction.
Qed.

(** The candidate that reaches the normalization: the parsed object, or
    the keyword classification when the extraction threw. *)
Lemma classification_cases text responseText :
  exists props,
    tryCatch (extractJson responseText)
             (fun _ => Ok (fallbackClassification text)) = Ok (VObj props) /\
    (extractJson responseText = Ok (VObj props) \/
     (exists e, extractJson responseText = Throw e) /\
     VObj props = fallbackClassification text).
Proof.
  destruct (extractJson_cases responseText) as [(props & E)|(e & E)];
    rewrite E; simpl.
  - exists props. auto.
  - eexists. split; [reflexivity|]. right. split; [eauto | reflexivity].
Qed.

Lemma classifyResponse_nullish text response :
  nullish response = true -> classifyResponse text response = Throw TypeError.
Proof. destruct response; simpl; try discriminate; reflexivity. Qed.

Lemma getProp_defined v key :
  nullish v = false -> exists x, getProp v key = Ok x.
Proof.
  destruct v; simpl; try discriminate; intros _; eauto.
  destruct (lookup key props); eauto.
Qed.

Lemma classifyResponse_returns text response :
  nullish response = false ->
  exists props r,
    classifyResponse text response = Ok r /\
    normalize (VObj props) = Ok r /\
    populated r.
Proof.
  intros Hn. unfold classifyResponse.
  destruct (@getProp_defined response (js "response") Hn) as (x & ->). simpl bind.
  destruct (classification_cases text (vor x (JSON_stringify response)))
    as (props & -> & _).
  simpl bind.
  destruct (normalize_populated props) as (r & E & P).
  exists props, r. auto.
Qed.

Lemma classifyFeedback_unfold text env w :
  classifyFeedback text env w =
  match AI_run env (length (requests w)) (classifyRequest text) with
  | Returns v => (classifyResponse text v, called w (classifyRequest text))
  | Fails msg => (Throw (Unavailable msg), called w (classifyRequest text))
  end.
Proof.
  unfold classifyFeedback, bindA, AI_call, lift, called.
  destruct (AI_run env (length (requests w)) (classifyRequest text));
    [|reflexivity].
  destruct (classifyResponse text v); reflexivity.
Qed.

Lemma classifyFeedback_populated text env w r w' :
  classifyFeedback text env w = (Ok r, w') -> populated r.
Proof.
  rewrite classifyFeedback_unfold.
  destruct (AI_run env (length (requests w)) (classifyRequest text))
    as [v|msg]; [|discriminate].
  intros [= E _]. destruct (nullish v) eqn:Hn.
  - rewrite classifyResponse_nullish in E by exact Hn. discriminate.
  - destruct (@classifyResponse_returns text _ Hn) as (props & r' & E' & _ & P).
    congruence.
Qed.

(** The classifier's result is [normalize] of the candidate: the
    object parsed from the answer, or the keyword classification of the
    text when the extraction throws. *)
Lemma classifyResponse_candidate text response :
  nullish response = false ->
  exists candidate,
    (extractJson (responseTextOf response) = Ok (VObj candidate) \/
     (exists e, extractJson (responseTextOf response) = Throw e) /\
     VObj candidate = fallbackClassification text) /\
    classifyResponse text response = normalize (VObj candidate).
Proof.
  intros Hn. unfold classifyResponse, responseTextOf.
  destruct (@getProp_defined response (js "response") Hn) as (x & ->).
  simpl bind.
  destruct (classification_cases text (vor x (JSON_stringify response)))
    as (props & E & Hc).
  exists props. split; [exact Hc|]. rewrite E. reflexivity.
Qed.

Lemma normalize_coerces candidate :
  exists r,
    normalize (VObj candidate) = Ok r /\
    (validSentiment (propOf candidate (js "sentiment")) ->
       sentiment r = propOf candidate (js "sentiment")) /\
    (~ validSentiment (propOf candidate (js "sentiment")) ->
       sentiment r = VStr (js "neutral")) /\
    (validUrgency (propOf candidate (js "urgency")) ->
       urgency r = propOf candidate (js "urgency")) /\
    (~ validUrgency (propOf candidate (js "urgency")) ->
       urgency r = VStr (js "low")).
Proof.
  rewrite normalize_object. eexists.
  split; [reflexivity|]. cbn [sentiment urgency].
  split; [|split; [|split]]; intros H.
  - apply validSentiment_iff in H. rewrite H. reflexivity.
  - destruct (arrayIncludes sentiments (propOf candidate (js "sentiment")))
      eqn:E; [|reflexivity].
    apply validSentiment_iff in E. contradiction.
  - apply validUrgency_iff in H. rewrite H. reflexivity.
  - destruct (arrayIncludes urgencies (propOf candidate (js "urgency")))
      eqn:E; [|reflexivity].
    apply validUrgency_iff in E. contradiction.
Qed.

(** C1: whatever the text and whatever the oracle returns, the result
    the classifier returns has its sentiment in positive, negative,
    neutral and its urgency in high, medium, low, and it does return
    one for every oracle response other than null and undefined.  That
    result is the coercion of the classifier's candidate, which is the
    object parsed from the answer or, when none can be extracted, the
    keyword classification of the text: the candidate's sentiment is
    kept when it is in the enumeration and becomes neutral otherwise,
    its urgency is kept or becomes low.  The last part states the same
    of the coercion on any candidate. *)
Theorem classifier_output_in_enums :
  forall text env w,
    (forall r w', classifyFeedback text env w = (Ok r, w') ->
       validSentiment (sentiment r) /\ validUrgency (urgency r)) /\
    (forall response,
       AI_run env (length (requests w)) (classifyRequest text)
         = Returns response ->
       nullish response = false ->
       exists r,
         fst (classifyFeedback text env w) = Ok r /\
         validSentiment (sentiment r) /\ validUrgency (urgency r)) /\
    (forall response,
       AI_run env (length (requests w)) (classifyRequest text)
         = Returns response ->
       nullish response = false ->
       exists candidate r,
         (extractJson (responseTextOf response) = Ok (VObj candidate) \/
          (exists e, extractJson (responseTextOf response) = Throw e) /\
          VObj candidate = fallbackClassification text) /\
         fst (classifyFeedback text env w) = Ok r /\
         normalize (VObj candidate) = Ok r /\
         (validSentiment (propOf candidate (js "sentiment")) ->
            sentiment r = propOf candidate (js "sentiment")) /\
         (~ validSentiment (propOf candidate (js "sentiment")) ->
            sentiment r = VStr (js "neutral")) /\
         (validUrgency (propOf candidate (js "urgency")) ->
            urgency r = propOf candidate (js "urgency")) /\
         (~ validUrgency (propOf candidate (js "urgency")) ->
            urgency r = VStr (js "low"))) /\
    (forall candidate,
       exists r,
         normalize (VObj candidate) = Ok r /\
         (validSentiment (propOf candidate (js "sentiment")) ->
            sentiment r = propOf candidate (js "sentiment")) /\
         (~ validSentiment (propOf candidate (js "sentiment")) ->
            sentiment r = VStr (js "neutral")) /\
         (validUrgency (propOf candidate (js "urgency")) ->
            urgency r = propOf candidate (js "urgency")) /\
         (~ validUrgency (propOf candidate (js "urgency")) ->
            urgency r = VStr (js "low"))).
Proof.
  intros text env w. split; [|split; [|split]].
  - intros r w' H. exact (@classifyFeedback_populated _ _ _ _ _ H).
  - intros response Hr Hn. rewrite classifyFeedback_unfold, Hr. simpl.
    destruct (@classifyResponse_returns text _ Hn) as (props & r & E & _ & P).
    exists r. split; [exact E | exact P].
  - intros response Hr Hn. rewrite classifyFeedback_unfold, Hr. cbn [fst].
    destruct (@classifyResponse_candidate text _ Hn) as (candidate & Hc & E).
    destruct (normalize_coerces candidate) as (r & En & Hco).
    exists candidate, r. split; [exact Hc|]. split; [congruence|].
    split; [exact En | exact Hco].
  - exact normalize_coerces.
Qed.

(** The theorem at an answer that is not JSON, where the candidate is
    the keyword classification, and at an answer whose JSON carries a
    sentiment outside the enumeration. *)
Lemma classifier_output_in_enums_witness :
  let plain := VObj [(js "response", VStr (js "not json"))] in
  let odd :=
    VObj [(js "response",
           VStr (js "{" ++ dq ++ js "sentiment" ++ dq ++ js ":" ++ dq
                 ++ js "angry" ++ dq ++ js "," ++ dq ++ js "urgency" ++ dq
                 ++ js ":" ++ dq ++ js "high" ++ dq ++ js "}"))] in
  (exists r,
     fst (classifyFeedback (js "This is urgent") (oracleSays plain)
            sampleWorld) = Ok r /\
     validSentiment (sentiment r) /\ validUrgency (urgency r)) /\
  fst (classifyFeedback (js "This is urgent") (oracleSays plain) sampleWorld)
  = Ok (mkClassification (VStr (js "neutral")) (VStr (js "high"))) /\
  fst (classifyFeedback (js "This is urgent") (oracleSays odd) sampleWorld)
  = Ok (mkClassification (VStr (js "neutral")) (VStr (js "high"))).
Proof.
  intros plain odd.
  destruct (classifier_output_in_enums (js "This is urgent")
              (oracleSays plain) sampleWorld) as (_ & H & _).
  split; [apply (H plain); reflexivity|].
  split; vm_compute; reflexivity.
Defined.

Lemma fallbackSentiment_valid text :
  arrayIncludes sentiments (VStr (fallbackSentiment text)) = true.
Proof.
  unfold fallbackSentiment.
  repeat match goal with
         | |- context [if ?b then _ else _] => destruct b
         end; reflexivity.
Qed.

Lemma fallbackUrgency_valid text :
  arrayIncludes urgencies (VStr (fallbackUrgency text)) = true.
Proof.
  unfold fallbackUrgency.
  repeat match goal with
         | |- context [if ?b then _ else _] => destruct b
         end; reflexivity.
Qed.

(** The keyword classification passes the normalization unchanged. *)
Lemma normalize_fallback text :
  normalize (fallbackClassification text) =
  Ok (mkClassification (VStr (fallbackSentiment text))
                       (VStr (fallbackUrgency text))).
Proof.
  unfold fallbackClassification. rewrite normalize_object.
  change (propOf _ (js "sentiment")) with (VStr (fallbackSentiment text)).
  change (propOf _ (js "urgency")) with (VStr (fallbackUrgency text)).
  rewrite fallbackSentiment_valid, fallbackUrgency_valid. reflexivity.
Qed.

(** A returned answer from which no JSON can be extracted is classified
    by the keywords. *)
Lemma classifyResponse_fallback text response e :
  nullish response = false ->
  extractJson (responseTextOf response) = Throw e ->
  classifyResponse text response =
  Ok (mkClassification (VStr (fallbackSentiment text))
                       (VStr (fallbackUrgency text))).
Proof.
  intros Hn He. unfold classifyResponse. unfold responseTextOf in He.
  destruct (@getProp_defined response (js "response") Hn) as (x & Hx).
  rewrite Hx in He |- *. cbn [bind]. rewrite He. cbn [tryCatch bind].
  apply normalize_fallback.
Qed.

(** C5: the keyword fallback, which tests the lower-cased text.  A text
    whose lower-casing contains "love" and none of "hate", "bad",
    "terrible" gets the sentiment positive; a text whose lower-casing
    contains none of great, love, excellent, bad, hate, terrible gets
    neutral; a text whose lower-casing contains none of urgent, asap,
    critical, soon, important gets the urgency low. *)
Theorem fallback_keywords :
  forall text,
    let lowerText := toLowerCase text in
    (includes lowerText (js "love") = true ->
     includes lowerText (js "hate") = false ->
     includes lowerText (js "bad") = false ->
     includes lowerText (js "terrible") = false ->
     fallbackSentiment text = js "positive") /\
    (includes lowerText (js "great") = false ->
     includes lowerText (js "love") = false ->
     includes lowerText (js "excellent") = false ->
     includes lowerText (js "bad") = false ->
     includes lowerText (js "hate") = false ->
     includes lowerText (js "terrible") = false ->
     fallbackSentiment text = js "neutral") /\
    (includes lowerText (js "urgent") = false ->
     includes lowerText (js "asap") = false ->
     includes lowerText (js "critical") = false ->
     includes lowerText (js "soon") = false ->
     includes lowerText (js "important") = false ->
     fallbackUrgency text = js "low").
Proof.
  intros text lowerText. subst lowerText.
  unfold fallbackSentiment, fallbackUrgency. cbv zeta.
  split; [|split].
  - intros -> _ _ _. rewrite orb_true_r. reflexivity.
  - intros -> -> -> -> -> ->. reflexivity.
  - intros -> -> -> -> ->. reflexivity.
Qed.

(** The theorem at three rows of the sample data. *)
Lemma fallback_keywords_witness :
  fallbackSentiment (js "Love the new features! Keep up the good work.")
    = js "positive" /\
  fallbackSentiment (js "The interface is okay, nothing special but it works.")
    = js "neutral" /\
  fallbackUrgency (js "The interface is okay, nothing special but it works.")
    = js "low".
Proof.
  split; [|split].
  - apply (fallback_keywords
             (js "Love the new features! Keep up the good work."));
      reflexivity.
  - apply (fallback_keywords
             (js "The interface is okay, nothing special but it works."));
      reflexivity.
  - apply (fallback_keywords
             (js "The interface is okay, nothing special but it works."));
      reflexivity.
Defined.

(** A text that contains love and hate is positive all the same: the
    positive keywords are tested first.  Capitals do not matter. *)
Example fallback_love_and_hate :
  fallbackSentiment (js "I love the idea but hate the bugs") = js "positive" /\
  fallbackSentiment (js "LOVE IT") = js "positive" /\
  fallbackUrgency (js "Needed ASAP") = js "high".
Proof. repeat split; reflexivity. Qed.

(** C8, the empty text: the classifier calls the oracle and classifies
    it like any other text. *)
Lemma classify_empty_text :
  classifyFeedback [] (oracleSays (VObj [(js "response", VStr (js "ok"))]))
                   sampleWorld
  = (Ok (mkClassification (VStr (js "neutral")) (VStr (js "low"))),
     called sampleWorld (classifyRequest [])).
Proof. vm_compute. reflexivity. Qed.

(** C8 as the code has it: whatever the text, empty or not, the
    classifier returns a fully populated result when the oracle returns
    anything but null and undefined; its only failures are the oracle's
    own, which it passes on, and a TypeError on a null or undefined
    answer.  No input is rejected. *)
Theorem classifier_accepts_every_text :
  forall text env w,
    match AI_run env (length (requests w)) (classifyRequest text) with
    | Returns response =>
      if nullish response
      then fst (classifyFeedback text env w) = Throw TypeError
      else exists r, fst (classifyFeedback text env w) = Ok r /\ populated r
    | Fails msg => fst (classifyFeedback text env w) = Throw (Unavailable msg)
    end.
Proof.
  intros text env w. rewrite classifyFeedback_unfold.
  destruct (AI_run env (length (requests w)) (classifyRequest text))
    as [response|msg]; [|reflexivity].
  destruct (nullish response) eqn:Hn; simpl.
  - apply classifyResponse_nullish. exact Hn.
  - destruct (@classifyResponse_returns text _ Hn) as (props & r & E & _ & P).
    eauto.
Qed.

(** ** processFeedback *)

Lemma processEach_oracle_down msg :
  forall results processed errors w,
    processEach (oracleDown msg) results processed errors w =
    (Ok (processed,
         errors ++ map (fun f => errorItem f (Unavailable msg)) results),
     mkWorld (feedback_db w)
             (requests w
              ++ map (fun f => classifyRequest (Feedback.content f)) results)).
Proof.
  induction results as [|f rest IH]; intros processed errors w.
  - simpl. unfold ret. rewrite !app_nil_r. destruct w; reflexivity.
  - cbn [processEach]. unfold bindA at 1. unfold tryCatchA at 1.
    unfold bindA at 1. rewrite classifyFeedback_unfold. cbn [AI_run oracleDown].
    unfold ret at 1. cbn [fst snd]. rewrite IH. cbn [called feedback_db requests map].
    rewrite <- !app_assoc. reflexivity.
Qed.

(** C2, the batch of ten with the oracle down: nothing is processed and
    every item is in the errors list. *)
Lemma batch_with_oracle_down :
  let msg := js "Error: oracle unavailable" in
  let errors := map (fun f => errorItem f (Unavailable msg)) sampleFeedback in
  processFeedback (oracleDown msg) sampleWorld
  = (Ok (jsonResponse 200
           (VObj [(js "processed", VNum (numberOfNat 0));
                  (js "items", VArr []);
                  (js "errors", VArr errors)])),
     mkWorld sampleFeedback
             (map (fun f => classifyRequest (Feedback.content f))
                  sampleFeedback)) /\
  length errors = 10 /\
  fst (classifyFeedback (js "Great customer support, very helpful team.")
         (oracleDown msg) sampleWorld)
  = Throw (Unavailable msg).
Proof. vm_compute. repeat split; reflexivity. Qed.

Lemma processEach_nullish_answer response :
  nullish response = true ->
  forall results processed errors w,
    processEach (oracleSays response) results processed errors w =
    (Ok (processed,
         errors ++ map (fun f => errorItem f TypeError) results),
     mkWorld (feedback_db w)
             (requests w
              ++ map (fun f => classifyRequest (Feedback.content f)) results)).
Proof.
  intros Hn.
  induction results as [|f rest IH]; intros processed errors w.
  - simpl. unfold ret. rewrite !app_nil_r. destruct w; reflexivity.
  - cbn [processEach]. unfold bindA at 1. unfold tryCatchA at 1.
    unfold bindA at 1. rewrite classifyFeedback_unfold. cbn [AI_run oracleSays].
    rewrite (@classifyResponse_nullish _ _ Hn).
    unfold ret at 1. cbn [fst snd]. rewrite IH. cbn [called feedback_db requests map].
    rewrite <- !app_assoc. reflexivity.
Qed.

(** C2 as the code has it: an answer other than null and undefined
    from which no JSON can be extracted degrades to the keyword
    fallback, but a failed oracle call leaves [classifyFeedback] as an
    exception, and so does an answer that is null or undefined, whose
    [response] field is read before the [try]; the batch operation
    catches it per item, so with the oracle down, or answering null,
    for a non-empty batch it reports zero processed items and one error
    for each item, and the table is left as it was. *)
Theorem oracle_failure_is_recorded_per_item :
  forall msg w,
    batch w <> [] ->
    (forall text,
       fst (classifyFeedback text (oracleDown msg) w)
       = Throw (Unavailable msg)) /\
    processFeedback (oracleDown msg) w =
      (Ok (jsonResponse 200
             (VObj [(js "processed", VNum (numberOfNat 0));
                    (js "items", VArr []);
                    (js "errors",
                     VArr (map (fun f => errorItem f (Unavailable msg))
                               (batch w)))])),
       mkWorld (feedback_db w)
               (requests w
                ++ map (fun f => classifyRequest (Feedback.content f))
                       (batch w))) /\
    (forall text response e,
       nullish response = false ->
       extractJson (responseTextOf response) = Throw e ->
       fst (classifyFeedback text (oracleSays response) w)
       = Ok (mkClassification (VStr (fallbackSentiment text))
                              (VStr (fallbackUrgency text)))) /\
    (forall text response,
       nullish response = true ->
       fst (classifyFeedback text (oracleSays response) w)
       = Throw TypeError) /\
    (forall response,
       nullish response = true ->
       exists errors,
         fst (processFeedback (oracleSays response) w)
         = Ok (processedResponse [] errors) /\
         length errors = length (batch w) /\
         feedback_db (snd (processFeedback (oracleSays response) w))
         = feedback_db w).
Proof.
  intros msg w Hb. split; [|split; [|split; [|split]]].
  - intros text. rewrite classifyFeedback_unfold. reflexivity.
  - unfold processFeedback, tryCatchA, bindA at 1.
    unfold selectUnclassified, query. cbn [storageUp oracleDown].
    fold (batch w).
    destruct (batch w) as [|f rest] eqn:Eb; [congruence|].
    cbn [length Nat.eqb]. unfold bindA.
    fold (oracleDown msg). rewrite processEach_oracle_down.
    cbn [app length Nat.ltb Nat.leb map]. unfold ret. reflexivity.
  - intros text response e Hn He. rewrite classifyFeedback_unfold.
    cbn [AI_run oracleSays fst].
    exact (@classifyResponse_fallback text response e Hn He).
  - intros text response Hn. rewrite classifyFeedback_unfold.
    cbn [AI_run oracleSays fst].
    exact (@classifyResponse_nullish text response Hn).
  - intros response Hn.
    exists (map (fun f => errorItem f TypeError) (batch w)).
    unfold processFeedback, tryCatchA, bindA at 1, bindA at 2.
    unfold selectUnclassified, query. cbn [storageUp oracleSays].
    fold (batch w).
    destruct (batch w) as [|f rest] eqn:Eb; [congruence|].
    cbn [length Nat.eqb]. unfold bindA.
    fold (oracleSays response). rewrite (@processEach_nullish_answer _ Hn).
    cbn [app fst snd feedback_db]. unfold ret, processedResponse.
    cbn [fst snd feedback_db length Nat.ltb Nat.leb map].
    rewrite length_map. repeat split; reflexivity.
Qed.

(** The theorem at the sample data. *)
Lemma oracle_failure_is_recorded_per_item_witness :
  batch sampleWorld <> [] /\
  fst (processFeedback (oracleDown (js "Error: 5007")) sampleWorld) =
    Ok (jsonResponse 200
          (VObj [(js "processed", VNum (numberOfNat 0));
                 (js "items", VArr []);
                 (js "errors",
                  VArr (map (fun f => errorItem f (Unavailable (js "Error: 5007")))
                            sampleFeedback))])) /\
  fst (classifyFeedback (js "This is urgent") (oracleSays VNull) sampleWorld)
  = Throw TypeError.
Proof.
  assert (batch sampleWorld <> []) as Hb by (vm_compute; discriminate).
  split; [exact Hb|].
  destruct (@oracle_failure_is_recorded_per_item (js "Error: 5007")
              sampleWorld Hb) as (_ & E & _ & Hnull & _).
  split; [rewrite E; reflexivity|].
  apply Hnull. reflexivity.
Defined.

(** With an oracle that answers but not in JSON, the ten sample rows are
    all classified by the keywords and no error is reported. *)
Example batch_with_unparseable_answers :
  let env := oracleSays (VObj [(js "response", VStr (js "Sorry, I cannot."))]) in
  let result := processFeedback env sampleWorld in
  map (fun f => (Feedback.sentiment f, Feedback.urgency f))
      (feedback_db (snd result))
  = [(Some (js "positive"), Some (js "low"));
     (Some (js "neutral"), Some (js "high"));
     (Some (js "neutral"), Some (js "low"));
     (Some (js "negative"), Some (js "high"));
     (Some (js "positive"), Some (js "low"));
     (Some (js "neutral"), Some (js "medium"));
     (Some (js "positive"), Some (js "low"));
     (Some (js "neutral"), Some (js "high"));
     (Some (js "neutral"), Some (js "low"));
     (Some (js "neutral"), Some (js "low"))] /\
  batch (snd result) = [].
Proof. vm_compute. split; reflexivity. Qed.

(** ** generateSummary *)

Lemma finishes_bind (A B : Type) (c : outcome A) (f : A -> outcome B) :
  finishes c -> (forall a, finishes (f a)) -> finishes (bind c f).
Proof.
  unfold finishes. destruct c; simpl; auto. discriminate.
Qed.

Lemma finishes_getProp v key : finishes (getProp v key).
Proof.
  unfold finishes, getProp. destruct v; try discriminate.
  destruct (lookup key props); discriminate.
Qed.

Lemma finishes_filterM (A : Type) (p : A -> outcome bool) l :
  (forall x, finishes (p x)) -> finishes (filterM p l).
Proof.
  intros Hp. induction l as [|x l IH]; simpl; [discriminate|].
  apply finishes_bind; [apply Hp|]. intros keep.
  apply finishes_bind; [exact IH|]. intros kept. discriminate.
Qed.

Lemma finishes_mapM (A B : Type) (f : A -> outcome B) l :
  (forall x, finishes (f x)) -> finishes (mapM f l).
Proof.
  intros Hf. induction l as [|x l IH]; simpl; [discriminate|].
  apply finishes_bind; [apply Hf|]. intros y.
  apply finishes_bind; [exact IH|]. intros ys. discriminate.
Qed.

Lemma finishes_toStr : forall v, finishes (toStr v).
Proof.
  fix IH 1. intros v. destruct v as [| |b|n|s|elems|props]; simpl;
    try discriminate.
  - destruct b; discriminate.
  - apply finishes_bind; [|intros; discriminate].
    induction elems as [|e rest IHl]; [discriminate|].
    apply finishes_bind.
    + destruct (nullish e); [discriminate | apply IH].
    + intros s. apply finishes_bind; [exact IHl | intros; discriminate].
  - destruct (lookup (js "toString") props); discriminate.
Qed.

Lemma finishes_unwrapParsed parsed : finishes (unwrapParsed parsed).
Proof.
  unfold unwrapParsed.
  apply finishes_bind; [apply finishes_getProp|]. intros output.
  destruct (truthy (vand output (VBool (isArray output)))).
  - destruct output; try discriminate.
    apply finishes_bind.
    { apply finishes_filterM. intros x. unfold isMessage.
      apply finishes_bind; [apply finishes_getProp|]. intros t.
      destruct (strictEqStr t (js "message")); [|discriminate].
      apply finishes_bind; [apply finishes_getProp | intros; discriminate]. }
    intros messages. apply finishes_bind.
    { unfold flatMapM. apply finishes_bind; [|intros; discriminate].
      apply finishes_mapM. intros x. unfold contentOf.
      apply finishes_bind; [apply finishes_getProp | intros; discriminate]. }
    intros blocks. apply finishes_bind.
    { apply finishes_filterM. intros x. unfold isOutputText.
      apply finishes_bind; [apply finishes_getProp|]. intros t.
      destruct (strictEqStr t (js "output_text")); [|discriminate].
      apply finishes_bind; [apply finishes_getProp | intros; discriminate]. }
    intros texts. apply finishes_bind.
    { apply finishes_mapM. intros x. apply finishes_getProp. }
    intros textParts. apply finishes_bind; [|intros; discriminate].
    unfold joinValues. apply finishes_bind; [|intros; discriminate].
    apply finishes_mapM. intros x.
    destruct (nullish x); [discriminate | apply finishes_toStr].
  - apply finishes_bind; [apply finishes_getProp|]. intros response.
    destruct (truthy response); discriminate.
Qed.

(** The unwrapping never fails: its [catch] returns for whatever its
    [try] throws. *)
Lemma summaryTextOf_total aiResponse :
  exists v, summaryTextOf aiResponse = Ok v.
Proof.
  unfold summaryTextOf.
  match goal with
  | |- exists v, tryCatch ?c ?h = Ok v =>
    assert (finishes c) as Hf; [|destruct c; simpl; eauto; now elim Hf]
  end.
  apply finishes_bind; [|apply finishes_unwrapParsed].
  destruct aiResponse; try discriminate. apply JSON_parse_terminates.
Qed.

(** *** The output-array shape *)

Lemma entry_type e :
  getProp (encodeEntry e) (js "type") = Ok (VStr (entryType e)).
Proof. reflexivity. Qed.

Lemma entry_content e :
  getProp (encodeEntry e) (js "content")
  = Ok (VArr (map encodeBlock (entryContent e))).
Proof. reflexivity. Qed.

Lemma block_type b :
  getProp (encodeBlock b) (js "type") = Ok (VStr (blockType b)).
Proof. reflexivity. Qed.

Lemma block_text b :
  getProp (encodeBlock b) (js "text") = Ok (VStr (blockText b)).
Proof. reflexivity. Qed.

Lemma filterM_messages entries :
  filterM isMessage (map encodeEntry entries) =
  Ok (map encodeEntry
          (filter (fun e => jsstring_eqb (entryType e) (js "message"))
                  entries)).
Proof.
  induction entries as [|e rest IH]; [reflexivity|].
  cbn [map filterM filter]. rewrite IH.
  unfold isMessage. rewrite entry_type. cbn [bind strictEqStr].
  destruct (jsstring_eqb (entryType e) (js "message")); [|reflexivity].
  rewrite entry_content. reflexivity.
Qed.

Lemma flatMapM_content entries :
  flatMapM contentOf (map encodeEntry entries) =
  Ok (map encodeBlock (concat (map entryContent entries))).
Proof.
  unfold flatMapM.
  assert (mapM contentOf (map encodeEntry entries)
          = Ok (map (fun e => map encodeBlock (entryContent e)) entries)) as ->.
  { induction entries as [|e rest IH]; [reflexivity|].
    cbn [map mapM]. rewrite IH. unfold contentOf. rewrite entry_content.
    reflexivity. }
  cbn [bind]. f_equal.
  induction entries as [|e rest IH]; [reflexivity|].
  cbn [map concat]. rewrite map_app, IH. reflexivity.
Qed.

Lemma filterM_outputText blocks :
  filterM isOutputText (map encodeBlock blocks) =
  Ok (map encodeBlock
          (filter (fun b => jsstring_eqb (blockType b) (js "output_text")
                            && nonEmpty (blockText b))
                  blocks)).
Proof.
  induction blocks as [|b rest IH]; [reflexivity|].
  cbn [map filterM filter]. rewrite IH.
  unfold isOutputText. rewrite block_type. cbn [bind strictEqStr].
  destruct (jsstring_eqb (blockType b) (js "output_text")); [|reflexivity].
  rewrite block_text. cbn [bind truthy andb].
  destruct (blockText b); reflexivity.
Qed.

Lemma mapM_text blocks :
  mapM (fun c => getProp c (js "text")) (map encodeBlock blocks) =
  Ok (map (fun b => VStr (blockText b)) blocks).
Proof.
  induction blocks as [|b rest IH]; [reflexivity|].
  cbn [map mapM]. rewrite IH, block_text. reflexivity.
Qed.

Lemma join_empty_sep l : join [] l = concat l.
Proof.
  induction l as [|x [|y rest] IH]; [reflexivity | |].
  - simpl. rewrite app_nil_r. reflexivity.
  - change (join [] (x :: y :: rest)) with (x ++ [] ++ join [] (y :: rest)).
    rewrite IH. reflexivity.
Qed.

Lemma joinValues_strings (l : list jsstring) :
  joinValues [] (map VStr l) = Ok (concat l).
Proof.
  unfold joinValues.
  assert (mapM (fun e => if nullish e then Ok [] else toStr e) (map VStr l)
          = Ok l) as ->.
  { induction l as [|x rest IH]; [reflexivity|].
    cbn [map mapM]. rewrite IH. reflexivity. }
  cbn [bind]. rewrite join_empty_sep. reflexivity.
Qed.

(** Blocks with an empty text are dropped before the join and add
    nothing to it. *)
Lemma concat_nonEmpty_texts blocks :
  concat (map blockText
            (filter (fun b => jsstring_eqb (blockType b) (js "output_text")
                              && nonEmpty (blockText b)) blocks)) =
  concat (map blockText
            (filter (fun b => jsstring_eqb (blockType b) (js "output_text"))
                    blocks)).
Proof.
  induction blocks as [|b rest IH]; [reflexivity|].
  cbn [filter].
  destruct (jsstring_eqb (blockType b) (js "output_text")); cbn [andb];
    [|exact IH].
  destruct (nonEmpty (blockText b)) eqn:E; cbn [map concat].
  - rewrite IH. reflexivity.
  - destruct (blockText b); [exact IH | discriminate].
Qed.

Lemma unwrap_output_array props entries :
  propOf props (js "output") = VArr (map encodeEntry entries) ->
  unwrapParsed (VObj props) =
  Ok (vor (VStr (outputText entries)) (JSON_stringify (VObj props))).
Proof.
  intros Ho. unfold unwrapParsed. rewrite getProp_object, Ho.
  cbn [bind vand truthy isArray].
  rewrite filterM_messages. cbn [bind].
  rewrite flatMapM_content. cbn [bind].
  rewrite filterM_outputText. cbn [bind].
  rewrite mapM_text. cbn [bind].
  rewrite <- (map_map blockText VStr), joinValues_strings. cbn [bind].
  rewrite concat_nonEmpty_texts. reflexivity.
Qed.

Lemma unwrap_no_output_array props :
  hasOutputArray props = false ->
  unwrapParsed (VObj props) =
  Ok (if truthy (propOf props (js "response"))
      then propOf props (js "response")
      else JSON_stringify (VObj props)).
Proof.
  unfold hasOutputArray. intros Ho. unfold unwrapParsed.
  rewrite getProp_object. cbn [bind]. rewrite Ho.
  rewrite getProp_object. cbn [bind].
  destruct (truthy (propOf props (js "response"))); reflexivity.
Qed.

(** C6, the envelope with an empty output array and a response field:
    the result is the stringified object, not the response text. *)
Lemma empty_output_skips_response :
  summaryTextOf (VObj [(js "output", VArr []);
                       (js "response", VStr (js "hi"))])
  = Ok (VStr (js "{" ++ dq ++ js "output" ++ dq ++ js ":[]," ++ dq
              ++ js "response" ++ dq ++ js ":" ++ dq ++ js "hi" ++ dq
              ++ js "}")).
Proof. vm_compute. reflexivity. Qed.

Lemma summaryTextOf_denotes aiResponse parsed v :
  denotes aiResponse parsed ->
  unwrapParsed parsed = Ok v ->
  summaryTextOf aiResponse = Ok v.
Proof.
  unfold denotes, summaryTextOf. intros Hd Hu.
  destruct aiResponse; try (subst parsed; cbn [bind]; rewrite Hu; reflexivity).
  rewrite Hd. cbn [bind]. rewrite Hu. reflexivity.
Qed.

(** *** The output array in general *)

Lemma filterM_pure (A : Type) (p : A -> outcome bool) (q ok : A -> bool) l :
  (forall x, ok x = true -> p x = Ok (q x)) ->
  forallb ok l = true ->
  filterM p l = Ok (filter q l).
Proof.
  intros Hp. induction l as [|x rest IH]; [reflexivity|].
  cbn [forallb filterM filter]. intros H.
  apply andb_true_iff in H. destruct H as [Hx Hrest].
  rewrite (Hp _ Hx), (IH Hrest). reflexivity.
Qed.

Lemma mapM_pure (A B : Type) (f : A -> outcome B) (g : A -> B)
      (ok : A -> bool) l :
  (forall x, ok x = true -> f x = Ok (g x)) ->
  forallb ok l = true ->
  mapM f l = Ok (map g l).
Proof.
  intros Hf. induction l as [|x rest IH]; [reflexivity|].
  cbn [forallb mapM map]. intros H.
  apply andb_true_iff in H. destruct H as [Hx Hrest].
  rewrite (Hf _ Hx), (IH Hrest). reflexivity.
Qed.

Lemma forallb_filter (A : Type) (p q : A -> bool) l :
  forallb p l = true -> forallb p (filter q l) = true.
Proof.
  induction l as [|x rest IH]; [reflexivity|].
  cbn [forallb filter]. intros H.
  apply andb_true_iff in H. destruct H as [Hx Hrest].
  destruct (q x); cbn [forallb]; [rewrite Hx|]; auto.
Qed.

Lemma forallb_filter_both (A : Type) (p q : A -> bool) l :
  forallb p l = true ->
  forallb (fun x => p x && q x) (filter q l) = true.
Proof.
  induction l as [|x rest IH]; [reflexivity|].
  cbn [forallb filter]. intros H.
  apply andb_true_iff in H. destruct H as [Hx Hrest].
  destruct (q x) eqn:Hq; cbn [forallb]; [rewrite Hx, Hq|]; auto.
Qed.

Lemma getProp_fieldOf v key :
  negb (nullish v) = true -> getProp v key = Ok (fieldOf v key).
Proof.
  destruct v; try discriminate; intros _; try reflexivity.
  apply getProp_object.
Qed.

Lemma isMessage_entry item :
  negb (nullish item) = true -> isMessage item = Ok (messageEntry item).
Proof.
  intros Hn. unfold isMessage, messageEntry.
  rewrite !(@getProp_fieldOf _ _ Hn). cbn [bind].
  destruct (strictEqStr (fieldOf item (js "type")) (js "message"));
    [|reflexivity].
  cbn [andb bind]. f_equal. unfold vand.
  destruct (truthy (fieldOf item (js "content"))) eqn:E.
  - reflexivity.
  - rewrite E. destruct (fieldOf item (js "content")); try reflexivity.
    discriminate.
Qed.

Lemma contentOf_message item :
  negb (nullish item) && messageEntry item = true ->
  contentOf item = Ok (blocksOf item).
Proof.
  intros H. apply andb_true_iff in H. destruct H as [Hn Hm].
  unfold contentOf, blocksOf. rewrite (@getProp_fieldOf _ _ Hn). cbn [bind].
  unfold messageEntry in Hm. apply andb_true_iff in Hm. destruct Hm as [_ Ha].
  destruct (fieldOf item (js "content")); try discriminate. reflexivity.
Qed.

Lemma isOutputText_block c :
  negb (nullish c) = true -> isOutputText c = Ok (outputTextBlock c).
Proof.
  intros Hn. unfold isOutputText, outputTextBlock.
  rewrite !(@getProp_fieldOf _ _ Hn). cbn [bind].
  destruct (strictEqStr (fieldOf c (js "type")) (js "output_text"));
    reflexivity.
Qed.

Lemma joinValues_texts parts :
  forallb isString parts = true ->
  joinValues [] parts = Ok (concat (map stringOf parts)).
Proof.
  intros H. unfold joinValues.
  rewrite (@mapM_pure _ _ _ stringOf isString parts); [| |exact H].
  - cbn [bind]. rewrite join_empty_sep. reflexivity.
  - intros x Hx. destruct x; try discriminate. reflexivity.
Qed.

Lemma unwrap_output_entries parsed entries :
  fieldOf parsed (js "output") = VArr entries ->
  wellShaped entries = true ->
  unwrapParsed parsed =
  Ok (vor (VStr (outputTextOf entries)) (JSON_stringify parsed)).
Proof.
  intros Ho Hw. unfold wellShaped in Hw.
  apply andb_true_iff in Hw. destruct Hw as [Hw Htexts].
  apply andb_true_iff in Hw. destruct Hw as [Hentries Hblocks].
  destruct parsed as [| | | | | |props]; try discriminate.
  cbn [fieldOf] in Ho.
  unfold unwrapParsed. rewrite getProp_object, Ho.
  cbn [bind vand truthy isArray].
  rewrite (@filterM_pure _ _ messageEntry (fun e => negb (nullish e)) entries
             isMessage_entry Hentries).
  cbn [bind]. unfold flatMapM.
  rewrite (@mapM_pure _ _ _ blocksOf
             (fun e => negb (nullish e) && messageEntry e)
             (filter messageEntry entries) contentOf_message
             (forallb_filter_both _ messageEntry entries Hentries)).
  cbn [bind]. rewrite <- flat_map_concat_map. fold (messageBlocks entries).
  rewrite (@filterM_pure _ _ outputTextBlock (fun c => negb (nullish c))
             (messageBlocks entries) isOutputText_block Hblocks).
  cbn [bind].
  rewrite (@mapM_pure _ _ _ (fun c => fieldOf c (js "text"))
             (fun c => negb (nullish c))
             (filter outputTextBlock (messageBlocks entries))
             (fun c H => @getProp_fieldOf c (js "text") H)
             (forallb_filter _ outputTextBlock (messageBlocks entries)
                             Hblocks)).
  cbn [bind]. fold (textFields entries).
  rewrite (joinValues_texts _ Htexts). reflexivity.
Qed.

Lemma unwrap_no_output parsed :
  nullish parsed = false ->
  isArray (fieldOf parsed (js "output")) = false ->
  unwrapParsed parsed =
  Ok (if truthy (fieldOf parsed (js "response"))
      then fieldOf parsed (js "response")
      else JSON_stringify parsed).
Proof.
  intros Hn Ho. unfold unwrapParsed.
  assert (negb (nullish parsed) = true) as Hn' by (rewrite Hn; reflexivity).
  rewrite !(@getProp_fieldOf _ _ Hn'). cbn [bind].
  assert (truthy (vand (fieldOf parsed (js "output"))
                       (VBool (isArray (fieldOf parsed (js "output")))))
          = false) as ->.
  { unfold vand. rewrite Ho.
    destruct (truthy (fieldOf parsed (js "output"))) eqn:E;
      [reflexivity | exact E]. }
  destruct (truthy (fieldOf parsed (js "response"))); reflexivity.
Qed.

Lemma summaryTextOf_caught aiResponse parsed e :
  denotes aiResponse parsed ->
  unwrapParsed parsed = Throw e ->
  summaryTextOf aiResponse =
  Ok (if isString aiResponse then aiResponse else JSON_stringify aiResponse).
Proof.
  unfold denotes, summaryTextOf. intros Hd Hu.
  destruct aiResponse; try (subst parsed; cbn [bind]; rewrite Hu; reflexivity).
  rewrite Hd. cbn [bind]. rewrite Hu. reflexivity.
Qed.

(** C6 as the code has it.  The unwrapping returns for every oracle
    value.  It works on the answer itself, or on what the answer
    denotes when it is a string of JSON; numbers are taken as a double
    tells them apart.  When that value has an output array whose
    entries and content blocks are objects (or any value but null and
    undefined) and whose kept text fields are strings, whatever other
    fields they carry, the result is the texts of the output_text
    blocks of the message entries, concatenated in order, and the
    stringified whole object when that text is empty.  The response
    field is read only when there is no output array, and the
    stringified whole object is the result when it is missing or empty
    too.  Whatever the [try] block throws, in [JSON.parse] or in the
    unwrapping of the parsed value, the [catch] gives the answer as it
    is when it is a string and the stringified answer otherwise. *)
Theorem unwrapping_priority :
  (forall aiResponse, exists v, summaryTextOf aiResponse = Ok v) /\
  (forall aiResponse parsed entries,
     denotes aiResponse parsed ->
     exactNumbers parsed = true ->
     fieldOf parsed (js "output") = VArr entries ->
     wellShaped entries = true ->
     summaryTextOf aiResponse =
     Ok (match outputTextOf entries with
         | [] => JSON_stringify parsed
         | _ :: _ => VStr (outputTextOf entries)
         end)) /\
  (forall aiResponse parsed,
     denotes aiResponse parsed ->
     exactNumbers parsed = true ->
     nullish parsed = false ->
     isArray (fieldOf parsed (js "output")) = false ->
     summaryTextOf aiResponse =
     Ok (if truthy (fieldOf parsed (js "response"))
         then fieldOf parsed (js "response")
         else JSON_stringify parsed)) /\
  (forall s e, JSON_parse s = Throw e -> summaryTextOf (VStr s) = Ok (VStr s)) /\
  (forall aiResponse parsed e,
     denotes aiResponse parsed ->
     exactNumbers aiResponse = true ->
     unwrapParsed parsed = Throw e ->
     summaryTextOf aiResponse =
     Ok (if isString aiResponse then aiResponse
         else JSON_stringify aiResponse)).
Proof.
  split; [exact summaryTextOf_total|].
  split; [|split; [|split]].
  - intros aiResponse parsed entries Hd _ Ho Hw.
    apply (@summaryTextOf_denotes _ _ _ Hd).
    rewrite (@unwrap_output_entries _ _ Ho Hw).
    unfold vor. cbn [truthy]. destruct (outputTextOf entries); reflexivity.
  - intros aiResponse parsed Hd _ Hn Ho.
    apply (@summaryTextOf_denotes _ _ _ Hd).
    apply unwrap_no_output; assumption.
  - intros s e Hp. unfold summaryTextOf. rewrite Hp. reflexivity.
  - intros aiResponse parsed e Hd _ Hu.
    exact (@summaryTextOf_caught _ _ _ Hd Hu).
Qed.

(** The theorem at an envelope with a reasoning entry and a message, at
    a string of JSON with a response field only, at a string that is
    not JSON, and at an envelope whose output array holds null. *)
Lemma unwrapping_priority_witness :
  let envelope :=
    VObj [(js "output",
           VArr [sampleReasoning; sampleMessage (js "**Summary**")])] in
  let text :=
    js "{" ++ dq ++ js "response" ++ dq ++ js ":" ++ dq ++ js "**Summary**"
       ++ dq ++ js "}" in
  let broken := VObj [(js "output", VArr [VNull])] in
  summaryTextOf envelope = Ok (VStr (js "**Summary**")) /\
  summaryTextOf (VStr text) = Ok (VStr (js "**Summary**")) /\
  summaryTextOf (VStr (js "**Summary**")) = Ok (VStr (js "**Summary**")) /\
  summaryTextOf broken = Ok (JSON_stringify broken).
Proof.
  intros envelope text broken.
  destruct unwrapping_priority as (_ & Harray & Hfield & Hplain & Hcaught).
  split; [|split; [|split]].
  - apply (Harray envelope envelope
                  [sampleReasoning; sampleMessage (js "**Summary**")]);
      reflexivity.
  - apply (Hfield (VStr text)
                  (VObj [(js "response", VStr (js "**Summary**"))]));
      vm_compute; reflexivity.
  - apply (Hplain _ SyntaxError). vm_compute. reflexivity.
  - apply (Hcaught broken broken TypeError); reflexivity.
Defined.

Lemma generateSummary_unfold env w :
  generateSummary env w =
  if storageUp env then
    match summaryBatch w with
    | [] => (Ok emptyBatchResponse, w)
    | _ :: _ =>
      let feedbackData := map feedbackDatum (summaryBatch w) in
      let req := summaryRequest (JSON_stringify2 (VArr feedbackData)) in
      match AI_run env (length (requests w)) req with
      | Returns aiResponse =>
        match summaryTextOf aiResponse with
        | Ok summaryText =>
          (Ok (jsonResponse2 200
                 (VObj [(js "date", VStr today);
                        (js "summary", summaryText);
                        (js "feedback_count",
                         VNum (numberOfNat (length feedbackData)))])),
           called w req)
        | Throw e =>
          (Ok (jsonResponse 500 (VObj [(js "error", VStr (errorString e))])),
           called w req)
        | OutOfFuel => (OutOfFuel, called w req)
        end
      | Fails msg =>
        (Ok (jsonResponse 500
               (VObj [(js "error", VStr (errorString (Unavailable msg)))])),
         called w req)
      end
    end
  else
    (Ok (jsonResponse 500 (VObj [(js "error", VStr (errorString storageError))])),
     w).
Proof.
  unfold generateSummary, tryCatchA, bindA at 1, selectClassified, query.
  fold (summaryBatch w).
  destruct (storageUp env); [|reflexivity].
  destruct (summaryBatch w) as [|f rest]; [reflexivity|].
  cbn [length Nat.eqb]. cbv zeta. unfold bindA at 1, AI_call. fold (called w).
  match goal with
  | |- context [AI_run env ?n ?r] => destruct (AI_run env n r)
  end; [|reflexivity].
  unfold bindA, lift, ret.
  destruct (summaryTextOf v); reflexivity.
Qed.

(** C7, the sample table, where no row is classified yet: the Summary
    Extractor does not fail.  It calls no oracle and answers with a
    response of status 200 whose body is the date and a message, which
    is none of the status-500 error responses of its failures. *)
Lemma empty_batch_is_not_a_failure :
  let env := oracleSays (VStr (js "**Summary**")) in
  summaryBatch sampleWorld = [] /\
  generateSummary env sampleWorld = (Ok emptyBatchResponse, sampleWorld) /\
  status emptyBatchResponse = 200 /\
  responseJson emptyBatchResponse =
    Ok (VObj [(js "date", VStr today);
              (js "message", VStr noFeedbackMessage)]) /\
  (forall e, emptyBatchResponse <> errorResponse e).
Proof.
  cbv zeta. split; [reflexivity|]. split; [reflexivity|].
  split; [reflexivity|]. split; [vm_compute; reflexivity|].
  intros e H. unfold emptyBatchResponse, errorResponse, jsonResponse in H.
  discriminate H.
Qed.

(** C7 as the code has it: when no classified row of the day is in the
    store, whose rows carry the timestamps CURRENT_TIMESTAMP writes,
    the Summary Extractor makes no oracle call: it leaves the world,
    its list of oracle requests included, as it found it.  It does not
    fail either: what it returns to its caller is the empty-batch
    response, of status 200, with the date and the message 'No
    processed feedback found for the specified date' in place of a
    summary (or the status-500 response with the storage error when
    the store cannot be read). *)
Theorem empty_batch_no_oracle_call :
  forall env w,
    timestamped w = true ->
    filter (classifiedOn today) (feedback_db w) = [] ->
    snd (generateSummary env w) = w /\
    requests (snd (generateSummary env w)) = requests w /\
    (storageUp env = true ->
     fst (generateSummary env w) = Ok emptyBatchResponse /\
     status emptyBatchResponse = 200) /\
    (storageUp env = false ->
     fst (generateSummary env w) =
     Ok (jsonResponse 500
           (VObj [(js "error", VStr (errorString storageError))]))).
Proof.
  intros env w _ Hb. rewrite generateSummary_unfold.
  unfold summaryBatch. rewrite Hb. cbn [orderRows fold_right].
  destruct (storageUp env); cbn [fst snd];
    repeat split; try reflexivity; discriminate.
Qed.

(** The theorem on the sample data, where no row is classified yet. *)
Lemma empty_batch_no_oracle_call_witness :
  timestamped sampleWorld = true /\
  filter (classifiedOn today) (feedback_db sampleWorld) = [] /\
  generateSummary (oracleSays (VStr (js "**Summary**"))) sampleWorld
  = (Ok emptyBatchResponse, sampleWorld).
Proof.
  assert (timestamped sampleWorld = true) as Ht by reflexivity.
  assert (filter (classifiedOn today) (feedback_db sampleWorld) = []) as Hb
    by reflexivity.
  split; [exact Ht|]. split; [exact Hb|].
  destruct (@empty_batch_no_oracle_call
              (oracleSays (VStr (js "**Summary**"))) sampleWorld Ht Hb)
    as (Hw & _ & Hr & _).
  destruct (Hr eq_refl) as (Hr' & _).
  rewrite (surjective_pairing (generateSummary _ _)), Hw, Hr'. reflexivity.
Defined.

(** With rows to summarize the oracle is called, once. *)
Lemma generateSummary_calls_once env w :
  storageUp env = true ->
  summaryBatch w <> [] ->
  requests (snd (generateSummary env w)) =
  requests w
  ++ [summaryRequest
        (JSON_stringify2 (VArr (map feedbackDatum (summaryBatch w))))].
Proof.
  intros Hs Hb. rewrite generateSummary_unfold, Hs.
  destruct (summaryBatch w) as [|f rest] eqn:E; [congruence|].
  cbv zeta.
  match goal with
  | |- context [AI_run env ?n ?r] => destruct (AI_run env n r)
  end; [|reflexivity].
  destruct (summaryTextOf v); reflexivity.
Qed.

(** ** The shapes of section 6, and some oracle answers *)

(** A plain string, a response field and an output array. *)
Example unwrap_three_shapes :
  summaryTextOf (VStr (js "**Summary** all good")) =
    Ok (VStr (js "**Summary** all good")) /\
  summaryTextOf (VObj [(js "response", VStr (js "**Summary** all good"))]) =
    Ok (VStr (js "**Summary** all good")) /\
  summaryTextOf
    (VObj [(js "output",
            VArr [encodeEntry (mkEntry (js "reasoning")
                                 [mkBlock (js "reasoning_text") (js "hm")]);
                  encodeEntry (mkEntry (js "message")
                                 [mkBlock (js "output_text") (js "**Summary** ");
                                  mkBlock (js "output_text") (js "all good")])])])
  = Ok (VStr (js "**Summary** all good")).
Proof. vm_compute. repeat split; reflexivity. Qed.

(** An entry that is [null] makes the filter throw; the [catch] returns
    the stringified raw object. *)
Example unwrap_null_entry :
  summaryTextOf (VObj [(js "output", VArr [VNull])]) =
  Ok (VStr (js "{" ++ dq ++ js "output" ++ dq ++ js ":[null]}")).
Proof. vm_compute. reflexivity. Qed.

(** The classifier on the empty string, on malformed JSON, on values
    outside the enumerations and on values of the wrong type. *)
Example classify_odd_answers :
  let text := js "I love it, but please fix the login soon" in
  let answer s := classifyResponse text (VObj [(js "response", VStr s)]) in
  let q := dq in
  classifyResponse text (VStr []) =
    Ok (mkClassification (VStr (js "positive")) (VStr (js "medium"))) /\
  answer (js "{sentiment: positive") =
    Ok (mkClassification (VStr (js "positive")) (VStr (js "medium"))) /\
  answer (js "{sentiment: positive}") =
    Ok (mkClassification (VStr (js "positive")) (VStr (js "medium"))) /\
  answer (js "Sure! {" ++ q ++ js "sentiment" ++ q ++ js ": " ++ q
          ++ js "negative" ++ q ++ js ", " ++ q ++ js "urgency" ++ q
          ++ js ": " ++ q ++ js "high" ++ q ++ js "}") =
    Ok (mkClassification (VStr (js "negative")) (VStr (js "high"))) /\
  answer (js "{" ++ q ++ js "sentiment" ++ q ++ js ": " ++ q
          ++ js "Positive" ++ q ++ js ", " ++ q ++ js "urgency" ++ q
          ++ js ": " ++ q ++ js "critical" ++ q ++ js "}") =
    Ok (mkClassification (VStr (js "neutral")) (VStr (js "low"))) /\
  answer (js "{" ++ q ++ js "sentiment" ++ q ++ js ": 1, " ++ q
          ++ js "urgency" ++ q ++ js ": [" ++ q ++ js "high" ++ q ++ js "]}") =
    Ok (mkClassification (VStr (js "neutral")) (VStr (js "low"))) /\
  classifyResponse text (VObj [(js "response", VNum (numberOfZ 7))]) =
    Ok (mkClassification (VStr (js "positive")) (VStr (js "medium"))).
Proof. vm_compute. repeat split; reflexivity. Qed.

(** ** The dashboard *)

(** The caller of [generateSummary] treats the empty-batch response as a
    failure: it shows the message as an error and parses nothing. *)
Lemma empty_batch_shown_as_error env w :
  storageUp env = true ->
  filter (classifiedOn today) (feedback_db w) = [] ->
  renderDashboard env w = (Ok (ErrorData (VStr noFeedbackMessage)), w).
Proof.
  intros Hs Hb. unfold renderDashboard, tryCatchA, bindA at 1.
  rewrite generateSummary_unfold, Hs. unfold summaryBatch. rewrite Hb.
  cbn [orderRows fold_right]. vm_compute. reflexivity.
Qed.

(** From the table to the dashboard: the ten sample rows are classified
    through the keyword fallback, the oracle then answers with the
    canonical template, and the dashboard shows one theme of the two and
    the critical issue with its marker. *)
Example dashboard_of_canonical_answer :
  let quiet := oracleSays (VObj [(js "response", VStr (js "n/a"))]) in
  let classified := snd (processFeedback quiet sampleWorld) in
  let answer :=
    VObj [(js "output",
           VArr [encodeEntry
                   (mkEntry (js "message")
                      [mkBlock (js "output_text")
                         (canonical (js "H") (js "a") (js "b") (js "c")
                                    (js "d"))])])] in
  fst (renderDashboard (oracleSays answer) classified)
  = Ok (SummaryData (VStr today)
          (mkSections (js "H") [js "a"] [js "• c"] [js "d"])
          (VNum (numberOfNat 10))).
Proof. vm_compute. reflexivity. Qed.

(** * Further properties *)

(** ** processFeedback on any oracle *)

Lemma classifyResponse_finishes text response :
  finishes (classifyResponse text response).
Proof.
  unfold finishes. destruct (nullish response) eqn:Hn.
  - rewrite classifyResponse_nullish by exact Hn. discriminate.
  - destruct (@classifyResponse_returns text _ Hn) as (props & r & E & _).
    rewrite E. discriminate.
Qed.

Lemma classifyFeedback_world text env w :
  snd (classifyFeedback text env w) = called w (classifyRequest text) /\
  finishes (fst (classifyFeedback text env w)).
Proof.
  rewrite classifyFeedback_unfold.
  destruct (AI_run env (length (requests w)) (classifyRequest text)).
  - split; [reflexivity | apply classifyResponse_finishes].
  - split; [reflexivity | discriminate].
Qed.

Lemma evolved_refl f : evolved f f.
Proof. left. reflexivity. Qed.

Lemma evolved_trans f g h : evolved f g -> evolved g h -> evolved f h.
Proof.
  intros [-> | (I & C & T & S & U)] [-> | (I' & C' & T' & S' & U')].
  - left. reflexivity.
  - right. auto.
  - right. auto.
  - right. repeat split; try congruence; assumption.
Qed.

Lemma Forall2_evolved_refl l : Forall2 evolved l l.
Proof. induction l; constructor; auto using evolved_refl. Qed.

Lemma Forall2_evolved_trans l1 : forall l2 l3,
  Forall2 evolved l1 l2 -> Forall2 evolved l2 l3 -> Forall2 evolved l1 l3.
Proof.
  induction l1 as [|f l1 IH]; intros l2 l3 H12 H23.
  - inversion H12; subst. inversion H23; subst. constructor.
  - inversion H12 as [|? g ? l2' Hfg H12']; subst.
    inversion H23 as [|? h ? l3' Hgh H23']; subst.
    constructor; [eapply evolved_trans; eauto | eapply IH; eauto].
Qed.

Lemma toColumn_valid_sentiment v :
  validSentiment v -> exists s, toColumn v = Some s /\ In s sentiments.
Proof.
  intros [-> | [-> | ->]]; eexists; (split; [reflexivity|]); simpl; auto.
Qed.

Lemma toColumn_valid_urgency v :
  validUrgency v -> exists u, toColumn v = Some u /\ In u urgencies.
Proof.
  intros [-> | [-> | ->]]; eexists; (split; [reflexivity|]); simpl; auto.
Qed.

(** One update writes enumeration values and nothing else. *)
Lemma update_evolved r id rows :
  populated r ->
  Forall2 evolved rows
    (map (fun f =>
            if Z.eqb (Feedback.id f) id then
              Feedback.mk (Feedback.id f) (Feedback.content f)
                          (toColumn (sentiment r)) (toColumn (urgency r))
                          (Feedback.created_at f)
            else f) rows).
Proof.
  intros [Hs Hu]. induction rows as [|f rows IH]; cbn [map]; constructor;
    [|exact IH].
  destruct (Z.eqb (Feedback.id f) id); [|apply evolved_refl].
  right. cbn. repeat split; try reflexivity.
  - apply toColumn_valid_sentiment. exact Hs.
  - apply toColumn_valid_urgency. exact Hu.
Qed.

(** One turn of the loop, with the store reachable. *)
Lemma processEach_step env f rest processed errors w :
  storageUp env = true ->
  exists processed' errors' rows',
    processEach env (f :: rest) processed errors w =
    processEach env rest processed' errors'
      (mkWorld rows' (requests w ++ [classifyRequest (Feedback.content f)])) /\
    length processed' + length errors' = S (length processed + length errors) /\
    Forall2 evolved (feedback_db w) rows' /\
    (exists p e, processed' = processed ++ p /\ errors' = errors ++ e) /\
    ((exists v, AI_run env (length (requests w))
                  (classifyRequest (Feedback.content f)) = Returns v /\
                nullish v = false) ->
     errors' = errors /\
     forall g, In g rows' ->
       (Feedback.id g = Feedback.id f -> unclassified g = false) /\
       (Feedback.id g <> Feedback.id f -> In g (feedback_db w))).
Proof.
  intros Hup. cbn [processEach]. unfold bindA at 1, tryCatchA, bindA at 1.
  pose proof (classifyFeedback_world (Feedback.content f) env w) as [Hw Hf].
  rewrite classifyFeedback_unfold in *.
  destruct (AI_run env (length (requests w))
              (classifyRequest (Feedback.content f))) as [v|msg] eqn:Ea.
  - destruct (classifyResponse (Feedback.content f) v) as [r|e|] eqn:Ec.
    + assert (populated r) as Hp.
      { destruct (nullish v) eqn:Hn.
        - rewrite classifyResponse_nullish in Ec by exact Hn. discriminate.
        - destruct (@classifyResponse_returns (Feedback.content f) _ Hn)
            as (props & r' & E' & _ & P). congruence. }
      unfold bindA, updateFeedback, query. rewrite Hup.
      cbn [called feedback_db requests ret fst snd].
      eexists _, _, _. split; [reflexivity|].
      split; [rewrite length_app; simpl; lia|].
      split; [apply update_evolved; exact Hp|].
      split; [exists [processedItem f r], []; cbn [fst snd]; rewrite app_nil_r; split; reflexivity|].
      intros _. split; [reflexivity|].
      intros g Hg. apply in_map_iff in Hg as (f0 & <- & Hf0).
      destruct (Z.eqb (Feedback.id f0) (Feedback.id f)) eqn:Ei.
      * split; [|cbn; intros Hne; apply Z.eqb_eq in Ei; congruence].
        intros _. destruct Hp as [Hs Hu].
        destruct (toColumn_valid_sentiment Hs) as (s & Es & _).
        destruct (toColumn_valid_urgency Hu) as (u & Eu & _).
        unfold unclassified. cbn. rewrite Es, Eu. reflexivity.
      * split; [|intros _; exact Hf0].
        intros Heq. apply Z.eqb_neq in Ei. contradiction.
    + cbn [called ret fst snd].
      eexists _, _, _. split; [reflexivity|].
      split; [rewrite length_app; simpl; lia|].
      split; [apply Forall2_evolved_refl|].
      split; [exists [], [errorItem f e]; cbn [fst snd];
              rewrite app_nil_r; split; reflexivity|].
      intros (v' & [= <-] & Hn).
      destruct (@classifyResponse_returns (Feedback.content f) _ Hn)
        as (props & r' & E' & _). congruence.
    + exfalso. apply Hf. reflexivity.
  - cbn [called ret fst snd].
    eexists _, _, _. split; [reflexivity|].
    split; [rewrite length_app; simpl; lia|].
    split; [apply Forall2_evolved_refl|].
    split; [exists [], [errorItem f (Unavailable msg)]; cbn [fst snd];
            rewrite app_nil_r; split; reflexivity|].
    intros (v' & [=] & _).
Qed.

(** The whole loop, with the store reachable: one request per row in
    order, every row reported once, no row damaged. *)
Lemma processEach_spec env (Hup : storageUp env = true) results :
  forall processed errors w,
  exists items errs rows',
    processEach env results processed errors w =
    (Ok (processed ++ items, errors ++ errs),
     mkWorld rows' (requests w ++ batchRequests results)) /\
    length items + length errs = length results /\
    Forall2 evolved (feedback_db w) rows'.
Proof.
  induction results as [|f rest IH]; intros processed errors w.
  - exists [], [], (feedback_db w). cbn. rewrite !app_nil_r.
    split; [destruct w; reflexivity|].
    split; [reflexivity | apply Forall2_evolved_refl].
  - destruct (@processEach_step env f rest processed errors w Hup)
      as (p' & e' & rows1 & E & Hlen & Hev & (p & e & -> & ->) & _).
    destruct (IH (processed ++ p) (errors ++ e)
                (mkWorld rows1
                   (requests w ++ [classifyRequest (Feedback.content f)])))
      as (items & errs & rows' & E2 & Hlen2 & Hev2).
    exists (p ++ items), (e ++ errs), rows'.
    rewrite E, E2. cbn [requests feedback_db batchRequests map] in *.
    rewrite <- !app_assoc. cbn [app].
    split; [reflexivity|].
    rewrite !length_app in *. cbn [length].
    split; [lia|]. eapply Forall2_evolved_trans; eauto.
Qed.

Lemma classifyRow_settled r f f0 :
  populated r ->
  Feedback.id (classifyRow r (Feedback.id f) f0) = Feedback.id f0 /\
  (classifyRow r (Feedback.id f) f0 = f0 \/
   unclassified (classifyRow r (Feedback.id f) f0) = false) /\
  (Feedback.id f0 = Feedback.id f ->
   unclassified (classifyRow r (Feedback.id f) f0) = false).
Proof.
  intros [Hs Hu]. unfold classifyRow.
  destruct (toColumn_valid_sentiment Hs) as (s & Es & _).
  destruct (toColumn_valid_urgency Hu) as (u & Eu & _).
  destruct (Z.eqb (Feedback.id f0) (Feedback.id f)) eqn:Ei.
  - unfold unclassified. cbn. rewrite Es, Eu. auto.
  - apply Z.eqb_neq in Ei. split; [reflexivity|]. split; [auto|].
    intros; contradiction.
Qed.

(** One turn of the loop when the oracle answers. *)
Lemma processEach_step_answered env f rest processed errors w :
  storageUp env = true ->
  (exists v, AI_run env (length (requests w))
               (classifyRequest (Feedback.content f)) = Returns v /\
             nullish v = false) ->
  exists r, populated r /\
    processEach env (f :: rest) processed errors w =
    processEach env rest (processed ++ [processedItem f r]) errors
      (mkWorld (map (classifyRow r (Feedback.id f)) (feedback_db w))
               (requests w ++ [classifyRequest (Feedback.content f)])).
Proof.
  intros Hup (v & Ea & Hn).
  destruct (@classifyResponse_returns (Feedback.content f) _ Hn)
    as (props & r & Ec & _ & Hp).
  exists r. split; [exact Hp|].
  cbn [processEach]. unfold bindA at 1, tryCatchA, bindA at 1.
  rewrite classifyFeedback_unfold, Ea, Ec.
  unfold bindA, updateFeedback, query. rewrite Hup. reflexivity.
Qed.

Lemma processEach_answered env (Hup : storageUp env = true)
      (Hresp : responsive env) results :
  forall processed errors w,
  exists items rows',
    processEach env results processed errors w =
    (Ok (processed ++ items, errors),
     mkWorld rows' (requests w ++ batchRequests results)) /\
    Forall2 itemOf results items /\
    Forall2 (settled results) (feedback_db w) rows'.
Proof.
  induction results as [|f rest IH]; intros processed errors w.
  - exists [], (feedback_db w). cbn. rewrite !app_nil_r.
    split; [destruct w; reflexivity|]. split; [constructor|].
    induction (feedback_db w); constructor; auto.
    split; [reflexivity|]. split; [auto|]. intros [].
  - destruct (@processEach_step_answered env f rest processed errors w Hup
                (Hresp _ _)) as (r & Hp & E).
    destruct (IH (processed ++ [processedItem f r]) errors
                (mkWorld (map (classifyRow r (Feedback.id f)) (feedback_db w))
                   (requests w ++ [classifyRequest (Feedback.content f)])))
      as (items & rows' & E2 & Hit & Hset).
    exists (processedItem f r :: items), rows'.
    rewrite E, E2. cbn [requests feedback_db batchRequests map] in *.
    rewrite <- !app_assoc. cbn [app].
    split; [reflexivity|].
    split; [constructor; [exists r; auto | exact Hit]|].
    clear E E2 IH Hit. revert rows' Hset.
    induction (feedback_db w) as [|f0 db IHdb]; intros rows' Hset;
      cbn [map] in Hset; inversion Hset as [|? g ? rows2 Hg Hrest]; subst;
      constructor; [|apply IHdb; exact Hrest].
    destruct (@classifyRow_settled r f f0 Hp) as (Hid & Hor & Hin).
    destruct Hg as (Gid & Gor & Gin).
    split; [congruence|]. split.
    + destruct Gor as [-> | Gc]; [exact Hor | right; exact Gc].
    + intros [Heq | Hin'].
      * destruct Gor as [-> | Gc]; [apply Hin; auto | exact Gc].
      * apply Gin. rewrite Hid. exact Hin'.
Qed.

Lemma processFeedback_unfold env w :
  storageUp env = true ->
  processFeedback env w =
  match batch w with
  | [] => (Ok noUnprocessedResponse, w)
  | _ :: _ =>
    match processEach env (batch w) [] [] w with
    | (Ok (processed, errors), w') =>
      (Ok (processedResponse processed errors), w')
    | (Throw e, w') => (Ok (errorResponse e), w')
    | (OutOfFuel, w') => (OutOfFuel, w')
    end
  end.
Proof.
  intros Hup. unfold processFeedback, tryCatchA, bindA at 1.
  unfold selectUnclassified, query. rewrite Hup. fold (batch w).
  destruct (batch w) as [|f rest] eqn:Eb; [reflexivity|].
  cbn [length Nat.eqb]. unfold bindA.
  destruct (processEach env (f :: rest) [] [] w) as [[[p e]|e|] w'];
    reflexivity.
Qed.

Lemma processFeedback_store_down env w :
  storageUp env = false ->
  processFeedback env w = (Ok (errorResponse storageError), w).
Proof.
  intros Hdown. unfold processFeedback, tryCatchA, bindA at 1.
  unfold selectUnclassified, query. rewrite Hdown. reflexivity.
Qed.

Lemma batch_length w : length (batch w) <= 10.
Proof. unfold batch. apply firstn_le_length. Qed.

(** X1.  With the store reachable, [processFeedback] sends the oracle
    exactly one classification request per row of the batch, in the
    order of the batch and after the requests made before; a batch has
    at most ten rows. *)
Theorem processFeedback_one_request_per_row env w :
  storageUp env = true ->
  requests (snd (processFeedback env w)) =
    requests w ++ batchRequests (batch w) /\
  length (batchRequests (batch w)) <= 10.
Proof.
  intros Hup. split.
  - rewrite processFeedback_unfold by exact Hup.
    destruct (batch w) as [|f rest] eqn:Eb.
    + cbn. rewrite app_nil_r. reflexivity.
    + destruct (@processEach_spec env Hup (f :: rest) [] [] w)
        as (items & errs & rows' & E & _).
      rewrite E. reflexivity.
  - unfold batchRequests. rewrite length_map. apply batch_length.
Qed.

(** The theorem at the sample data and an oracle that is down. *)
Lemma processFeedback_one_request_per_row_witness :
  requests (snd (processFeedback (oracleDown (js "Error: 5007")) sampleWorld))
  = requests sampleWorld ++ batchRequests (batch sampleWorld) /\
  length (batchRequests (batch sampleWorld)) <= 10.
Proof.
  apply (@processFeedback_one_request_per_row
           (oracleDown (js "Error: 5007")) sampleWorld).
  reflexivity.
Defined.

(** X2.  With the store reachable and a batch to work on,
    [processFeedback] answers 200 with the processed items and the
    errors, and every row of the batch is in exactly one of the two:
    their lengths add up to the size of the batch, and [processed] is
    the number of items. *)
Theorem processFeedback_accounts_for_every_row env w :
  storageUp env = true ->
  batch w <> [] ->
  exists items errs,
    fst (processFeedback env w) = Ok (processedResponse items errs) /\
    length items + length errs = length (batch w).
Proof.
  intros Hup Hb. rewrite processFeedback_unfold by exact Hup.
  destruct (batch w) as [|f rest] eqn:Eb; [congruence|].
  destruct (@processEach_spec env Hup (f :: rest) [] [] w)
    as (items & errs & rows' & E & Hlen & _).
  rewrite E. exists items, errs. split; [reflexivity | exact Hlen].
Qed.

(** The theorem at the sample data and an oracle that is down. *)
Lemma processFeedback_accounts_for_every_row_witness :
  exists items errs,
    fst (processFeedback (oracleDown (js "Error: 5007")) sampleWorld)
    = Ok (processedResponse items errs) /\
    length items + length errs = length (batch sampleWorld).
Proof.
  apply (@processFeedback_accounts_for_every_row
           (oracleDown (js "Error: 5007")) sampleWorld).
  - reflexivity.
  - vm_compute. discriminate.
Defined.

(** X3.  Whatever the oracle answers and whether or not the store is
    reachable, [processFeedback] leaves the table with the same rows in
    the same order: each row is untouched, or it has kept its id, its
    content and its timestamp and carries a sentiment and an urgency of
    the two enumerations. *)
Theorem processFeedback_preserves_rows env w :
  Forall2 evolved (feedback_db w) (feedback_db (snd (processFeedback env w))).
Proof.
  destruct (storageUp env) eqn:Hup.
  - rewrite processFeedback_unfold by exact Hup.
    destruct (batch w) as [|f rest] eqn:Eb; [apply Forall2_evolved_refl|].
    destruct (@processEach_spec env Hup (f :: rest) [] [] w)
      as (items & errs & rows' & E & _ & Hev).
    rewrite E. exact Hev.
  - rewrite processFeedback_store_down by exact Hup.
    apply Forall2_evolved_refl.
Qed.

Lemma filter_length_Forall2 (A : Type) (R : A -> A -> Prop)
      (p p' : A -> bool) l l' :
  Forall2 R l l' ->
  (forall f g, R f g -> p' g = true -> p f = true) ->
  length (filter p' l') <= length (filter p l).
Proof.
  intros HF Hp. induction HF as [|f g l l' Hfg _ IH]; [simpl; lia|].
  cbn [filter]. destruct (p' g) eqn:Eg.
  - rewrite (Hp _ _ Hfg Eg). cbn [length]. lia.
  - destruct (p f); cbn [length]; lia.
Qed.

Lemma filter_none (A : Type) (p : A -> bool) l :
  (forall x, In x l -> p x = false) -> filter p l = [].
Proof.
  induction l as [|x l IH]; intros H; [reflexivity|].
  cbn [filter]. rewrite (H x) by (left; reflexivity).
  apply IH. intros y Hy. apply H. right. exact Hy.
Qed.

Lemma filter_andb (A : Type) (p q : A -> bool) l :
  filter (fun x => p x && q x) l = filter q (filter p l).
Proof.
  induction l as [|x l IH]; [reflexivity|].
  cbn [filter]. destruct (p x); cbn [andb filter];
    [destruct (q x)|]; rewrite IH; reflexivity.
Qed.

(** After a batch that the oracle answered throughout, the backlog is
    shorter by the batch at least. *)
Lemma settled_backlog db db' :
  Forall2 (settled (firstn 10 (filter unclassified db))) db db' ->
  length (filter unclassified db') + length (firstn 10 (filter unclassified db))
  <= length (filter unclassified db).
Proof.
  remember (firstn 10 (filter unclassified db)) as results eqn:Er. intros HF.
  remember (fun f : Feedback.t =>
              negb (existsb (Z.eqb (Feedback.id f)) (map Feedback.id results)))
    as q eqn:Eq.
  assert (length (filter unclassified db')
          <= length (filter (fun f => unclassified f && q f) db)) as H1.
  { apply (filter_length_Forall2 _ _ HF).
    intros f g (Hid & Hor & Hin) Hg.
    destruct Hor as [-> | Hc]; [|congruence].
    rewrite Hg. cbn [andb]. rewrite Eq.
    destruct (existsb (Z.eqb (Feedback.id f)) (map Feedback.id results))
      eqn:Ex; [|reflexivity].
    apply existsb_exists in Ex as (i & Hi & Ei). apply Z.eqb_eq in Ei.
    subst i. rewrite (Hin Hi) in Hg. discriminate. }
  rewrite filter_andb in H1.
  rewrite <- (firstn_skipn 10 (filter unclassified db)) in H1.
  rewrite <- Er in H1. rewrite filter_app in H1.
  rewrite (@filter_none _ q results) in H1.
  2:{ intros x Hx. rewrite Eq. apply negb_false_iff. apply existsb_exists.
      exists (Feedback.id x). split; [apply in_map; exact Hx | apply Z.eqb_refl]. }
  cbn [app] in H1.
  pose proof (filter_length_le q (skipn 10 (filter unclassified db))) as H3.
  rewrite length_skipn in H3.
  assert (length results = Nat.min 10 (length (filter unclassified db))) as H5.
  { rewrite Er. apply length_firstn. }
  lia.
Qed.

Lemma processFeedback_answered_spec env w :
  storageUp env = true ->
  responsive env ->
  batch w <> [] ->
  exists items,
    fst (processFeedback env w) = Ok (processedResponse items []) /\
    Forall2 itemOf (batch w) items /\
    length (backlog (snd (processFeedback env w))) + length (batch w)
    <= length (backlog w).
Proof.
  intros Hup Hresp Hb. rewrite processFeedback_unfold by exact Hup.
  destruct (batch w) as [|f rest] eqn:Eb; [congruence|]. rewrite <- Eb.
  destruct (@processEach_answered env Hup Hresp (batch w) [] [] w)
    as (items & rows' & E & Hit & Hset).
  rewrite E. exists items. cbn [fst snd app].
  split; [reflexivity|]. split; [exact Hit|].
  unfold backlog. cbn [feedback_db]. apply settled_backlog. exact Hset.
Qed.

(** X4.  With the store reachable and an oracle that answers every call
    with something other than null and undefined, [processFeedback]
    reports no error: [errors] is undefined, every row of the batch has
    its item, in order, with a sentiment and an urgency of the two
    enumerations, and the backlog of unclassified rows shrinks by the
    size of the batch at least. *)
Theorem processFeedback_answered env w :
  storageUp env = true ->
  responsive env ->
  batch w <> [] ->
  exists items,
    fst (processFeedback env w) = Ok (processedResponse items []) /\
    Forall2 itemOf (batch w) items /\
    length (backlog (snd (processFeedback env w))) + length (batch w)
    <= length (backlog w).
Proof.
  exact (@processFeedback_answered_spec env w).
Qed.

(** The theorem at the sample data and an oracle that always answers
    with a neutral classification. *)
Lemma processFeedback_answered_witness :
  exists items,
    fst (processFeedback
           (oracleSays (VObj [(js "response", VStr (js "{}"))])) sampleWorld)
    = Ok (processedResponse items []) /\
    Forall2 itemOf (batch sampleWorld) items /\
    length (backlog (snd (processFeedback
                            (oracleSays (VObj [(js "response", VStr (js "{}"))]))
                            sampleWorld)))
    + length (batch sampleWorld)
    <= length (backlog sampleWorld).
Proof.
  apply (@processFeedback_answered
           (oracleSays (VObj [(js "response", VStr (js "{}"))])) sampleWorld).
  - reflexivity.
  - intros n req. exists (VObj [(js "response", VStr (js "{}"))]).
    split; reflexivity.
  - vm_compute. discriminate.
Defined.



(** ** The handlers and the router *)

Lemma generateSummary_responds env w :
  exists r,
    fst (generateSummary env w) = Ok r /\
    feedback_db (snd (generateSummary env w)) = feedback_db w /\
    (requests (snd (generateSummary env w)) = requests w \/
     exists req, requests (snd (generateSummary env w)) = requests w ++ [req]).
Proof.
  rewrite generateSummary_unfold.
  destruct (storageUp env); [|eexists; repeat split; auto].
  destruct (summaryBatch w) as [|f rest]; [eexists; repeat split; auto|].
  cbv zeta.
  match goal with
  | |- context [AI_run env ?n ?r] => destruct (AI_run env n r) as [v|msg]
  end.
  - destruct (summaryTextOf_total v) as (t & ->).
    eexists. split; [reflexivity|]. split; [reflexivity|].
    right. eexists. reflexivity.
  - eexists. split; [reflexivity|]. split; [reflexivity|].
    right. eexists. reflexivity.
Qed.

Lemma processFeedback_responds env w :
  exists r, fst (processFeedback env w) = Ok r.
Proof.
  destruct (storageUp env) eqn:Hup.
  - rewrite processFeedback_unfold by exact Hup.
    destruct (batch w) as [|f rest] eqn:Eb; [eexists; reflexivity|].
    destruct (@processEach_spec env Hup (f :: rest) [] [] w)
      as (items & errs & rows' & E & _).
    rewrite E. eexists. reflexivity.
  - rewrite processFeedback_store_down by exact Hup. eexists. reflexivity.
Qed.

Lemma bindA_lift (A B : Type) (c : outcome A) (k : A -> action B) w :
  bindA (lift c) k w =
  match c with
  | Ok a => k a w
  | Throw e => (Throw e, w)
  | OutOfFuel => (OutOfFuel, w)
  end.
Proof. unfold bindA, lift. destruct c; reflexivity. Qed.

Lemma finishes_parseSummaryOf v : finishes (parseSummaryOf v).
Proof.
  unfold finishes. destruct v; try discriminate. cbn [parseSummaryOf].
  destruct (parseSummary_spec s) as (h & t & i & c & _ & _ & _ & _ & ->).
  discriminate.
Qed.

Lemma finishes_responseJson r : finishes (responseJson r).
Proof.
  unfold finishes, responseJson. destruct (body r); try discriminate.
  apply JSON_parse_terminates.
Qed.

(** The dashboard handler catches whatever happens after the summary
    handler returned, and does nothing to the world itself. *)
Lemma renderDashboard_responds env w :
  exists d, renderDashboard env w = (Ok d, snd (generateSummary env w)).
Proof.
  destruct (generateSummary_responds env w) as (r & Er & _).
  unfold renderDashboard, tryCatchA, bindA at 1.
  destruct (generateSummary env w) as [o w'] eqn:Eg.
  cbn [fst snd] in *. subst o.
  rewrite bindA_lift.
  pose proof (finishes_responseJson r) as Hj.
  destruct (responseJson r) as [summaryData|e|];
    [|eexists; reflexivity|now elim Hj].
  rewrite bindA_lift.
  destruct (getProp summaryData (js "error")) as [error|e|] eqn:E1;
    [|eexists; reflexivity|now elim (@finishes_getProp _ _ E1)].
  rewrite bindA_lift.
  destruct (getProp summaryData (js "message")) as [message|e|] eqn:E2;
    [|eexists; reflexivity|now elim (@finishes_getProp _ _ E2)].
  destruct (truthy (vor error message)); [eexists; reflexivity|].
  rewrite bindA_lift.
  destruct (getProp summaryData (js "summary")) as [summary|e|] eqn:E3;
    [|eexists; reflexivity|now elim (@finishes_getProp _ _ E3)].
  rewrite bindA_lift.
  pose proof (finishes_parseSummaryOf summary) as Hp.
  destruct (parseSummaryOf summary) as [parsed|e|];
    [|eexists; reflexivity|now elim Hp].
  rewrite bindA_lift.
  destruct (getProp summaryData (js "date")) as [date|e|] eqn:E4;
    [|eexists; reflexivity|now elim (@finishes_getProp _ _ E4)].
  rewrite bindA_lift.
  destruct (getProp summaryData (js "feedback_count")) as [count|e|] eqn:E5;
    [|eexists; reflexivity|now elim (@finishes_getProp _ _ E5)].
  eexists. reflexivity.
Qed.

(** X6.  No exception escapes the worker: whatever the method and the
    path, whatever the oracle answers and whether or not the store is
    reachable, [fetch] returns a reply. *)
Theorem fetch_always_answers method path env w :
  exists reply, fst (fetch method path env w) = Ok reply.
Proof.
  unfold fetch.
  destruct (jsstring_eqb path (js "/") && jsstring_eqb method (js "GET")).
  { destruct (renderDashboard_responds env w) as (d & E).
    unfold bindA. rewrite E. eexists. reflexivity. }
  destruct (jsstring_eqb path (js "/process")
            && jsstring_eqb method (js "GET")).
  { destruct (processFeedback_responds env w) as (r & E).
    unfold bindA. destruct (processFeedback env w) as [o w'].
    cbn [fst] in E. subst o. eexists. reflexivity. }
  destruct (jsstring_eqb path (js "/summary")
            && jsstring_eqb method (js "GET")).
  { destruct (generateSummary_responds env w) as (r & E & _).
    unfold bindA. destruct (generateSummary env w) as [o w'].
    cbn [fst] in E. subst o. eexists. reflexivity. }
  eexists. reflexivity.
Qed.

Lemma route_miss method path p :
  ~ (method = js "GET" /\ path = p) ->
  jsstring_eqb path p && jsstring_eqb method (js "GET") = false.
Proof.
  intros H. apply andb_false_iff.
  destruct (jsstring_eqb path p) eqn:Ep; [|left; reflexivity].
  destruct (jsstring_eqb method (js "GET")) eqn:Em; [|right; reflexivity].
  apply jsstring_eqb_eq in Ep, Em. elim H. split; assumption.
Qed.

(** X7.  A request that is not a GET of one of the three paths (a POST
    of /process, a GET of /favicon.ico) gets the list of endpoints, with
    status 200; the oracle is not called and the table is not read. *)
Theorem fetch_other_request method path env w :
  ~ (method = js "GET" /\
     In path [js "/"; js "/process"; js "/summary"]) ->
  fetch method path env w = (Ok (Data endpointsResponse), w).
Proof.
  intros H. unfold fetch.
  rewrite !route_miss; [reflexivity| | |];
    intros [Hm Hp]; apply H; (split; [exact Hm|]); rewrite Hp; simpl; auto.
Qed.

(** The theorem at a POST of /process. *)
Lemma fetch_other_request_witness :
  fetch (js "POST") (js "/process") (oracleDown (js "Error: 5007")) sampleWorld
  = (Ok (Data endpointsResponse), sampleWorld).
Proof.
  apply (@fetch_other_request (js "POST") (js "/process")).
  intros [Hm _]. vm_compute in Hm. discriminate.
Defined.

(** X8.  Only a GET of /process writes: any other request leaves the
    table as it was, and sends the oracle one request at most. *)
Theorem fetch_reads_only method path env w :
  ~ (method = js "GET" /\ path = js "/process") ->
  feedback_db (snd (fetch method path env w)) = feedback_db w /\
  length (requests (snd (fetch method path env w)))
  <= S (length (requests w)).
Proof.
  intros H. unfold fetch. rewrite (route_miss H).
  destruct (generateSummary_responds env w) as (r & Er & Hdb & Hreq).
  assert (length (requests (snd (generateSummary env w)))
          <= S (length (requests w))) as Hlen.
  { destruct Hreq as [-> | (req & ->)]; [lia|].
    rewrite length_app. simpl. lia. }
  destruct (jsstring_eqb path (js "/") && jsstring_eqb method (js "GET")).
  { destruct (renderDashboard_responds env w) as (d & E).
    unfold bindA. rewrite E. cbn [ret snd]. split; assumption. }
  destruct (jsstring_eqb path (js "/summary")
            && jsstring_eqb method (js "GET")).
  { unfold bindA. destruct (generateSummary env w) as [o w'].
    cbn [fst snd] in *. subst o. cbn [ret snd]. split; assumption. }
  cbn [ret snd]. split; [reflexivity | lia].
Qed.

(** The theorem at a GET of the dashboard. *)
Lemma fetch_reads_only_witness :
  feedback_db (snd (fetch (js "GET") (js "/")
                      (oracleDown (js "Error: 5007")) sampleWorld))
  = feedback_db sampleWorld /\
  length (requests (snd (fetch (js "GET") (js "/")
                           (oracleDown (js "Error: 5007")) sampleWorld)))
  <= S (length (requests sampleWorld)).
Proof.
  apply (@fetch_reads_only (js "GET") (js "/")).
  intros [_ Hp]. vm_compute in Hp. discriminate.
Defined.

(** ** The classifier on an answer that holds a JSON object *)

Lemma star_any_none (A : Type) (k : jsstring -> option A) s :
  (forall n, k (skipn n s) = None) -> star true anyChar s k = None.
Proof.
  induction s as [|c s IH]; intros Hk.
  - exact (Hk 0).
  - cbn [star]. unfold anyChar at 1. rewrite IH.
    + exact (Hk 0).
    + intros n. exact (Hk (S n)).
Qed.

(** The greedy star over every character gives back as little as the
    rest needs. *)
Lemma star_any_last (A : Type) (k : jsstring -> option A) mid tail x :
  k tail = Some x ->
  (forall n, k (skipn (S n) tail) = None) ->
  star true anyChar (mid ++ tail) k = Some x.
Proof.
  intros Hx Hk. induction mid as [|c mid IH].
  - cbn [app]. destruct tail as [|t tail].
    + exact Hx.
    + cbn [star]. unfold anyChar at 1. rewrite star_any_none.
      * exact Hx.
      * intros n. exact (Hk n).
  - cbn [app star]. unfold anyChar at 1. rewrite IH. reflexivity.
Qed.

Lemma skipn_head_not (c : N) : forall s n,
  Forall (fun x => x <> c) s ->
  match skipn n s with
  | [] => True
  | x :: _ => x <> c
  end.
Proof.
  induction s as [|y s IH]; intros n Hs.
  - destruct n; exact I.
  - inversion Hs; subst. destruct n; cbn [skipn]; [assumption | apply IH; assumption].
Qed.

(** [/\{[\s\S]*\}/] matches from the first opening brace to the last
    closing brace. *)
Lemma jsonRegex_span pre mid post :
  Forall (fun c => c <> 123%N) pre ->
  Forall (fun c => c <> 125%N) post ->
  smatch (pre ++ 123%N :: mid ++ 125%N :: post) jsonRegex =
  Some (mkMatch (length pre) (length pre + (length mid + 2))
                (123%N :: mid ++ [125%N]) None).
Proof.
  intros Hpre Hpost. unfold smatch.
  assert (forall i,
             scan jsonRegex (pre ++ 123%N :: mid ++ 125%N :: post) i =
             scan jsonRegex (123%N :: mid ++ 125%N :: post) (length pre + i))
    as Hscan.
  { induction Hpre as [|c pre Hc _ IH]; intros i; [reflexivity|].
    cbn [app scan length]. unfold matchHere at 1, jsonRegex at 1.
    cbn [seqs run]. unfold lit at 1.
    destruct (N.eqb 123 c) eqn:Ec; [apply N.eqb_eq in Ec; congruence|].
    rewrite IH, Nat.add_succ_r. reflexivity. }
  rewrite Hscan. cbn [scan]. unfold matchHere, jsonRegex.
  cbn [seqs run]. unfold lit at 1. cbn [N.eqb Pos.eqb].
  rewrite (@star_any_last _ _ mid (125%N :: post)
             (mkMatch (length pre + 0)
                      (length pre + 0 + (length mid + 2))
                      (123%N :: mid ++ [125%N]) None)).
  - rewrite Nat.add_0_r. reflexivity.
  - cbn [run]. unfold lit. cbn [N.eqb Pos.eqb]. cbn [length].
    rewrite !length_app. cbn [length].
    replace (S (length mid + S (length post)) - length post)
      with (S (length mid + 1)) by lia.
    cbn [firstn]. rewrite firstn_app.
    replace (length mid + 1 - length mid) with 1 by lia.
    rewrite firstn_all2 by lia. cbn [firstn].
    do 2 f_equal. lia.
  - intros n. cbn [skipn run].
    pose proof (@skipn_head_not 125%N post n Hpost) as Hh.
    destruct (skipn n post) as [|x rest]; [reflexivity|].
    unfold lit. destruct (N.eqb 125 x) eqn:Ex; [|reflexivity].
    apply N.eqb_eq in Ex. congruence.
Qed.

Lemma classifyResponse_parsed text response pre mid post props :
  responseTextOf response = VStr (pre ++ 123%N :: mid ++ 125%N :: post) ->
  Forall (fun c => c <> 123%N) pre ->
  Forall (fun c => c <> 125%N) post ->
  JSON_parse (123%N :: mid ++ [125%N]) = Ok (VObj props) ->
  classifyResponse text response = normalize (VObj props).
Proof.
  intros Ht Hpre Hpost Hparse. unfold classifyResponse.
  unfold responseTextOf in Ht.
  destruct (getProp response (js "response")) as [r|e|]; try discriminate.
  cbn [bind]. rewrite Ht. cbn [extractJson].
  rewrite (jsonRegex_span mid Hpre Hpost). cbn [m0].
  rewrite Hparse. reflexivity.
Qed.

(** X9.  When the text of the oracle's answer holds one JSON object,
    whatever prose without braces surrounds it, the classifier takes
    each of the two fields from that object if its value is of the
    enumeration, and neutral or low if it is not or the field is
    missing; the keywords of the feedback text play no part. *)
Theorem classifier_honours_parsed_answer text response pre mid post props :
  responseTextOf response = VStr (pre ++ 123%N :: mid ++ 125%N :: post) ->
  Forall (fun c => c <> 123%N) pre ->
  Forall (fun c => c <> 125%N) post ->
  JSON_parse (123%N :: mid ++ [125%N]) = Ok (VObj props) ->
  classifyResponse text response =
  Ok (mkClassification
        (if arrayIncludes sentiments (propOf props (js "sentiment"))
         then propOf props (js "sentiment") else VStr (js "neutral"))
        (if arrayIncludes urgencies (propOf props (js "urgency"))
         then propOf props (js "urgency") else VStr (js "low"))).
Proof.
  intros Ht Hpre Hpost Hparse.
  rewrite (classifyResponse_parsed text _ _ Ht Hpre Hpost Hparse).
  apply normalize_object.
Qed.

(** The theorem at a feedback text whose keywords say high and an
    answer that names a sentiment only. *)
Lemma classifier_honours_parsed_answer_witness :
  classifyResponse (js "This is urgent and critical!") chattyAnswer =
  Ok (mkClassification (VStr (js "negative")) (VStr (js "low"))).
Proof.
  apply (@classifier_honours_parsed_answer
           (js "This is urgent and critical!") chattyAnswer
           (js "Sure! ") chattyAnswerBody (js " Hope this helps.")
           [(js "sentiment", VStr (js "negative"))]).
  - reflexivity.
  - vm_compute. repeat (constructor; [discriminate|]). constructor.
  - vm_compute. repeat (constructor; [discriminate|]). constructor.
  - vm_compute. reflexivity.
Defined.

(** ** What extractBullets returns *)

Lemma trimStart_suffix s :
  exists p, s = p ++ trimStart s /\ Forall (fun c => isSpace c = true) p.
Proof.
  induction s as [|c s (p & E & Hp)]; [exists []; auto|].
  cbn [trimStart]. destruct (isSpace c) eqn:Ec.
  - exists (c :: p). split; [cbn [app]; congruence | constructor; assumption].
  - exists []. auto.
Qed.

Lemma trimStart_head s :
  match trimStart s with
  | [] => True
  | c :: _ => isSpace c = false
  end.
Proof.
  induction s as [|c s IH]; [exact I|].
  cbn [trimStart]. destruct (isSpace c) eqn:Ec; [exact IH | exact Ec].
Qed.

Lemma trimStart_fix s :
  match s with
  | [] => True
  | c :: _ => isSpace c = false
  end ->
  trimStart s = s.
Proof. destruct s as [|c s]; [reflexivity|]. cbn. intros ->. reflexivity. Qed.

Lemma trimStart_idem s : trimStart (trimStart s) = trimStart s.
Proof. apply trimStart_fix, trimStart_head. Qed.

Lemma In_trimStart x s : In x (trimStart s) -> In x s.
Proof.
  destruct (trimStart_suffix s) as (p & E & _). intros H.
  rewrite E. apply in_or_app. right. exact H.
Qed.

Lemma In_trim x s : In x (trim s) -> In x s.
Proof.
  unfold trim, trimEnd. intros H.
  apply in_rev in H. apply In_trimStart in H. apply in_rev in H.
  apply In_trimStart in H. exact H.
Qed.

Lemma trim_idem s : trim (trim s) = trim s.
Proof.
  unfold trim, trimEnd.
  set (t := trimStart s). set (v := trimStart (rev t)).
  assert (trimStart (rev v) = rev v) as Hu.
  { apply trimStart_fix.
    destruct (trimStart_suffix (rev t)) as (p & E & _). fold v in E.
    assert (t = rev v ++ rev p) as Et.
    { rewrite <- (rev_involutive t), E, rev_app_distr. reflexivity. }
    pose proof (trimStart_head s) as Hh. fold t in Hh.
    destruct (rev v) as [|c u]; [exact I|].
    rewrite Et in Hh. exact Hh. }
  rewrite Hu, rev_involutive. unfold v. rewrite trimStart_idem. reflexivity.
Qed.

Lemma split_no_sep sep s : Forall (fun l => ~ In sep l) (split sep s).
Proof.
  induction s as [|c s IH]; [constructor; [intros []|constructor]|].
  cbn [split]. destruct (N.eqb c sep) eqn:Ec.
  - constructor; [intros [] | exact IH].
  - apply N.eqb_neq in Ec.
    destruct (split sep s) as [|h t]; inversion IH; subst;
      constructor; try constructor; try assumption;
      intros [H|H]; [congruence | contradiction | congruence | contradiction].
Qed.

Lemma run_noGroup r :
  forall (A : Type) s cap (k : jsstring -> option jsstring -> option A) x,
    noGroup r = true ->
    run r s cap k = Some x -> exists s', k s' cap = Some x.
Proof.
  induction r as [|cs|r1 IH1 r2 IH2|r1 IH1 r2 IH2|g cs|r1 IH1|r1 IH1|];
    intros A s cap k x Hg H; cbn [noGroup run] in *.
  - eauto.
  - destruct s as [|c s]; [discriminate|].
    destruct (cs c); [eauto | discriminate].
  - apply andb_true_iff in Hg as [G1 G2].
    apply IH1 in H as (s1 & H); [|exact G1].
    apply IH2 in H; [exact H | exact G2].
  - apply andb_true_iff in Hg as [G1 G2].
    destruct (run r1 s cap k) eqn:E.
    + injection H as ->. apply IH1 in E; assumption.
    + apply IH2 in H; assumption.
  - apply star_exit in H as (s' & H & _). eauto.
  - discriminate.
  - destruct (run r1 s cap (fun _ cap1 => Some cap1)) as [c1|] eqn:E;
      [|discriminate].
    apply IH1 in E as (s' & [= <-]); [eauto | exact Hg].
  - destruct s; [eauto | discriminate].
Qed.

Lemma group_look_capturesLine look :
  noGroup look = true ->
  capturesLine (Seq (Group (Plus false dot)) (Look look)).
Proof.
  intros Hg A s cap k x H. unfold Plus in H. cbn [run] in H.
  destruct s as [|c s]; [discriminate|].
  destruct (dot c) eqn:Hc; [|discriminate].
  apply star_exits in H as (p & s1 & -> & Hp & H).
  cbn [length] in H. rewrite length_app in H.
  replace (S (length p + length s1) - length s1) with (S (length p)) in H
    by lia.
  cbn [firstn] in H. rewrite firstn_app, Nat.sub_diag, firstn_all in H.
  cbn [firstn] in H. rewrite app_nil_r in H.
  match type of H with
  | match ?l with _ => _ end = _ => destruct l as [c1|] eqn:E
  end; [|discriminate].
  apply run_noGroup in E as (s' & [= <-]); [|exact Hg].
  exists (c :: p), s1. split; [discriminate|].
  split; [constructor; assumption | exact H].
Qed.

Lemma itemTail_capturesLine next :
  noGroup next = true -> capturesLine (itemTail next).
Proof.
  intros Hg. unfold itemTail. apply group_look_capturesLine.
  cbn [noGroup]. rewrite Hg. reflexivity.
Qed.

Lemma Seq_capturesLine r1 r2 : capturesLine r2 -> capturesLine (Seq r1 r2).
Proof.
  intros H2 A s cap k x H. cbn [run] in H.
  apply run_exits in H as (s1 & cap1 & _ & H). apply H2 in H. exact H.
Qed.

Lemma bulletRegex_capturesLine : capturesLine bulletRegex.
Proof.
  change bulletRegex
    with (Seq (Chr bulletMark)
              (Seq (Star true isSpace) (itemTail (Chr bulletMark)))).
  do 2 apply Seq_capturesLine. apply itemTail_capturesLine. reflexivity.
Qed.

Lemma numberedRegex_capturesLine : capturesLine numberedRegex.
Proof.
  change numberedRegex
    with (Seq (Plus true isDigit)
              (Seq (Chr dotOrParen)
                   (Seq (Star true isSpace)
                        (itemTail (Seq (Plus true isDigit) (Chr dotOrParen)))))).
  do 3 apply Seq_capturesLine. apply itemTail_capturesLine. reflexivity.
Qed.

Lemma dot_LF : dot LF = false.
Proof. reflexivity. Qed.

Lemma trim_line_clean g :
  ~ In LF g -> nonEmpty (trim g) = true -> cleanBullet (trim g).
Proof.
  intros Hg Hn. split; [|split].
  - intros E. rewrite E in Hn. discriminate.
  - apply trim_idem.
  - intros H. apply Hg. apply In_trim. exact H.
Qed.

Lemma allMatches_bullets re text :
  capturesLine re ->
  forall i ms,
    allMatches re text i ms ->
    Forall (fun b => nonEmpty b = true -> cleanBullet b) (map bulletOf ms).
Proof.
  intros Hre i ms H.
  induction H as [i Hn | i m ms Hi Hm Hn Hrest IH]; cbn [map]; constructor;
    [|exact IH].
  unfold matchAt, matchHere in Hm.
  apply Hre in Hm as (g & s' & _ & Hdot & [= <-]).
  unfold bulletOf. cbn [m1]. apply trim_line_clean.
  intros Hin. rewrite Forall_forall in Hdot.
  specialize (Hdot _ Hin). rewrite dot_LF in Hdot. discriminate.
Qed.

Lemma filter_nonEmpty_clean l :
  Forall (fun b => nonEmpty b = true -> cleanBullet b) l ->
  Forall cleanBullet (filter nonEmpty l).
Proof.
  induction 1 as [|b l Hb _ IH]; [constructor|].
  cbn [filter]. destruct (nonEmpty b) eqn:E; [constructor; auto | exact IH].
Qed.

Lemma fallbackLines_clean text :
  Forall (fun b => nonEmpty b = true -> cleanBullet b) (fallbackLines text).
Proof.
  unfold fallbackLines. apply Forall_forall. intros b Hb _.
  apply filter_In in Hb as [Hb Hn].
  apply in_map_iff in Hb as (l & <- & Hl).
  apply trim_line_clean; [|exact Hn].
  pose proof (split_no_sep LF text) as Hs. rewrite Forall_forall in Hs.
  apply Hs. exact Hl.
Qed.

(** X10.  [extractBullets] returns, for every text, and every bullet it
    returns is clean: not empty, with no white space at either end, and
    without a line feed, whichever of the two patterns or the line
    fallback produced it. *)
Theorem extractBullets_clean text :
  exists bs, extractBullets text = Ok bs /\ Forall cleanBullet bs.
Proof.
  destruct (extractBullets_spec text) as (bm & nm & Hbm & Hnm & E).
  rewrite E. eexists. split; [reflexivity|].
  apply filter_nonEmpty_clean.
  assert (Forall (fun b => nonEmpty b = true -> cleanBullet b) (matched bm nm))
    as Hm.
  { unfold matched. apply Forall_app. split.
    - apply (allMatches_bullets bulletRegex_capturesLine Hbm).
    - apply (allMatches_bullets numberedRegex_capturesLine Hnm). }
  destruct (matched bm nm); [apply fallbackLines_clean | exact Hm].
Qed.

Lemma exec_no_first_char cs rest text :
  Forall (fun c => cs c = false) text ->
  exec (Seq (Chr cs) rest) text 0 = None.
Proof.
  intros Hc. unfold exec. cbn [Nat.ltb Nat.leb skipn].
  apply scan_none_intro. intros d _. unfold matchHere. cbn [run].
  destruct (skipn d text) as [|c s] eqn:E; [reflexivity|].
  assert (In c text) as Hin.
  { rewrite <- (firstn_skipn d text), E. apply in_or_app. right. left.
    reflexivity. }
  rewrite Forall_forall in Hc. rewrite (Hc _ Hin). reflexivity.
Qed.

Lemma exec_no_first_plus g cs rest text :
  Forall (fun c => cs c = false) text ->
  exec (Seq (Plus g cs) rest) text 0 = None.
Proof.
  intros Hc. unfold exec. cbn [Nat.ltb Nat.leb skipn].
  apply scan_none_intro. intros d _. unfold matchHere, Plus. cbn [run].
  destruct (skipn d text) as [|c s] eqn:E; [reflexivity|].
  assert (In c text) as Hin.
  { rewrite <- (firstn_skipn d text), E. apply in_or_app. right. left.
    reflexivity. }
  rewrite Forall_forall in Hc. rewrite (Hc _ Hin). reflexivity.
Qed.

Lemma filter_idem (A : Type) (p : A -> bool) l :
  filter p (filter p l) = filter p l.
Proof.
  induction l as [|x l IH]; [reflexivity|].
  cbn [filter]. destruct (p x) eqn:E; [cbn [filter]; rewrite E, IH|];
    auto.
Qed.

(** X11.  A text with no bullet mark (a bullet, a star, a hyphen, a
    plus) and no digit anywhere is returned line by line: the lines
    between line feeds, trimmed, the blank ones dropped. *)
Theorem extractBullets_plain_lines text :
  Forall (fun c => bulletMark c = false) text ->
  Forall (fun c => isDigit c = false) text ->
  extractBullets text = Ok (fallbackLines text).
Proof.
  intros Hm Hd. unfold extractBullets. cbv zeta. cbn [execLoop].
  change bulletRegex
    with (Seq (Chr bulletMark)
              (Seq (Star true isSpace) (itemTail (Chr bulletMark)))).
  rewrite (@exec_no_first_char _ _ _ Hm). cbn [bind].
  change numberedRegex
    with (Seq (Plus true isDigit)
              (Seq (Chr dotOrParen)
                   (Seq (Star true isSpace)
                        (itemTail (Seq (Plus true isDigit) (Chr dotOrParen)))))).
  rewrite (@exec_no_first_plus _ _ _ _ Hd). cbn [bind length Nat.eqb app].
  fold (fallbackLines text). unfold fallbackLines. rewrite filter_idem.
  reflexivity.
Qed.

(** The theorem at two lines of prose. *)
Lemma extractBullets_plain_lines_witness :
  extractBullets (js "  Cold starts got slower " ++ LF :: LF
                    :: js "Deploys fail without a message")
  = Ok [js "Cold starts got slower"; js "Deploys fail without a message"].
Proof.
  apply (@extractBullets_plain_lines
           (js "  Cold starts got slower " ++ LF :: LF
              :: js "Deploys fail without a message")).
  - vm_compute. repeat (constructor; [reflexivity|]). constructor.
  - vm_compute. repeat (constructor; [reflexivity|]). constructor.
Defined.

(** ** A summary without the headers *)

Lemma liti_lowerChar p c : liti p c = true -> lowerChar c = lowerChar p.
Proof.
  unfold liti, lowerChar, upperChar, isUpper, isLower, inRange.
  intros Hc.
  apply andb_true_iff in Hc as [_ Hc]. apply N.eqb_eq in Hc.
  repeat match goal with
         | H : context [(?a <=? ?b)%N] |- _ =>
           destruct (N.leb_spec a b)
         | |- context [(?a <=? ?b)%N] =>
           destruct (N.leb_spec a b)
         end; cbn [andb orb] in *; try discriminate; try lia.
Qed.

Lemma exits_stri w : forall s s',
  exits (stri w) s s' ->
  exists u, s = u ++ s' /\ toLowerCase u = toLowerCase w.
Proof.
  unfold stri. induction w as [|p w IH]; intros s s' X.
  - cbn in X. subst s'. exists []. auto.
  - destruct w as [|q w].
    + cbn in X. destruct X as (c & -> & Hc). exists [c].
      split; [reflexivity|]. unfold toLowerCase. cbn [map].
      rewrite (@liti_lowerChar _ _ Hc). reflexivity.
    + cbn [map seqs] in X. cbn [exits] in X.
      destruct X as (s1 & (c & -> & Hc) & X).
      apply IH in X as (u & -> & Eu).
      exists (c :: u). split; [reflexivity|].
      unfold toLowerCase in *. cbn [map].
      rewrite (@liti_lowerChar _ _ Hc), Eu. reflexivity.
Qed.

Lemma stri_spells w : spells (stri w) (toLowerCase w).
Proof.
  intros s s' X. apply exits_stri in X as (u & -> & Eu).
  exists [], u, s'. auto.
Qed.

Lemma Seq_spells_right r1 r2 w : spells r2 w -> spells (Seq r1 r2) w.
Proof.
  intros H s s' (s1 & X1 & X2).
  apply exits_suffix in X1 as (p & ->).
  apply H in X2 as (a & u & b & -> & Eu).
  exists (p ++ a), u, b. rewrite <- app_assoc. auto.
Qed.

Lemma Seq_spells_left r1 r2 w : spells r1 w -> spells (Seq r1 r2) w.
Proof.
  intros H s s' (s1 & X1 & X2).
  apply H in X1 as (a & u & b & -> & Eu). eauto.
Qed.

Lemma startsWith_app p rest : startsWith p (p ++ rest) = true.
Proof.
  induction p as [|c p IH]; [destruct rest; reflexivity|].
  cbn. rewrite N.eqb_refl, IH. reflexivity.
Qed.

Lemma includes_app a p b : includes (a ++ p ++ b) p = true.
Proof.
  induction a as [|c a IH].
  - cbn [app]. destruct (p ++ b) eqn:E; cbn [includes];
      rewrite <- E, startsWith_app; reflexivity.
  - cbn [app includes]. rewrite IH. apply orb_true_r.
Qed.

(** A pattern that spells a word matches only a text that mentions it. *)
Lemma smatch_mentions r w text :
  spells r w -> mentions text w = false -> smatch text r = None.
Proof.
  intros Hr Hm. destruct (smatch text r) as [m|] eqn:E; [|reflexivity].
  exfalso. unfold smatch in E.
  apply scan_some in E as (d & _ & E & _). unfold matchHere in E.
  apply run_exits in E as (s' & cap' & X & _).
  apply Hr in X as (a & u & b & Es & Eu).
  unfold mentions in Hm.
  rewrite <- (firstn_skipn d text), Es in Hm.
  unfold toLowerCase in *. rewrite !map_app, Eu in Hm.
  rewrite app_assoc in Hm.
  rewrite includes_app in Hm. discriminate.
Qed.

Local Ltac spell :=
  repeat first
    [ apply stri_spells | apply Seq_spells_right ].

Lemma boldHeader_spells name body w :
  spells name w -> spells (boldHeader name body) w.
Proof.
  intros H. unfold boldHeader. cbn [seqs].
  apply Seq_spells_right, Seq_spells_left. exact H.
Qed.

Lemma plainHeader_spells name body w :
  spells name w -> spells (plainHeader name body) w.
Proof.
  intros H. unfold plainHeader. cbn [seqs]. apply Seq_spells_left. exact H.
Qed.

Lemma reSummary_spells : spells reSummary (js "summary").
Proof. unfold reSummary. spell. Qed.

Lemma reHeadline_spells : spells reHeadline (js "headline").
Proof. unfold reHeadline. spell. Qed.

Lemma reKeyThemes_spells : spells reKeyThemes (js "themes").
Proof. unfold reKeyThemes. cbn [seqs]. spell. Qed.

Lemma reTop3Themes_spells : spells reTop3Themes (js "themes").
Proof. unfold reTop3Themes. cbn [seqs]. spell. Qed.

Lemma reCriticalIssues_spells : spells reCriticalIssues (js "issues").
Proof. unfold reCriticalIssues. cbn [seqs]. spell. Qed.

Lemma reRecommendation_spells : spells reRecommendation (js "recommendation").
Proof. unfold reRecommendation. spell. Qed.

(** X12.  [parseSummary] finds a section only under its header word,
    in whatever case: a text that mentions neither summary nor headline
    gets the placeholder headline; a text without the word themes has no
    themes, without issues no critical issues, and without
    recommendation no recommendation. *)
Theorem parseSummary_missing_headers text :
  exists sections,
    parseSummary text = Ok sections /\
    (mentions text (js "summary") = false ->
     mentions text (js "headline") = false ->
     headline sections = noHeadline) /\
    (mentions text (js "themes") = false -> themes sections = []) /\
    (mentions text (js "issues") = false -> criticalIssues sections = []) /\
    (mentions text (js "recommendation") = false ->
     recommendation sections = []).
Proof.
  destruct (@headlineOf_total (headlineMatch text)) as (h & Eh & Hh).
  { intros x Hx. eapply headlineMatch_group1; eauto. }
  destruct (@sectionBullets_total (themesMatch text)) as (t & Et & Ht).
  { intros x Hx. eapply themesMatch_group1; eauto. }
  destruct (@sectionBullets_total (issuesMatch text)) as (i & Ei & Hi).
  { intros x Hx. eapply issuesMatch_group1; eauto. }
  destruct (@sectionBullets_total (recMatch text)) as (c & Ec & Hc).
  { intros x Hx. eapply recMatch_group1; eauto. }
  eexists. split.
  { rewrite parseSummary_unfold, Eh, Et, Ei, Ec. reflexivity. }
  cbn [headline themes criticalIssues recommendation].
  split; [|split; [|split]].
  - intros Hs Hl. apply Hh. unfold headlineMatch.
    rewrite (@smatch_mentions _ _ _ (@boldHeader_spells _ _ _ reSummary_spells) Hs).
    rewrite (@smatch_mentions _ _ _ (@boldHeader_spells _ _ _ reHeadline_spells) Hl).
    rewrite (@smatch_mentions _ _ _ (@plainHeader_spells _ _ _ reSummary_spells) Hs).
    rewrite (@smatch_mentions _ _ _ (@plainHeader_spells _ _ _ reHeadline_spells) Hl).
    reflexivity.
  - intros Hm. rewrite Ht; [reflexivity|]. unfold themesMatch.
    rewrite (@smatch_mentions _ _ _ (@boldHeader_spells _ _ _ reKeyThemes_spells) Hm).
    rewrite (@smatch_mentions _ _ _ (@boldHeader_spells _ _ _ reTop3Themes_spells) Hm).
    rewrite (@smatch_mentions _ _ _ (@plainHeader_spells _ _ _ reKeyThemes_spells) Hm).
    rewrite (@smatch_mentions _ _ _ (@plainHeader_spells _ _ _ reTop3Themes_spells) Hm).
    reflexivity.
  - intros Hm. rewrite Hi; [reflexivity|]. unfold issuesMatch.
    rewrite (@smatch_mentions _ _ _ (@boldHeader_spells _ _ _ reCriticalIssues_spells) Hm).
    rewrite (@smatch_mentions _ _ _ (@plainHeader_spells _ _ _ reCriticalIssues_spells) Hm).
    reflexivity.
  - intros Hm. rewrite Hc; [reflexivity|]. unfold recMatch.
    rewrite (@smatch_mentions _ _ _ (@boldHeader_spells _ _ _ reRecommendation_spells) Hm).
    rewrite (@smatch_mentions _ _ _ (@plainHeader_spells _ _ _ reRecommendation_spells) Hm).
    reflexivity.
Qed.

(** ** An output array with a hole *)

Lemma filterM_isMessage_nullish entries :
  Exists (fun e => nullish e = true) entries ->
  filterM isMessage entries = Throw TypeError.
Proof.
  induction 1 as [e rest He | e rest _ IH]; cbn [filterM].
  - destruct e; try discriminate; reflexivity.
  - unfold isMessage at 1.
    destruct e as [| |b|n|s|elems|props]; try reflexivity; cbn [getProp bind].
    + rewrite IH. reflexivity.
    + rewrite IH. reflexivity.
    + rewrite IH. reflexivity.
    + rewrite IH. reflexivity.
    + destruct (lookup (js "type") props) as [t|]; cbn [bind].
      * destruct (strictEqStr t (js "message")).
        -- destruct (lookup (js "content") props); cbn [bind]; rewrite IH;
             reflexivity.
        -- cbn [bind]. rewrite IH. reflexivity.
      * cbn [strictEqStr bind]. rewrite IH. reflexivity.
Qed.

(** X13.  One null or undefined entry in the output array of the
    oracle's answer, wherever it stands, voids the extraction: the
    summary text is the answer as it came when that is a string, and
    the whole answer stringified otherwise, whatever text the other
    entries carry. *)
Theorem unwrapping_null_entry aiResponse props entries :
  denotes aiResponse (VObj props) ->
  propOf props (js "output") = VArr entries ->
  Exists (fun e => nullish e = true) entries ->
  summaryTextOf aiResponse =
  Ok (if isString aiResponse then aiResponse else JSON_stringify aiResponse).
Proof.
  intros Hd Ho Hn.
  assert (unwrapParsed (VObj props) = Throw TypeError) as Hu.
  { unfold unwrapParsed. rewrite getProp_object, Ho. cbn [bind vand truthy isArray].
    rewrite (filterM_isMessage_nullish Hn). reflexivity. }
  unfold summaryTextOf, denotes in *.
  destruct aiResponse; try discriminate.
  - rewrite Hd. cbn [bind]. rewrite Hu. reflexivity.
  - injection Hd as <-. cbn [bind]. rewrite Hu. reflexivity.
Qed.

(** The theorem at a message entry followed by null. *)
Lemma unwrapping_null_entry_witness :
  summaryTextOf
    (VObj [(js "output",
            VArr [encodeEntry
                    (mkEntry (js "message")
                             [mkBlock (js "output_text") (js "**Summary**")]);
                  VNull])])
  = Ok (JSON_stringify
          (VObj [(js "output",
                  VArr [encodeEntry
                          (mkEntry (js "message")
                                   [mkBlock (js "output_text")
                                            (js "**Summary**")]);
                        VNull])])).
Proof.
  apply (@unwrapping_null_entry
           (VObj [(js "output",
                   VArr [encodeEntry
                           (mkEntry (js "message")
                                    [mkBlock (js "output_text")
                                             (js "**Summary**")]);
                         VNull])])
           [(js "output",
             VArr [encodeEntry
                     (mkEntry (js "message")
                              [mkBlock (js "output_text") (js "**Summary**")]);
                   VNull])]
           [encodeEntry
              (mkEntry (js "message")
                       [mkBlock (js "output_text") (js "**Summary**")]);
            VNull]).
  - reflexivity.
  - reflexivity.
  - right. left. reflexivity.
Defined.

(** ** JSON text read back *)

Lemma hexValue_hexDigit d : (d < 16)%N -> hexValue (hexDigit d) = Some d.
Proof.
  intros Hd. unfold hexValue, hexDigit, isDigit, inRange.
  destruct (N.ltb_spec d 10).
  - replace ((48 <=? 48 + d) && (48 + d <=? 57))%N with true.
    + f_equal. lia.
    + symmetry. apply andb_true_iff. split; apply N.leb_le; lia.
  - replace ((48 <=? 87 + d) && (87 + d <=? 57))%N with false.
    + replace ((97 <=? 87 + d) && (87 + d <=? 102))%N with true.
      * f_equal. lia.
      * symmetry. apply andb_true_iff. split; apply N.leb_le; lia.
    + symmetry. apply andb_false_iff. right. apply N.leb_gt. lia.
Qed.

Lemma hex4_escape c :
  (c < 65536)%N ->
  hex4 (hexDigit (N.shiftr c 12 mod 16)) (hexDigit (N.shiftr c 8 mod 16))
       (hexDigit (N.shiftr c 4 mod 16)) (hexDigit (c mod 16)) = Some c.
Proof.
  intros H. unfold hex4.
  rewrite !hexValue_hexDigit by (apply N.mod_lt; discriminate).
  f_equal. rewrite !N.shiftr_div_pow2.
  change (2 ^ 12)%N with 4096%N. change (2 ^ 8)%N with 256%N.
  change (2 ^ 4)%N with 16%N.
  pose proof (N.div_mod c 16 ltac:(lia)).
  pose proof (N.div_mod (c / 16) 16 ltac:(lia)).
  pose proof (N.div_mod (c / 16 / 16) 16 ltac:(lia)).
  pose proof (N.mod_lt c 16 ltac:(lia)).
  pose proof (N.mod_lt (c / 16) 16 ltac:(lia)).
  pose proof (N.mod_lt (c / 16 / 16) 16 ltac:(lia)).
  rewrite !N.Div0.div_div in *.
  change (16 * 16)%N with 256%N in *. change (256 * 16)%N with 4096%N in *.
  assert (c / 4096 < 16)%N by (apply N.Div0.div_lt_upper_bound; lia).
  rewrite (N.mod_small (c / 4096)) by assumption.
  lia.
Qed.

(** An escape [\uXXXX] is read back as its code unit. *)
Lemma parseChars_escape c s acc :
  (c < 65536)%N ->
  parseChars (unicodeEscape c ++ s) acc = parseChars s (c :: acc).
Proof.
  intros H. unfold unicodeEscape.
  change (js "\u") with [92; 117]%N. cbn [app parseChars].
  cbn [N.eqb Pos.eqb]. rewrite (hex4_escape H). reflexivity.
Qed.

Lemma parseChars_plain c s acc :
  c <> 34%N -> c <> 92%N -> (32 <= c)%N ->
  parseChars (c :: s) acc = parseChars s (c :: acc).
Proof.
  intros H1 H2 H3. cbn [parseChars].
  destruct (N.eqb_spec c 34); [contradiction|].
  destruct (N.eqb_spec c 92); [contradiction|].
  destruct (N.ltb_spec c 32); [lia | reflexivity].
Qed.

Lemma surrogate_range c :
  isHighSurrogate c || isLowSurrogate c = true ->
  (55296 <= c < 57344)%N.
Proof.
  unfold isHighSurrogate, isLowSurrogate, inRange. intros H.
  apply orb_true_iff in H as [H|H]; apply andb_true_iff in H as [H1 H2];
    apply N.leb_le in H1, H2; lia.
Qed.

(** What [JSON.stringify] writes for a string is read back as that
    string, whatever its code units. *)
Lemma parseChars_quoteChars : forall n s acc rest,
  length s <= n ->
  parseChars (quoteChars s ++ 34%N :: rest) acc = Some (rev acc ++ s, rest).
Proof.
  induction n as [|n IH]; intros s acc rest Hn.
  { destruct s; [|simpl in Hn; lia]. cbn. rewrite app_nil_r. reflexivity. }
  destruct s as [|c s].
  { cbn. rewrite app_nil_r. reflexivity. }
  cbn [length] in Hn.
  assert (forall acc', acc' = c :: acc ->
            parseChars (quoteChars s ++ 34%N :: rest) acc'
            = Some (rev acc ++ c :: s, rest)) as Hnext.
  { intros acc' ->. rewrite IH by lia. cbn [rev].
    rewrite <- app_assoc. reflexivity. }
  cbn [quoteChars].
  destruct (N.eqb_spec c 8) as [->|N8].
  { change (js "\b") with [92; 98]%N. cbn. apply Hnext. reflexivity. }
  destruct (N.eqb_spec c 9) as [->|N9].
  { change (js "\t") with [92; 116]%N. cbn. apply Hnext. reflexivity. }
  destruct (N.eqb_spec c 10) as [->|N10].
  { change (js "\n") with [92; 110]%N. cbn. apply Hnext. reflexivity. }
  destruct (N.eqb_spec c 12) as [->|N12].
  { change (js "\f") with [92; 102]%N. cbn. apply Hnext. reflexivity. }
  destruct (N.eqb_spec c 13) as [->|N13].
  { change (js "\r") with [92; 114]%N. cbn. apply Hnext. reflexivity. }
  destruct (N.eqb_spec c 34) as [->|N34].
  { cbn. apply Hnext. reflexivity. }
  destruct (N.eqb_spec c 92) as [->|N92].
  { cbn. apply Hnext. reflexivity. }
  destruct (N.ltb_spec c 32) as [L32|G32].
  { rewrite <- app_assoc, parseChars_escape by lia. apply Hnext. reflexivity. }
  destruct (isHighSurrogate c) eqn:Hh.
  { pose proof (@surrogate_range c ltac:(rewrite Hh; reflexivity)) as Hr.
    destruct s as [|c' s'].
    - rewrite parseChars_escape by lia. apply Hnext. reflexivity.
    - destruct (isLowSurrogate c') eqn:Hl.
      + pose proof (@surrogate_range c'
                      ltac:(rewrite Hl; apply orb_true_r)) as Hr'.
        cbn [app]. rewrite !parseChars_plain by lia.
        cbn [length] in Hn. rewrite IH by lia. cbn [rev].
        rewrite <- !app_assoc. reflexivity.
      + rewrite <- app_assoc, parseChars_escape by lia.
        apply Hnext. reflexivity. }
  destruct (isLowSurrogate c) eqn:Hl.
  { pose proof (@surrogate_range c
                  ltac:(rewrite Hl; apply orb_true_r)) as Hr.
    rewrite <- app_assoc, parseChars_escape by lia. apply Hnext. reflexivity. }
  cbn [app]. rewrite parseChars_plain by assumption. apply Hnext. reflexivity.
Qed.

Lemma parseChars_quote s rest :
  parseChars (quoteChars s ++ 34%N :: rest) [] = Some (s, rest).
Proof. apply (@parseChars_quoteChars (length s)). lia. Qed.

(** *** Numbers *)

Lemma parseNumber_stages s :
  parseNumber s =
  let (neg, s1) := signPart s in
  let (ip, s2) := takeDigits s1 in
  match ip with
  | [] => None
  | d :: more =>
    if N.eqb d 0 && (0 <? length more) then None
    else
      match fracPart s2 with
      | None => None
      | Some (fp, s3) =>
        match expoPart s3 with
        | None => None
        | Some (ex, s4) => Some (makeNumber neg ip fp ex, s4)
        end
      end
  end.
Proof. reflexivity. Qed.

Lemma digit_char d :
  (d < 10)%N -> isDigit (48 + d)%N = true /\ (48 + d - 48 = d)%N.
Proof.
  intros H. unfold isDigit, inRange. split; [|lia].
  apply andb_true_iff. split; apply N.leb_le; lia.
Qed.

Lemma takeDigits_digitChars ds rest :
  below10 ds ->
  match rest with [] => True | c :: _ => isDigit c = false end ->
  takeDigits (digitChars ds ++ rest) = (ds, rest).
Proof.
  intros Hds Hrest. induction Hds as [|d ds Hd _ IH].
  - cbn [digitChars map app]. destruct rest as [|c r]; [reflexivity|].
    cbn [takeDigits]. rewrite Hrest. reflexivity.
  - cbn [digitChars map app takeDigits].
    destruct (digit_char Hd) as [-> ->].
    change (map (fun d0 => (48 + d0)%N) ds) with (digitChars ds).
    rewrite IH. reflexivity.
Qed.

Lemma numberEnd_head rest :
  numberEnd rest = true ->
  match rest with
  | [] => True
  | c :: _ => isDigit c = false /\ c <> 46%N /\ c <> 101%N /\ c <> 69%N
  end.
Proof.
  destruct rest as [|c r]; [exact (fun _ => I)|]. cbn [numberEnd]. intros H.
  repeat (apply andb_true_iff in H as [H ?]).
  repeat match goal with
         | H : negb _ = true |- _ => apply negb_true_iff in H
         end.
  repeat split; try assumption; intros ->; discriminate.
Qed.

(** A literal is read stage by stage. *)
Lemma parseNumber_literal neg ip fp ex rest :
  below10 ip -> below10 fp ->
  match ip with
  | [] => False
  | d :: more => d <> 0%N \/ more = []
  end ->
  match ex with
  | None => True
  | Some (_, ed) => ed <> [] /\ below10 ed
  end ->
  numberEnd rest = true ->
  parseNumber (literal neg ip fp ex ++ rest) =
  Some (makeNumber neg ip fp (expoValue ex), rest).
Proof.
  intros Hip Hfp Hlead Hex Hrest. apply numberEnd_head in Hrest.
  rewrite parseNumber_stages. unfold literal.
  destruct ip as [|d more]; [contradiction|].
  assert (signPart (((if neg then [45%N] else []) ++
                     digitChars (d :: more) ++ fracText fp ++ expoText ex)
                    ++ rest)
          = (neg, digitChars (d :: more) ++ fracText fp ++ expoText ex ++ rest))
    as ->.
  { destruct neg; cbn [app]; rewrite <- ?app_assoc; [reflexivity|].
    cbn [digitChars map app signPart].
    inversion Hip as [|? ? Hd _]; subst.
    destruct (N.eqb_spec (48 + d) 45); [lia|].
    rewrite <- ?app_assoc. reflexivity. }
  assert (expoPart (expoText ex ++ rest) = Some (expoValue ex, rest)) as He.
  { destruct ex as [[minus ed]|].
    - destruct Hex as [Hne Hed]. cbn [expoText app expoPart].
      cbn [N.eqb Pos.eqb orb].
      assert (takeDigits (digitChars ed ++ rest) = (ed, rest)) as Ht.
      { apply takeDigits_digitChars; [exact Hed|].
        destruct rest; [exact I | apply Hrest]. }
      destruct minus; cbn [N.eqb Pos.eqb]; rewrite Ht;
        destruct ed; try contradiction; reflexivity.
    - cbn [expoText app expoValue]. destruct rest as [|c r]; [reflexivity|].
      destruct Hrest as (_ & _ & H1 & H2). cbn [expoPart].
      destruct (N.eqb_spec c 101); [contradiction|].
      destruct (N.eqb_spec c 69); [contradiction|]. reflexivity. }
  assert (match expoText ex ++ rest with
          | [] => True
          | c :: _ => isDigit c = false /\ c <> 46%N
          end) as Hhead.
  { destruct ex as [[minus ed]|]; cbn [expoText app].
    - split; [reflexivity | discriminate].
    - destruct rest; [exact I|]. destruct Hrest as (? & ? & _). auto. }
  assert (fracPart (fracText fp ++ expoText ex ++ rest)
          = Some (fp, expoText ex ++ rest)) as Hf.
  { destruct fp as [|f fp].
    - cbn [fracText app]. destruct (expoText ex ++ rest) as [|c r];
        [reflexivity|].
      destruct Hhead as [_ H]. cbn [fracPart].
      destruct (N.eqb_spec c 46); [contradiction | reflexivity].
    - cbn [fracText app fracPart]. cbn [N.eqb Pos.eqb].
      rewrite takeDigits_digitChars; [reflexivity | exact Hfp|].
      destruct (expoText ex ++ rest); [exact I | apply Hhead]. }
  rewrite takeDigits_digitChars; [|exact Hip|].
  2:{ destruct fp as [|f fp]; cbn [fracText app];
        [|reflexivity].
      destruct (expoText ex ++ rest); [exact I | apply Hhead]. }
  assert (N.eqb d 0 && (0 <? length more) = false) as ->.
  { destruct Hlead as [Hd | ->]; [|apply andb_false_r].
    destruct (N.eqb_spec d 0); [contradiction | reflexivity]. }
  rewrite Hf, He. reflexivity.
Qed.

Lemma dropZeros_repeat m l : dropZeros (repeat 0%N m ++ l) = dropZeros l.
Proof. induction m as [|m IH]; [reflexivity | exact IH]. Qed.

Lemma dropZeros_head d l : d <> 0%N -> dropZeros (d :: l) = d :: l.
Proof. intros H. destruct d; [contradiction | reflexivity]. Qed.

Lemma rev_repeat0 m : rev (repeat 0%N m) = repeat 0%N m.
Proof.
  induction m as [|m IH]; [reflexivity|].
  cbn [repeat rev]. rewrite IH. symmetry. apply repeat_cons.
Qed.

(** The digits of a well-formed number other than zero. *)
Lemma wfNumber_digits x d r :
  wfNumber x = true -> digits x = d :: r ->
  d <> 0%N /\ last (d :: r) 1%N <> 0%N /\ below10 (d :: r).
Proof.
  unfold wfNumber. intros H E. rewrite E in H.
  apply andb_true_iff in H as [H H3]. apply andb_true_iff in H as [H1 H2].
  apply negb_true_iff in H1, H2.
  split; [intros ->; discriminate|]. split; [intros E0; rewrite E0 in H2; discriminate|].
  unfold below10. apply Forall_forall. intros y Hy.
  rewrite forallb_forall in H3. apply N.ltb_lt. apply H3. exact Hy.
Qed.

(** [makeNumber] strips the zeros around the significant digits. *)
Lemma makeNumber_canon neg ip fp ex a b d r :
  ip ++ fp = repeat 0%N a ++ (d :: r) ++ repeat 0%N b ->
  d <> 0%N -> last (d :: r) 1%N <> 0%N ->
  makeNumber neg ip fp ex =
  mkNumber neg (d :: r) (Z.of_nat (length ip) + ex - Z.of_nat a)%Z.
Proof.
  intros E Hd Hl. unfold makeNumber. rewrite E.
  rewrite dropZeros_repeat. cbn [app]. rewrite (dropZeros_head _ Hd).
  change (d :: r ++ repeat 0%N b) with ((d :: r) ++ repeat 0%N b).
  rewrite rev_app_distr, rev_repeat0, dropZeros_repeat.
  assert (dropZeros (rev (d :: r)) = rev (d :: r)) as ->.
  { rewrite (@app_removelast_last _ (d :: r) 1%N) at 1 2 by discriminate.
    rewrite rev_app_distr. cbn [rev app]. apply dropZeros_head. exact Hl. }
  rewrite rev_involutive. f_equal.
  rewrite !length_app, !repeat_length. cbn [length]. lia.
Qed.

Lemma below10_repeat0 m : below10 (repeat 0%N m).
Proof. unfold below10. apply Forall_forall. intros y Hy. apply repeat_spec in Hy. subst. reflexivity. Qed.

Lemma zeros_digitChars n : zeros n = digitChars (repeat 0%N (Z.to_nat n)).
Proof.
  unfold zeros, digitChars. induction (Z.to_nat n) as [|m IH];
    [reflexivity|]. cbn [repeat map]. rewrite IH. reflexivity.
Qed.

Lemma digitChars_app a b : digitChars (a ++ b) = digitChars a ++ digitChars b.
Proof. apply map_app. Qed.

Lemma uintChars_digits u : uintChars u = digitChars (uintDigits u).
Proof.
  unfold digitChars. induction u; cbn [uintChars uintDigits map];
    [reflexivity | rewrite IHu; reflexivity ..].
Qed.

Lemma uintDigits_below10 u : below10 (uintDigits u).
Proof. unfold below10. induction u; cbn; constructor; auto; reflexivity. Qed.

Lemma of_uint_acc_value u : forall acc,
  Z.pos (Pos.of_uint_acc u acc) =
  fold_left (fun a d => (a * 10 + Z.of_N d)%Z) (uintDigits u) (Z.pos acc).
Proof.
  induction u; intros acc; cbn [Pos.of_uint_acc uintDigits fold_left];
    [reflexivity | rewrite IHu; f_equal; lia ..].
Qed.

Lemma digitsValue_uint u : digitsValue (uintDigits u) = Z.of_N (N.of_uint u).
Proof.
  unfold digitsValue, N.of_uint.
  induction u; cbn [Pos.of_uint uintDigits fold_left];
    [reflexivity | exact IHu
     | cbn [Z.of_N]; rewrite of_uint_acc_value; reflexivity ..].
Qed.

(** What [Number::toString] writes is a literal that denotes the
    number. *)
Lemma numberToString_literal x :
  wfNumber x = true ->
  exists ip fp ex,
    numberToString x = literal (negative x) ip fp ex /\
    below10 ip /\ below10 fp /\
    match ip with
    | [] => False
    | d :: more => d <> 0%N \/ more = []
    end /\
    match ex with
    | None => True
    | Some (_, ed) => ed <> [] /\ below10 ed
    end /\
    makeNumber (negative x) ip fp (expoValue ex) = x.
Proof.
  intros Hwf. destruct x as [neg D n]. cbn [negative].
  destruct D as [|d r].
  { unfold wfNumber in Hwf. cbn in Hwf.
    apply andb_true_iff in Hwf as [Hn Hp].
    apply negb_true_iff in Hn. apply Z.eqb_eq in Hp. subst.
    exists [0%N], [], None. split; [reflexivity|].
    split; [repeat constructor|]. split; [constructor|].
    split; [right; reflexivity|]. split; [exact I | reflexivity]. }
  destruct (@wfNumber_digits _ d r Hwf eq_refl) as (Hd & Hl & Hb).
  unfold numberToString. cbn [digits negative point]. cbv zeta.
  set (k := Z.of_nat (length (d :: r))).
  assert (0 < k)%Z as Hk by (subst k; cbn [length]; lia).
  assert (forall body ip fp ex,
            body = digitChars ip ++ fracText fp ++ expoText ex ->
            (if neg then js "-" ++ body else body) = literal neg ip fp ex)
    as Hsign.
  { intros body ip fp ex ->. unfold literal. destruct neg; reflexivity. }
  destruct ((k <=? n) && (n <=? 21))%Z eqn:C1.
  { apply andb_true_iff in C1 as [C1 C1']. apply Z.leb_le in C1, C1'.
    exists ((d :: r) ++ repeat 0%N (Z.to_nat (n - k))), [], None.
    split.
    { apply Hsign. cbn [fracText expoText]. rewrite !app_nil_r.
      rewrite digitChars_app, zeros_digitChars. reflexivity. }
    split; [apply Forall_app; split; [exact Hb | apply below10_repeat0]|].
    split; [constructor|]. split; [left; exact Hd|]. split; [exact I|].
    rewrite (@makeNumber_canon neg _ [] _ 0 (Z.to_nat (n - k)) d r);
      [|rewrite app_nil_r; reflexivity | exact Hd | exact Hl].
    f_equal. rewrite length_app, repeat_length. cbn [expoValue].
    subst k. lia. }
  destruct ((0 <? n) && (n <=? 21))%Z eqn:C2.
  { apply andb_true_iff in C2 as [C2 C2']. apply Z.ltb_lt in C2.
    apply Z.leb_le in C2'.
    assert (n < k)%Z as Hnk.
    { apply andb_false_iff in C1 as [C1|C1];
        [apply Z.leb_gt in C1; exact C1 | apply Z.leb_gt in C1; lia]. }
    exists (firstn (Z.to_nat n) (d :: r)), (skipn (Z.to_nat n) (d :: r)), None.
    assert (exists f fs, skipn (Z.to_nat n) (d :: r) = f :: fs) as (f & fs & Ef).
    { destruct (skipn (Z.to_nat n) (d :: r)) as [|f fs] eqn:E; [|eauto].
      exfalso. apply (f_equal (@length N)) in E. rewrite length_skipn in E.
      subst k. cbn [length] in *. lia. }
    assert (exists i, firstn (Z.to_nat n) (d :: r) = d :: i) as (i & Ei).
    { destruct (Z.to_nat n) as [|m] eqn:E; [lia|]. cbn [firstn]. eauto. }
    split.
    { apply Hsign. rewrite Ef. cbn [fracText expoText].
      rewrite app_nil_r, <- Ef. reflexivity. }
    split.
    { unfold below10 in *. rewrite <- (firstn_skipn (Z.to_nat n) (d :: r)) in Hb.
      apply Forall_app in Hb. apply Hb. }
    split.
    { unfold below10 in *. rewrite <- (firstn_skipn (Z.to_nat n) (d :: r)) in Hb.
      apply Forall_app in Hb. apply Hb. }
    split; [rewrite Ei; left; exact Hd|]. split; [exact I|].
    rewrite (@makeNumber_canon neg _ _ _ 0 0 d r);
      [|rewrite firstn_skipn, app_nil_r; reflexivity | exact Hd | exact Hl].
    f_equal. rewrite length_firstn. cbn [expoValue]. subst k.
    cbn [length] in *. lia. }
  destruct ((-6 <? n) && (n <=? 0))%Z eqn:C3.
  { apply andb_true_iff in C3 as [C3 C3']. apply Z.ltb_lt in C3.
    apply Z.leb_le in C3'.
    exists [0%N], (repeat 0%N (Z.to_nat (- n)) ++ d :: r), None.
    assert (exists f fs, repeat 0%N (Z.to_nat (- n)) ++ d :: r = f :: fs)
      as (f & fs & Ef).
    { destruct (Z.to_nat (- n)); cbn [repeat app]; eauto. }
    split.
    { apply Hsign. rewrite Ef. cbn [fracText expoText]. rewrite <- Ef.
      rewrite app_nil_r, digitChars_app, zeros_digitChars. reflexivity. }
    split; [repeat constructor|].
    split; [apply Forall_app; split; [apply below10_repeat0 | exact Hb]|].
    split; [right; reflexivity|]. split; [exact I|].
    rewrite (@makeNumber_canon neg _ _ _ (S (Z.to_nat (- n))) 0 d r);
      [|rewrite app_nil_r; reflexivity | exact Hd | exact Hl].
    f_equal. cbn [length expoValue]. lia. }
  assert (n <= -6 \/ 21 < n)%Z as Hn.
  { apply andb_false_iff in C3. apply andb_false_iff in C2.
    rewrite Z.ltb_ge, Z.leb_gt in *. lia. }
  set (e := (n - 1)%Z).
  set (ed := uintDigits (N.to_uint (Z.to_N (Z.abs e)))).
  assert (digitsValue ed = Z.abs e) as Hval.
  { subst ed. rewrite digitsValue_uint, DecimalN.Unsigned.of_to. lia. }
  assert (ed <> []) as Hne.
  { intros E. rewrite E in Hval. cbn in Hval. subst e. lia. }
  exists [d], r, (Some (negb (0 <=? e)%Z, ed)).
  split.
  { apply Hsign. unfold natChars. rewrite uintChars_digits. fold ed.
    cbn [expoText].
    change (js "e") with [101%N]. change (js "+") with [43%N].
    change (js "-") with [45%N]. change (js ".") with [46%N].
    destruct r as [|r1 r'];
      destruct (0 <=? e)%Z; cbn [fracText negb app];
      rewrite <- ?app_assoc; reflexivity. }
  split; [inversion Hb; subst; repeat constructor; assumption|].
  split; [inversion Hb; subst; assumption|].
  split; [left; exact Hd|].
  split; [split; [exact Hne | apply uintDigits_below10]|].
  rewrite (@makeNumber_canon neg _ _ _ 0 0 d r);
    [|rewrite app_nil_r; reflexivity | exact Hd | exact Hl].
  f_equal. cbn [length expoValue]. rewrite Hval.
  destruct (Z.leb_spec 0 e); cbn [negb]; subst e; lia.
Qed.

(** A number is read back from what is written for it. *)
Lemma parseNumber_numberToString x rest :
  wfNumber x = true -> numberEnd rest = true ->
  parseNumber (numberToString x ++ rest) = Some (x, rest).
Proof.
  intros Hwf Hrest.
  destruct (@numberToString_literal x Hwf)
    as (ip & fp & ex & E & Hip & Hfp & Hlead & Hex & Em).
  rewrite E, parseNumber_literal by assumption. rewrite Em. reflexivity.
Qed.

(** *** Values *)

Lemma value_nested_ind (P : value -> Prop) :
  P VUndefined -> P VNull -> (forall b, P (VBool b)) ->
  (forall n, P (VNum n)) -> (forall s, P (VStr s)) ->
  (forall elems, Forall P elems -> P (VArr elems)) ->
  (forall props, Forall (fun kv => P (snd kv)) props -> P (VObj props)) ->
  forall v, P v.
Proof.
  intros Hu Hn Hb Hm Hs Ha Ho. fix IH 1. intros v.
  destruct v as [| |b|n|s|elems|props];
    [exact Hu | exact Hn | apply Hb | apply Hm | apply Hs | |].
  - apply Ha. induction elems as [|e rest IHl]; constructor;
      [apply IH | exact IHl].
  - apply Ho. induction props as [|[k x] rest IHl]; constructor;
      [apply IH | exact IHl].
Qed.

Lemma skipSpace_spaces ws s :
  spaces ws ->
  match s with [] => True | c :: _ => isJsonSpace c = false end ->
  skipSpace (ws ++ s) = s.
Proof.
  intros Hws Hs. induction Hws as [|c ws Hc _ IH].
  - cbn [app]. destruct s as [|c r]; [reflexivity|].
    cbn [skipSpace]. rewrite Hs. reflexivity.
  - cbn [app skipSpace]. rewrite Hc. exact IH.
Qed.

Lemma lookup_absent k props :
  existsb (jsstring_eqb k) (map fst props) = false -> lookup k props = None.
Proof.
  induction props as [|[k0 x0] rest IH]; [reflexivity|].
  cbn [map fst existsb lookup]. intros H.
  apply orb_false_iff in H as [H1 H2].
  assert (jsstring_eqb k0 k = false) as ->.
  { destruct (jsstring_eqb k0 k) eqn:E; [|reflexivity].
    apply jsstring_eqb_eq in E. subst k0.
    assert (jsstring_eqb k k = true) as E by (apply jsstring_eqb_eq; reflexivity).
    congruence. }
  apply IH. exact H2.
Qed.

(** A new key that is not an array index goes last. *)
Lemma defineProp_append k x props :
  wfKey k = true ->
  existsb (jsstring_eqb k) (map fst props) = false ->
  defineProp k x props = props ++ [(k, x)].
Proof.
  unfold wfKey. intros Hk. destruct (arrayIndex k) eqn:Ek; [discriminate|].
  induction props as [|[k0 x0] rest IH]; [reflexivity|].
  cbn [map fst existsb]. intros H.
  apply orb_false_iff in H as [H1 H2].
  cbn [defineProp app]. rewrite Ek.
  assert (jsstring_eqb k0 k = false) as ->.
  { destruct (jsstring_eqb k0 k) eqn:E; [|reflexivity].
    apply jsstring_eqb_eq in E. subst k0.
    assert (jsstring_eqb k k = true) as E by (apply jsstring_eqb_eq; reflexivity).
    congruence. }
  rewrite IH by exact H2. reflexivity.
Qed.

Lemma serialize_array gap indent e elems :
  serialize gap indent (VArr (e :: elems)) =
  Some (91%N :: lineBreak gap (indent ++ gap)
          ++ join (44%N :: lineBreak gap (indent ++ gap))
                  (map (textOf gap (indent ++ gap)) (e :: elems))
          ++ lineBreak gap indent ++ [93%N]).
Proof.
  cbn [serialize]. cbv zeta. fold (textOf gap (indent ++ gap)).
  change (fun e0 => match serialize gap (indent ++ gap) e0 with
                    | Some strP => strP
                    | None => js "null"
                    end) with (textOf gap (indent ++ gap)).
  cbn [map]. change (js "[") with [91%N]. change (js "]") with [93%N].
  change (js ",") with [44%N].
  destruct gap as [|g gap']; cbn [lineBreak app]; [reflexivity|].
  rewrite <- !app_assoc. reflexivity.
Qed.

Lemma flat_map_entries gap indent props :
  Forall (fun kv => serialize gap indent (snd kv) <> None) props ->
  flat_map (fun kv =>
              match serialize gap indent (snd kv) with
              | Some strP =>
                [quote (fst kv) ++ js ":"
                   ++ match gap with [] => [] | _ :: _ => js " " end
                   ++ strP]
              | None => []
              end) props
  = map (entryOf gap indent) props.
Proof.
  induction 1 as [|kv props Hkv _ IH]; [reflexivity|].
  cbn [flat_map map]. rewrite IH.
  match goal with
  | |- ?m ++ _ = _ => assert (m = [entryOf gap indent kv]) as ->
  end; [|reflexivity].
  unfold entryOf, textOf.
  destruct (serialize gap indent (snd kv)); [|contradiction].
  change (js ":") with [58%N]. change (js " ") with [32%N].
  destruct gap; reflexivity.
Qed.

Lemma serialize_object gap indent kv props :
  Forall (fun kv => serialize gap (indent ++ gap) (snd kv) <> None)
         (kv :: props) ->
  serialize gap indent (VObj (kv :: props)) =
  Some (123%N :: lineBreak gap (indent ++ gap)
          ++ join (44%N :: lineBreak gap (indent ++ gap))
                  (map (entryOf gap (indent ++ gap)) (kv :: props))
          ++ lineBreak gap indent ++ [125%N]).
Proof.
  intros H. cbn [serialize]. cbv zeta.
  rewrite (@flat_map_entries _ _ _ H). cbn [map].
  change (js "{") with [123%N]. change (js "}") with [125%N].
  change (js ",") with [44%N].
  destruct gap as [|g gap']; cbn [lineBreak app]; [reflexivity|].
  rewrite <- !app_assoc. reflexivity.
Qed.

Lemma numberEnd_spaces ws c rest :
  spaces ws -> numberEnd (c :: rest) = true ->
  numberEnd (ws ++ c :: rest) = true.
Proof.
  intros Hws Hc. destruct Hws as [|w ws Hw _]; [exact Hc|].
  cbn [app numberEnd]. unfold isJsonSpace, oneOf in Hw. cbn [existsb] in Hw.
  repeat (apply orb_true_iff in Hw as [Hw|Hw]);
    try (apply N.eqb_eq in Hw; subst w; reflexivity).
  discriminate.
Qed.

Lemma spaces_lineBreak gap indent :
  spaces indent -> spaces (lineBreak gap indent).
Proof.
  intros H. destruct gap; [constructor|].
  cbn [lineBreak]. constructor; [reflexivity | exact H].
Qed.

Lemma spaces_colonSpace gap : spaces (colonSpace gap).
Proof. destruct gap; repeat constructor. Qed.

Lemma startsValue_length t : startsValue t -> 1 <= length t.
Proof. destruct t; [contradiction | simpl; lia]. Qed.

Lemma startsValue_head t rest :
  startsValue t ->
  match t ++ rest with [] => True | c :: _ => isJsonSpace c = false end.
Proof. destruct t as [|c t]; [contradiction|]. intros [H _]. exact H. Qed.

Lemma join_cons sep x (l : list jsstring) :
  l <> [] -> join sep (x :: l) = x ++ sep ++ join sep l.
Proof. destruct l; [contradiction | reflexivity]. Qed.

Lemma map_not_nil (A B : Type) (f : A -> B) x l : map f (x :: l) <> [].
Proof. discriminate. Qed.

(** The elements of an array, as they were written. *)
Lemma parseElements_text gap indent ws2 rest :
  spaces gap -> spaces indent -> spaces ws2 ->
  forall es,
    Forall readsBack es -> forallb wfValue es = true -> es <> [] ->
    forall ws acc fuel,
      spaces ws ->
      length (join (44%N :: lineBreak gap indent)
                   (map (textOf gap indent) es)) + 1 < fuel ->
      parseElements fuel
        (ws ++ join (44%N :: lineBreak gap indent)
                    (map (textOf gap indent) es)
            ++ ws2 ++ 93%N :: rest) acc
      = Ok (VArr (rev acc ++ es), rest).
Proof.
  intros Hgap Hind Hws2 es Hes.
  induction Hes as [|e es He _ IH]; intros Hwf Hne ws acc fuel Hws Hfuel;
    [contradiction|].
  cbn [forallb] in Hwf. apply andb_true_iff in Hwf as [Hwe Hwf].
  destruct (He Hwe gap indent Hgap Hind) as (_ & Hstart & Hparse).
  destruct fuel as [|f]; [lia|]. cbn [parseElements].
  destruct es as [|e2 es'].
  - cbn [map join] in Hfuel |- *.
    rewrite Hparse;
      [|exact Hws | apply numberEnd_spaces; [exact Hws2 | reflexivity] | lia].
    rewrite skipSpace_spaces; [|exact Hws2 | reflexivity].
    cbn [N.eqb Pos.eqb]. cbn [rev]. reflexivity.
  - change (map (textOf gap indent) (e :: e2 :: es'))
      with (textOf gap indent e :: map (textOf gap indent) (e2 :: es'))
      in Hfuel |- *.
    rewrite join_cons in Hfuel |- * by apply map_not_nil.
    rewrite !length_app in Hfuel. cbn [length] in Hfuel.
    pose proof (startsValue_length _ Hstart) as Hlen.
    rewrite <- !app_assoc. cbn [app].
    rewrite Hparse; [|exact Hws | reflexivity | lia].
    cbn [skipSpace]. change (isJsonSpace 44%N) with false.
    cbn [N.eqb Pos.eqb].
    rewrite <- ?app_assoc.
    rewrite IH;
      [ cbn [rev]; rewrite <- app_assoc; reflexivity
      | exact Hwf | discriminate | apply spaces_lineBreak; exact Hind | lia ].
Qed.

Lemma jsstring_eqb_sym a b : jsstring_eqb a b = jsstring_eqb b a.
Proof.
  destruct (jsstring_eqb a b) eqn:E1, (jsstring_eqb b a) eqn:E2;
    try reflexivity.
  - apply jsstring_eqb_eq in E1. subst.
    assert (jsstring_eqb b b = true) by (apply jsstring_eqb_eq; reflexivity).
    congruence.
  - apply jsstring_eqb_eq in E2. subst.
    assert (jsstring_eqb a a = true) by (apply jsstring_eqb_eq; reflexivity).
    congruence.
Qed.

Lemma distinct_middle a k b :
  distinct (a ++ k :: b) = true -> existsb (jsstring_eqb k) a = false.
Proof.
  induction a as [|a0 a IH]; [reflexivity|].
  cbn [app distinct existsb]. intros H.
  apply andb_true_iff in H as [H1 H2]. apply negb_true_iff in H1.
  rewrite existsb_app in H1. apply orb_false_iff in H1 as [_ H1].
  cbn [existsb] in H1. apply orb_false_iff in H1 as [H1 _].
  rewrite jsstring_eqb_sym, H1. cbn [orb]. apply IH. exact H2.
Qed.

(** The members of an object, as they were written. *)
Lemma parseMembers_text gap indent ws2 rest :
  spaces gap -> spaces indent -> spaces ws2 ->
  forall ms,
    Forall (fun kv => readsBack (snd kv)) ms ->
    forallb (fun kv => wfKey (fst kv) && wfValue (snd kv)) ms = true ->
    ms <> [] ->
    forall acc fuel,
      distinct (map fst (acc ++ ms)) = true ->
      length (join (44%N :: lineBreak gap indent)
                   (map (entryOf gap indent) ms)) + 1 < fuel ->
      parseMembers fuel
        (join (44%N :: lineBreak gap indent) (map (entryOf gap indent) ms)
           ++ ws2 ++ 125%N :: rest) acc
      = Ok (VObj (acc ++ ms), rest).
Proof.
  intros Hgap Hind Hws2 ms Hms.
  induction Hms as [|[k x] ms Hx _ IH]; intros Hwf Hne acc fuel Hd Hfuel;
    [contradiction|].
  cbn [forallb fst snd] in Hwf, Hx.
  apply andb_true_iff in Hwf as [Hwk Hwf].
  apply andb_true_iff in Hwk as [Hk Hwx].
  destruct (Hx Hwx gap indent Hgap Hind) as (_ & Hstart & Hparse).
  pose proof (startsValue_length _ Hstart) as Hlen.
  assert (existsb (jsstring_eqb k) (map fst acc) = false) as Hfresh.
  { rewrite map_app in Hd. cbn [map fst] in Hd.
    apply distinct_middle in Hd. exact Hd. }
  assert (forall tail,
             entryOf gap indent (k, x) ++ tail =
             34%N :: quoteChars k ++ 34%N :: 58%N
                 :: colonSpace gap ++ textOf gap indent x ++ tail) as Hentry.
  { intros tail. unfold entryOf, quote. cbn [fst snd app].
    rewrite <- !app_assoc. cbn [app]. rewrite <- !app_assoc. reflexivity. }
  assert (length (entryOf gap indent (k, x))
          = 3 + length (quoteChars k) + length (colonSpace gap)
            + length (textOf gap indent x)) as Hel.
  { unfold entryOf, quote. cbn [fst snd app length].
    rewrite !length_app. cbn [length]. rewrite length_app. lia. }
  destruct fuel as [|f]; [lia|]. cbn [parseMembers].
  destruct ms as [|kv2 ms'].
  - cbn [map join] in Hfuel |- *. rewrite Hentry. cbn [expect N.eqb Pos.eqb].
    rewrite parseChars_quote. cbn [skipSpace].
    change (isJsonSpace 58%N) with false. cbn [expect N.eqb Pos.eqb].
    rewrite Hparse;
      [| apply spaces_colonSpace
       | apply numberEnd_spaces; [exact Hws2 | reflexivity] | lia].
    rewrite skipSpace_spaces; [|exact Hws2 | reflexivity].
    cbn [N.eqb Pos.eqb].
    rewrite defineProp_append by assumption. reflexivity.
  - change (map (entryOf gap indent) ((k, x) :: kv2 :: ms'))
      with (entryOf gap indent (k, x) :: map (entryOf gap indent) (kv2 :: ms'))
      in Hfuel |- *.
    rewrite join_cons in Hfuel |- * by apply map_not_nil.
    rewrite !length_app in Hfuel. cbn [length] in Hfuel.
    rewrite <- !app_assoc. rewrite Hentry. cbn [expect N.eqb Pos.eqb].
    rewrite parseChars_quote. cbn [skipSpace].
    change (isJsonSpace 58%N) with false. cbn [expect N.eqb Pos.eqb].
    cbn [app].
    rewrite Hparse; [| apply spaces_colonSpace | reflexivity | lia].
    cbn [skipSpace]. change (isJsonSpace 44%N) with false.
    cbn [N.eqb Pos.eqb].
    rewrite defineProp_append by assumption.
    rewrite <- ?app_assoc.
    rewrite skipSpace_spaces;
      [| apply spaces_lineBreak; exact Hind |].
    2:{ destruct kv2 as [k2 x2]. cbn [map].
        destruct (map (entryOf gap indent) ms'); cbn [join];
          unfold entryOf, quote; cbn [fst app]; reflexivity. }
    rewrite IH;
      [ rewrite <- app_assoc; reflexivity
      | exact Hwf | discriminate
      | rewrite <- app_assoc; exact Hd | lia ].
Qed.

Lemma number_head c r :
  c = 45%N \/ (48 <= c <= 57)%N ->
  isJsonSpace c = false /\
  N.eqb c 123 = false /\ N.eqb c 91 = false /\ N.eqb c 34 = false /\
  startsWith (js "true") (c :: r) = false /\
  startsWith (js "false") (c :: r) = false /\
  startsWith (js "null") (c :: r) = false.
Proof.
  intros H.
  change (js "true") with [116; 114; 117; 101]%N.
  change (js "false") with [102; 97; 108; 115; 101]%N.
  change (js "null") with [110; 117; 108; 108]%N.
  cbn [startsWith]. unfold isJsonSpace, oneOf. cbn [existsb].
  repeat match goal with
         | |- context [N.eqb ?a ?b] => destruct (N.eqb_spec a b); [lia|]
         end.
  repeat split.
Qed.

Lemma numberToString_head x rest :
  wfNumber x = true ->
  exists c r, numberToString x ++ rest = c :: r /\
              (c = 45%N \/ (48 <= c <= 57)%N) /\
              1 <= length (numberToString x).
Proof.
  intros Hwf.
  destruct (@numberToString_literal x Hwf)
    as (ip & fp & ex & -> & Hip & _ & Hlead & _).
  unfold literal. destruct ip as [|d more]; [contradiction|].
  inversion Hip as [|? ? Hd _]; subst.
  destruct (negative x); cbn [app digitChars map length].
  - eexists _, _. split; [reflexivity|]. split; [left; reflexivity | lia].
  - eexists _, _. split; [reflexivity|]. split; [right; lia | lia].
Qed.

(** Every well-formed value is written, and read back from what was
    written, with or without indentation. *)
Lemma readsBack_all : forall v, readsBack v.
Proof.
  induction v as [| |b|n|s|elems IH|props IH] using value_nested_ind;
    intros Hwf gap indent Hgap Hind.
  - discriminate.
  - split; [discriminate|]. split; [split; [reflexivity | discriminate]|].
    intros ws rest fuel Hws Hrest Hfuel.
    destruct fuel as [|f]; [cbn in Hfuel; lia|]. cbn [parseValue].
    rewrite skipSpace_spaces; [|exact Hws | reflexivity]. reflexivity.
  - split; [destruct b; discriminate|].
    split; [destruct b; split; try reflexivity; discriminate|].
    intros ws rest fuel Hws Hrest Hfuel.
    destruct fuel as [|f]; [cbn in Hfuel; lia|]. cbn [parseValue].
    destruct b; (rewrite skipSpace_spaces; [|exact Hws | reflexivity]);
      reflexivity.
  - cbn [wfValue] in Hwf. unfold textOf. cbn [serialize].
    split; [discriminate|].
    destruct (@numberToString_head n [] Hwf) as (c0 & r0 & E0 & Hc0 & Hlen).
    rewrite app_nil_r in E0.
    split.
    { rewrite E0. destruct (@number_head c0 r0 Hc0) as (Hsp & _).
      split; [exact Hsp | destruct Hc0; lia]. }
    intros ws rest fuel Hws Hrest Hfuel.
    destruct fuel as [|f]; [lia|]. cbn [parseValue].
    destruct (@numberToString_head n rest Hwf) as (c & r & E & Hc & _).
    destruct (@number_head c r Hc) as (Hsp & T1 & T2 & T3 & T4 & T5 & T6).
    rewrite skipSpace_spaces; [|exact Hws | rewrite E; exact Hsp].
    rewrite E, T1, T2, T3, T4, T5, T6, <- E.
    rewrite parseNumber_numberToString by assumption. reflexivity.
  - unfold textOf. cbn [serialize]. split; [discriminate|].
    split; [split; [reflexivity | discriminate]|].
    intros ws rest fuel Hws Hrest Hfuel.
    destruct fuel as [|f]; [lia|]. cbn [parseValue].
    rewrite skipSpace_spaces; [|exact Hws | reflexivity].
    unfold quote. cbn [app N.eqb Pos.eqb].
    rewrite <- app_assoc. cbn [app]. rewrite parseChars_quote. reflexivity.
  - cbn [wfValue] in Hwf. destruct elems as [|e es].
    { split; [discriminate|]. split; [split; [reflexivity | discriminate]|].
      intros ws rest fuel Hws Hrest Hfuel.
      destruct fuel as [|f]; [cbn in Hfuel; lia|]. cbn [parseValue].
      rewrite skipSpace_spaces; [|exact Hws | reflexivity]. reflexivity. }
    unfold textOf. rewrite serialize_array.
    split; [discriminate|]. split; [split; [reflexivity | discriminate]|].
    intros ws rest fuel Hws Hrest Hfuel.
    destruct fuel as [|f]; [lia|]. cbn [parseValue].
    rewrite skipSpace_spaces; [|exact Hws | reflexivity].
    cbn [app N.eqb Pos.eqb]. rewrite <- !app_assoc.
    change ([93%N] ++ rest) with (93%N :: rest).
    assert (spaces (indent ++ gap)) as Hin'
        by (apply Forall_app; split; assumption).
    assert (startsValue (join (44%N :: lineBreak gap (indent ++ gap))
                              (map (textOf gap (indent ++ gap)) (e :: es))))
      as Hstart.
    { inversion IH as [|? ? He _]; subst.
      cbn [forallb] in Hwf. apply andb_true_iff in Hwf as [Hwe _].
      destruct (He Hwe gap (indent ++ gap) Hgap Hin') as (_ & Hs & _).
      cbn [map]. destruct (map (textOf gap (indent ++ gap)) es);
        cbn [join]; [exact Hs|].
      destruct (textOf gap (indent ++ gap) e); [contradiction | exact Hs]. }
    rewrite skipSpace_spaces;
      [| apply spaces_lineBreak; exact Hin'
       | apply startsValue_head; exact Hstart].
    cbn [length] in Hfuel. rewrite !length_app in Hfuel.
    cbn [length] in Hfuel.
    pose proof (@parseElements_text gap (indent ++ gap)
                  (lineBreak gap indent) rest Hgap Hin'
                  (spaces_lineBreak gap Hind) (e :: es) IH Hwf
                  ltac:(discriminate) [] [] f ltac:(constructor)
                  ltac:(lia)) as Hp.
    cbn [app rev] in Hp.
    destruct (join (44%N :: lineBreak gap (indent ++ gap))
                   (map (textOf gap (indent ++ gap)) (e :: es))
              ++ lineBreak gap indent ++ 93%N :: rest) as [|c1 r1] eqn:E.
    { destruct (join (44%N :: lineBreak gap (indent ++ gap))
                     (map (textOf gap (indent ++ gap)) (e :: es)));
        [contradiction | discriminate]. }
    assert (c1 <> 93%N) as Hc1.
    { destruct (join (44%N :: lineBreak gap (indent ++ gap))
                     (map (textOf gap (indent ++ gap)) (e :: es)))
        as [|j0 j]; [contradiction|].
      injection E as <- _. apply Hstart. }
    destruct (N.eqb_spec c1 93); [contradiction|]. exact Hp.
  - cbn [wfValue] in Hwf. apply andb_true_iff in Hwf as [Hd Hwf].
    destruct props as [|kv ps].
    { split; [discriminate|]. split; [split; [reflexivity | discriminate]|].
      intros ws rest fuel Hws Hrest Hfuel.
      destruct fuel as [|f]; [cbn in Hfuel; lia|]. cbn [parseValue].
      rewrite skipSpace_spaces; [|exact Hws | reflexivity]. reflexivity. }
    assert (spaces (indent ++ gap)) as Hin'
        by (apply Forall_app; split; assumption).
    assert (Forall (fun kv => serialize gap (indent ++ gap) (snd kv) <> None)
                   (kv :: ps)) as Hser.
    { apply Forall_forall. intros kv' Hin.
      rewrite Forall_forall in IH. rewrite forallb_forall in Hwf.
      specialize (Hwf _ Hin). apply andb_true_iff in Hwf as [_ Hw].
      apply (IH _ Hin Hw gap (indent ++ gap) Hgap Hin'). }
    unfold textOf. rewrite (@serialize_object _ _ _ _ Hser).
    split; [discriminate|]. split; [split; [reflexivity | discriminate]|].
    intros ws rest fuel Hws Hrest Hfuel.
    destruct fuel as [|f]; [lia|]. cbn [parseValue].
    rewrite skipSpace_spaces; [|exact Hws | reflexivity].
    cbn [app N.eqb Pos.eqb]. rewrite <- !app_assoc.
    change ([125%N] ++ rest) with (125%N :: rest).
    assert (exists j, join (44%N :: lineBreak gap (indent ++ gap))
                           (map (entryOf gap (indent ++ gap)) (kv :: ps))
                      = 34%N :: j) as (j & Ej).
    { cbn [map]. destruct (map (entryOf gap (indent ++ gap)) ps);
        cbn [join]; unfold entryOf, quote; cbn [app]; eauto. }
    cbn [length] in Hfuel. rewrite !length_app in Hfuel.
    cbn [length] in Hfuel.
    pose proof (@parseMembers_text gap (indent ++ gap)
                  (lineBreak gap indent) rest Hgap Hin'
                  (spaces_lineBreak gap Hind) (kv :: ps) IH Hwf
                  ltac:(discriminate) [] f Hd ltac:(lia)) as Hp.
    cbn [app] in Hp.
    rewrite skipSpace_spaces;
      [| apply spaces_lineBreak; exact Hin' | rewrite Ej; reflexivity].
    rewrite Ej in Hp |- *. cbn [app N.eqb Pos.eqb]. exact Hp.
Qed.

(** [JSON.parse(JSON.stringify(v))] and
    [JSON.parse(JSON.stringify(v, null, 2))] are [v]. *)
Lemma JSON_parse_textOf gap v :
  wfValue v = true -> spaces gap ->
  serialize gap [] v = Some (textOf gap [] v) /\
  JSON_parse (textOf gap [] v) = Ok v.
Proof.
  intros Hwf Hgap.
  destruct (@readsBack_all v Hwf gap [] Hgap ltac:(constructor))
    as (Hs & _ & Hp).
  split.
  { unfold textOf. destruct (serialize gap [] v); [reflexivity|contradiction]. }
  unfold JSON_parse.
  specialize (Hp [] [] (S (2 * length (textOf gap [] v)))
                 ltac:(constructor) eq_refl ltac:(lia)).
  cbn [app] in Hp. rewrite app_nil_r in Hp. rewrite Hp. reflexivity.
Qed.

(** ** The classifier on an answer without a response field *)

Lemma textOf_object props :
  wfValue (VObj props) = true ->
  exists mid,
    JSON_stringify (VObj props) = VStr (123%N :: mid ++ [125%N]) /\
    JSON_parse (123%N :: mid ++ [125%N]) = Ok (VObj props).
Proof.
  intros Hwf.
  destruct (@JSON_parse_textOf [] (VObj props) Hwf ltac:(constructor))
    as (Hs & Hp).
  unfold JSON_stringify. rewrite Hs. cbn [ofOption].
  destruct props as [|kv ps].
  { exists []. split; [reflexivity | exact Hp]. }
  assert (Forall (fun kv => serialize [] ([] ++ []) (snd kv) <> None)
                 (kv :: ps)) as Hser.
  { cbn [wfValue] in Hwf. apply andb_true_iff in Hwf as [_ Hwf].
    apply Forall_forall. intros kv' Hin. rewrite forallb_forall in Hwf.
    specialize (Hwf _ Hin). apply andb_true_iff in Hwf as [_ Hw].
    apply (@readsBack_all (snd kv') Hw [] ([] ++ [])); constructor. }
  unfold textOf in *. rewrite (@serialize_object _ _ _ _ Hser) in *.
  cbn [lineBreak app] in *. eexists. split; [reflexivity | exact Hp].
Qed.

(** X14.  An answer that is an object without a truthy response field
    is classified by its own top-level sentiment and urgency: the
    stringified answer is parsed back whole.  An answer in the
    output-array shape, which has neither field at the top, therefore
    comes out neutral and low, whatever its output text and the
    feedback say. *)
Theorem classifier_reads_envelope text props :
  wfValue (VObj props) = true ->
  truthy (propOf props (js "response")) = false ->
  classifyResponse text (VObj props) =
  Ok (mkClassification
        (if arrayIncludes sentiments (propOf props (js "sentiment"))
         then propOf props (js "sentiment") else VStr (js "neutral"))
        (if arrayIncludes urgencies (propOf props (js "urgency"))
         then propOf props (js "urgency") else VStr (js "low"))).
Proof.
  intros Hwf Hr.
  destruct (@textOf_object props Hwf) as (mid & Hs & Hp).
  rewrite (@classifyResponse_parsed text (VObj props) [] mid [] props).
  - apply normalize_object.
  - unfold responseTextOf. rewrite getProp_object. unfold vor.
    rewrite Hr. exact Hs.
  - constructor.
  - constructor.
  - exact Hp.
Qed.

(** The theorem at an answer whose output text says negative and high,
    for a feedback text whose keywords say positive and high. *)
Lemma classifier_reads_envelope_witness :
  classifyResponse (js "I love it, but this is urgent") (VObj outputAnswer)
  = Ok (mkClassification (VStr (js "neutral")) (VStr (js "low"))).
Proof.
  apply (@classifier_reads_envelope
           (js "I love it, but this is urgent") outputAnswer).
  - vm_compute. reflexivity.
  - reflexivity.
Defined.

(** ** From the summary response to the dashboard *)

Lemma dropZeros_suffix l : exists a, l = repeat 0%N a ++ dropZeros l.
Proof.
  induction l as [|d l (a & E)]; [exists 0; reflexivity|].
  destruct d as [|p]; [|exists 0; reflexivity].
  exists (S a). cbn [dropZeros repeat app]. congruence.
Qed.

Lemma dropZeros_nonzero l :
  match dropZeros l with
  | [] => True
  | d :: _ => d <> 0%N
  end.
Proof.
  induction l as [|d l IH]; [exact I|].
  destruct d as [|p]; [exact IH | discriminate].
Qed.

(** What [makeNumber] builds from decimal digits is well formed, unless
    it is a negative zero. *)
Lemma makeNumber_wf ip fp ex :
  below10 (ip ++ fp) -> wfNumber (makeNumber false ip fp ex) = true.
Proof.
  intros Hb. unfold makeNumber.
  set (lead := dropZeros (ip ++ fp)).
  destruct (dropZeros_suffix (ip ++ fp)) as (a & Ea). fold lead in Ea.
  destruct (dropZeros_suffix (rev lead)) as (b & Eb).
  set (t := dropZeros (rev lead)) in *.
  pose proof (dropZeros_nonzero (rev lead)) as Ht. fold t in Ht.
  pose proof (dropZeros_nonzero (ip ++ fp)) as Hl. fold lead in Hl.
  assert (lead = rev t ++ repeat 0%N b) as El.
  { rewrite <- (rev_involutive lead), Eb, rev_app_distr, rev_repeat0.
    reflexivity. }
  destruct (rev t) as [|d r] eqn:Er; [reflexivity|].
  unfold wfNumber. cbn [digits].
  assert (d <> 0%N) as Hd.
  { rewrite El in Hl. exact Hl. }
  assert (last (d :: r) 1%N <> 0%N) as Hlast.
  { rewrite <- Er. destruct t as [|t0 t']; [discriminate|].
    cbn [rev]. rewrite last_last. exact Ht. }
  assert (below10 (d :: r)) as Hb'.
  { unfold below10 in *. rewrite Ea, El in Hb.
    apply Forall_app in Hb as [_ Hb]. apply Forall_app in Hb as [Hb _].
    exact Hb. }
  apply andb_true_iff. split; [apply andb_true_iff; split|].
  - apply negb_true_iff. apply N.eqb_neq. exact Hd.
  - apply negb_true_iff. apply N.eqb_neq. exact Hlast.
  - apply forallb_forall. intros y Hy. apply N.ltb_lt.
    unfold below10 in Hb'. rewrite Forall_forall in Hb'. apply Hb'. exact Hy.
Qed.

Lemma numberOfNat_wf n : wfNumber (numberOfNat n) = true.
Proof.
  unfold numberOfNat, numberOfZ.
  assert ((Z.of_nat n <? 0)%Z = false) as -> by (apply Z.ltb_ge; lia).
  apply makeNumber_wf. rewrite app_nil_r. apply uintDigits_below10.
Qed.

Lemma spaces_gapOfTwo : spaces gapOfTwo.
Proof. repeat constructor. Qed.

(** The body of a response is read back by [response.json()]. *)
Lemma responseJson_jsonResponse status payload :
  wfValue payload = true ->
  responseJson (jsonResponse status payload) = Ok payload.
Proof.
  intros Hwf.
  destruct (@JSON_parse_textOf [] payload Hwf ltac:(constructor)) as (Hs & Hp).
  unfold responseJson, jsonResponse, JSON_stringify. cbn [body].
  rewrite Hs. exact Hp.
Qed.

Lemma responseJson_jsonResponse2 status payload :
  wfValue payload = true ->
  responseJson (jsonResponse2 status payload) = Ok payload.
Proof.
  intros Hwf.
  destruct (@JSON_parse_textOf gapOfTwo payload Hwf spaces_gapOfTwo)
    as (Hs & Hp).
  unfold responseJson, jsonResponse2, JSON_stringify2. cbn [body].
  fold gapOfTwo. rewrite Hs. exact Hp.
Qed.

(** What the dashboard does with an error response. *)
Lemma renderDashboard_error env w w' status msg :
  generateSummary env w =
    (Ok (jsonResponse status (VObj [(js "error", VStr msg)])), w') ->
  msg <> [] ->
  renderDashboard env w = (Ok (ErrorData (VStr msg)), w').
Proof.
  intros Hg Hm. unfold renderDashboard, tryCatchA, bindA at 1.
  rewrite Hg. rewrite bindA_lift, responseJson_jsonResponse by reflexivity.
  rewrite !bindA_lift. rewrite !getProp_object.
  change (propOf [(js "error", VStr msg)] (js "error")) with (VStr msg).
  change (propOf [(js "error", VStr msg)] (js "message")) with VUndefined.
  unfold vor. cbn [truthy]. destruct msg; [contradiction | reflexivity].
Qed.

(** X15.  When the oracle fails on the summary request, the summary
    endpoint answers 500 with the text of the failure and the dashboard
    shows that text as its error. *)
Theorem dashboard_shows_oracle_failure env w msg :
  storageUp env = true ->
  summaryBatch w <> [] ->
  AI_run env (length (requests w))
    (summaryRequest
       (JSON_stringify2 (VArr (map feedbackDatum (summaryBatch w)))))
  = Fails msg ->
  msg <> [] ->
  fst (generateSummary env w) = Ok (errorResponse (Unavailable msg)) /\
  fst (renderDashboard env w) = Ok (ErrorData (VStr msg)).
Proof.
  intros Hup Hb Ha Hm.
  assert (generateSummary env w =
          (Ok (jsonResponse 500 (VObj [(js "error", VStr msg)])),
           called w (summaryRequest
                       (JSON_stringify2
                          (VArr (map feedbackDatum (summaryBatch w)))))))
    as Hg.
  { rewrite generateSummary_unfold, Hup.
    destruct (summaryBatch w) as [|f rest] eqn:E; [congruence|].
    cbv zeta. rewrite Ha. reflexivity. }
  split.
  - rewrite Hg. reflexivity.
  - rewrite (@renderDashboard_error _ _ _ _ _ Hg Hm). reflexivity.
Qed.

Lemma summary_payload_props d s c :
  let payload := [(js "date", d); (js "summary", s); (js "feedback_count", c)] in
  propOf payload (js "error") = VUndefined /\
  propOf payload (js "message") = VUndefined /\
  propOf payload (js "summary") = s /\
  propOf payload (js "date") = d /\
  propOf payload (js "feedback_count") = c.
Proof. repeat split; reflexivity. Qed.

(** X16.  When the oracle answers the summary request and the
    unwrapping yields a text, [renderDashboard] hands the page template
    the record of today's date, the sections [parseSummary] finds in
    that text and, as feedbackCount, the number of rows summarized: the
    response of the summary endpoint is read back without loss.  (What
    the template prints of that record is another matter; the rows
    carry the timestamps CURRENT_TIMESTAMP writes and the numbers of
    the answer are taken as a double tells them apart.) *)
Theorem dashboard_data_is_parsed_summary env w aiResponse text :
  storageUp env = true ->
  timestamped w = true ->
  summaryBatch w <> [] ->
  exactAnswer aiResponse = true ->
  AI_run env (length (requests w))
    (summaryRequest
       (JSON_stringify2 (VArr (map feedbackDatum (summaryBatch w)))))
  = Returns aiResponse ->
  summaryTextOf aiResponse = Ok (VStr text) ->
  exists sections,
    parseSummary text = Ok sections /\
    fst (renderDashboard env w) =
    Ok (SummaryData (VStr today) sections
                    (VNum (numberOfNat (length (summaryBatch w))))).
Proof.
  intros Hup _ Hb _ Ha Hs.
  destruct (parseSummary_spec text) as (h & t & i & c & _ & _ & _ & _ & Ep).
  eexists. split; [exact Ep|].
  unfold renderDashboard, tryCatchA, bindA at 1.
  rewrite generateSummary_unfold, Hup.
  destruct (summaryBatch w) as [|f rest] eqn:E; [congruence|].
  cbv zeta. rewrite Ha, Hs. rewrite length_map.
  set (n := length (f :: rest)).
  rewrite bindA_lift, responseJson_jsonResponse2.
  2:{ cbn [wfValue map fst snd forallb]. rewrite numberOfNat_wf. reflexivity. }
  destruct (summary_payload_props (VStr today) (VStr text)
              (VNum (numberOfNat n))) as (P1 & P2 & P3 & P4 & P5).
  cbv beta iota.
  rewrite bindA_lift, getProp_object, P1. cbv beta iota.
  rewrite bindA_lift, getProp_object, P2. cbv beta iota.
  cbn [vor truthy].
  rewrite bindA_lift, getProp_object, P3. cbv beta iota.
  rewrite bindA_lift. cbn [parseSummaryOf]. rewrite Ep. cbv beta iota.
  rewrite bindA_lift, getProp_object, P4. cbv beta iota.
  rewrite bindA_lift, getProp_object, P5. reflexivity.
Qed.

(** The theorem at a table with one classified row and an oracle that
    is down. *)
Lemma dashboard_shows_oracle_failure_witness :
  fst (generateSummary (oracleDown (js "Error: 5007")) classifiedWorld)
  = Ok (errorResponse (Unavailable (js "Error: 5007"))) /\
  fst (renderDashboard (oracleDown (js "Error: 5007")) classifiedWorld)
  = Ok (ErrorData (VStr (js "Error: 5007"))).
Proof.
  apply (@dashboard_shows_oracle_failure
           (oracleDown (js "Error: 5007")) classifiedWorld
           (js "Error: 5007")).
  - reflexivity.
  - vm_compute. discriminate.
  - reflexivity.
  - vm_compute. discriminate.
Defined.

(** The theorem at a table with one classified row and an oracle that
    answers with a plain text. *)
Lemma dashboard_data_is_parsed_summary_witness :
  exists sections,
    parseSummary plainSummary = Ok sections /\
    fst (renderDashboard (oracleSays (VStr plainSummary)) classifiedWorld)
    = Ok (SummaryData (VStr today) sections
                      (VNum (numberOfNat (length (summaryBatch classifiedWorld))))).
Proof.
  apply (@dashboard_data_is_parsed_summary
           (oracleSays (VStr plainSummary)) classifiedWorld
           (VStr plainSummary) plainSummary).
  - reflexivity.
  - reflexivity.
  - vm_compute. discriminate.
  - vm_compute. reflexivity.
  - reflexivity.
  - vm_compute. reflexivity.
Defined.

(** ** A bullet list read back *)

Lemma star_greedy_all (A : Type) cs p rest (k : jsstring -> option A) x :
  Forall (fun c => cs c = true) p ->
  k rest = Some x ->
  match rest with [] => True | c :: _ => cs c = false end ->
  star true cs (p ++ rest) k = Some x.
Proof.
  intros Hp Hk Hrest. induction Hp as [|c p Hc _ IH].
  - cbn [app]. destruct rest as [|c r]; [exact Hk|].
    cbn [star]. rewrite Hrest. exact Hk.
  - cbn [app star]. rewrite Hc, IH. reflexivity.
Qed.

Lemma star_lazy_skip (A : Type) cs p rest (k : jsstring -> option A) x :
  Forall (fun c => cs c = true) p ->
  (forall n, n < length p -> k (skipn n p ++ rest) = None) ->
  k rest = Some x ->
  star false cs (p ++ rest) k = Some x.
Proof.
  intros Hp. induction Hp as [|c p Hc _ IH]; intros Hn Hk.
  - cbn [app]. destruct rest; cbn [star]; rewrite Hk; reflexivity.
  - cbn [app star].
    pose proof (Hn 0 ltac:(simpl; lia)) as H0. cbn [skipn app] in H0.
    rewrite H0, Hc. apply IH; [|exact Hk].
    intros n Hlt. apply (Hn (S n)). simpl. lia.
Qed.

Lemma goodItem_spec it :
  goodItem it = true ->
  exists c r,
    it = c :: r /\ isSpace c = false /\ isSpace (last it c) = false /\
    Forall (fun x => dot x = true) it /\ hasNumberMark it = false.
Proof.
  unfold goodItem. destruct it as [|c r]; [discriminate|]. intros H.
  repeat (apply andb_true_iff in H as [H ?]).
  repeat match goal with
         | H : negb _ = true |- _ => apply negb_true_iff in H
         end.
  exists c, r. repeat split; try assumption.
  apply Forall_forall. rewrite forallb_forall in *. assumption.
Qed.

Lemma trim_goodItem it : goodItem it = true -> trim it = it.
Proof.
  intros H. apply goodItem_spec in H as (c & r & -> & Hc & Hl & _).
  unfold trim, trimEnd.
  rewrite (trimStart_fix (c :: r)) by exact Hc.
  rewrite trimStart_fix; [apply rev_involutive|].
  rewrite (@app_removelast_last _ (c :: r) c) by discriminate.
  rewrite rev_app_distr. cbn [rev app]. exact Hl.
Qed.

(** The lookahead of the bullet pattern fails inside a line. *)
Lemma bullet_look_inside c s cap :
  dot c = true ->
  run (Alt (Seq (Chr (lit LF)) (Chr bulletMark)) (Alt (str [LF; LF]) Eoi))
      (c :: s) cap (fun _ cap1 => Some cap1) = None.
Proof.
  intros Hc. cbn [run str seqs map].
  assert (lit LF c = false) as ->.
  { unfold lit. destruct (N.eqb_spec LF c) as [<-|]; [discriminate|reflexivity]. }
  reflexivity.
Qed.

(** And holds where an item ends. *)
Lemma bullet_look_end rest cap :
  itemEnd rest ->
  run (Alt (Seq (Chr (lit LF)) (Chr bulletMark)) (Alt (str [LF; LF]) Eoi))
      rest cap (fun _ cap1 => Some cap1) = Some cap.
Proof.
  intros [-> | (m & rest' & -> & Hm)]; [reflexivity|].
  cbn [run]. unfold lit at 1. rewrite N.eqb_refl, Hm. reflexivity.
Qed.

Lemma spaces32 k : Forall (fun c => isSpace c = true) (repeat 32%N k).
Proof. apply Forall_forall. intros c Hc. apply repeat_spec in Hc. subst. reflexivity. Qed.

(** The bullet pattern at the start of a line of the list. *)
Lemma matchHere_bullet_line l rest i :
  goodLine l = true ->
  itemEnd rest ->
  matchHere bulletRegex (lineText l ++ rest) i =
  Some (mkMatch i (i + length (lineText l)) (lineText l)
                (Some (lineItem l))).
Proof.
  unfold goodLine. intros Hl Hrest.
  apply andb_true_iff in Hl as [Hm Hit].
  destruct (goodItem_spec _ Hit) as (c & r & Eit & Hc & _ & Hdot & _).
  destruct l as [m k it]. cbn [lineMark linePad lineItem] in *. subst it.
  unfold lineText. cbn [lineMark linePad lineItem].
  unfold matchHere, bulletRegex.
  set (look := Alt (Seq (Chr (lit LF)) (Chr bulletMark))
                   (Alt (str [LF; LF]) Eoi)).
  cbn [seqs]. cbn [run app].
  rewrite Hm. rewrite <- app_assoc.
  inversion Hdot as [|? ? Hdc Hdr]; subst.
  apply star_greedy_all; [apply spaces32| |cbn [app]; exact Hc].
  cbn [app]. unfold Plus. cbn [run]. rewrite Hdc.
  apply star_lazy_skip; [exact Hdr| |].
  - intros n Hn.
    destruct (skipn n r ++ rest) as [|y s] eqn:E.
    { apply (f_equal (@length N)) in E. rewrite length_app, length_skipn in E.
      cbn [length] in E. lia. }
    assert (dot y = true) as Hy.
    { destruct (skipn n r) as [|y' s'] eqn:Es.
      - apply (f_equal (@length N)) in Es. rewrite length_skipn in Es.
        cbn [length] in Es. lia.
      - cbn [app] in E. injection E as <- _.
        rewrite Forall_forall in Hdr. apply Hdr.
        rewrite <- (firstn_skipn n r), Es. apply in_or_app. right. left.
        reflexivity. }
    subst look. rewrite (@bullet_look_inside y s _ Hy). reflexivity.
  - subst look. rewrite (@bullet_look_end rest _ Hrest).
    cbn [length]. rewrite !length_app, repeat_length. cbn [length].
    rewrite length_app.
    replace (S (k + S (length r + length rest)) - length rest)
      with (S (k + S (length r))) by lia.
    replace (S (length r + length rest) - length rest)
      with (S (length r)) by lia.
    assert (forall (u v : jsstring) n, n = length u -> firstn n (u ++ v) = u)
      as Hfirst.
    { intros u v n ->. rewrite firstn_app, Nat.sub_diag, firstn_all.
      cbn [firstn]. apply app_nil_r. }
    rewrite (Hfirst (c :: r) rest) by reflexivity.
    change (c :: r ++ rest) with ((c :: r) ++ rest).
    rewrite (app_assoc (repeat 32%N k) (c :: r) rest).
    change (m :: (repeat 32%N k ++ c :: r) ++ rest)
      with ((m :: repeat 32%N k ++ c :: r) ++ rest).
    rewrite Hfirst; [reflexivity|].
    cbn [length]. rewrite length_app, repeat_length. reflexivity.
Qed.

Lemma scan_here r s i m : matchHere r s i = Some m -> scan r s i = Some m.
Proof. intros H. destruct s; cbn [scan]; rewrite H; reflexivity. Qed.

Lemma scan_skip r c s i :
  matchHere r (c :: s) i = None -> scan r (c :: s) i = scan r s (S i).
Proof. intros H. cbn [scan]. rewrite H. reflexivity. Qed.

Lemma matchHere_bullet_none c s i :
  bulletMark c = false -> matchHere bulletRegex (c :: s) i = None.
Proof.
  intros Hc. unfold matchHere, bulletRegex.
  set (look := Alt (Seq (Chr (lit LF)) (Chr bulletMark))
                   (Alt (str [LF; LF]) Eoi)).
  cbn [seqs run]. rewrite Hc. reflexivity.
Qed.

Lemma matchHere_bullet_nil i : matchHere bulletRegex [] i = None.
Proof. reflexivity. Qed.

Lemma skipn_exact (A : Type) (pre rest : list A) :
  skipn (length pre) (pre ++ rest) = rest.
Proof.
  rewrite skipn_app, Nat.sub_diag, skipn_all. reflexivity.
Qed.

Lemma exec_at_end pre (rest : jsstring) r :
  exec r (pre ++ rest) (length pre) = scan r rest (length pre).
Proof.
  unfold exec.
  assert ((length (pre ++ rest) <? length pre) = false) as ->.
  { apply Nat.ltb_ge. rewrite length_app. lia. }
  rewrite skipn_exact. reflexivity.
Qed.

Lemma itemEnd_moreLines ls :
  forallb goodLine ls = true -> itemEnd (moreLines ls).
Proof.
  destruct ls as [|l ls]; [left; reflexivity|].
  cbn [forallb]. intros H. apply andb_true_iff in H as [H _].
  unfold goodLine in H. apply andb_true_iff in H as [Hm _].
  right. exists (lineMark l), (repeat 32%N (linePad l) ++ lineItem l
                               ++ moreLines ls).
  split; [|exact Hm].
  unfold moreLines. cbn [map concat]. unfold lineText. cbn [app].
  rewrite <- !app_assoc. reflexivity.
Qed.

(** The first loop, from the end of one item on: one bullet per line
    that is left. *)
Lemma execLoop_bullets : forall ls pre acc fuel,
  forallb goodLine ls = true ->
  length ls < fuel ->
  execLoop fuel bulletRegex (pre ++ moreLines ls) (length pre) acc =
  Ok (acc ++ map lineItem ls).
Proof.
  induction ls as [|l ls IH]; intros pre acc fuel Hg Hfuel;
    (destruct fuel as [|f]; [lia|]); cbn [execLoop].
  - rewrite exec_at_end. cbn [moreLines map concat scan].
    rewrite matchHere_bullet_nil, app_nil_r. reflexivity.
  - cbn [forallb] in Hg. apply andb_true_iff in Hg as [Hl Hg].
    rewrite exec_at_end.
    change (moreLines (l :: ls)) with (LF :: lineText l ++ moreLines ls).
    rewrite scan_skip by (apply matchHere_bullet_none; reflexivity).
    rewrite (@scan_here _ _ _ _
               (@matchHere_bullet_line l (moreLines ls) (S (length pre)) Hl
                  (itemEnd_moreLines ls Hg))).
    cbn [group1 m1 bind endIndex].
    assert (goodItem (lineItem l) = true) as Hit.
    { unfold goodLine in Hl. apply andb_true_iff in Hl. apply Hl. }
    rewrite (trim_goodItem _ Hit).
    replace (pre ++ LF :: lineText l ++ moreLines ls)
      with ((pre ++ LF :: lineText l) ++ moreLines ls)
      by (rewrite <- app_assoc; reflexivity).
    replace (S (length pre) + length (lineText l))
      with (length (pre ++ LF :: lineText l))
      by (rewrite length_app; cbn [length]; lia).
    rewrite IH by (assumption || (cbn [length] in Hfuel; lia)).
    rewrite <- app_assoc. reflexivity.
Qed.

Lemma hasNumberMark_digits p : forall d c q,
  isDigit d = true -> Forall (fun x => isDigit x = true) p ->
  dotOrParen c = true ->
  hasNumberMark (d :: p ++ c :: q) = true.
Proof.
  induction p as [|d2 p IH]; intros d c q Hd Hp Hc.
  - cbn [app hasNumberMark]. rewrite Hd, Hc. reflexivity.
  - inversion Hp; subst.
    pose proof (IH d2 c q ltac:(assumption) ltac:(assumption) Hc) as H.
    cbn [app hasNumberMark] in H |- *. rewrite H. apply orb_true_r.
Qed.

Lemma hasNumberMark_suffix a b :
  hasNumberMark b = true -> hasNumberMark (a ++ b) = true.
Proof.
  intros Hb. induction a as [|x a IH]; [exact Hb|].
  cbn [app hasNumberMark].
  destruct (a ++ b) as [|y s] eqn:E; [discriminate|].
  rewrite IH. apply orb_true_r.
Qed.

(** The numbered pattern needs a numbered mark. *)
Lemma matchHere_numbered_mark s i m :
  matchHere numberedRegex s i = Some m -> hasNumberMark s = true.
Proof.
  unfold matchHere. intros H.
  apply run_exits in H as (s' & cap' & X & _).
  unfold numberedRegex in X.
  set (tail := Look _) in X. cbn [seqs exits Plus] in X.
  destruct X as (s1 & (s0 & (d & -> & Hd) & (p & -> & Hp))
                 & (s2 & (c & -> & Hc) & _)).
  apply hasNumberMark_digits; assumption.
Qed.

Lemma exec_numbered_none text :
  hasNumberMark text = false -> exec numberedRegex text 0 = None.
Proof.
  intros H. unfold exec. cbn [Nat.ltb Nat.leb skipn].
  apply scan_none_intro. intros d _.
  destruct (matchHere numberedRegex (skipn d text) (0 + d)) as [m|] eqn:E;
    [|reflexivity].
  apply matchHere_numbered_mark in E.
  apply (hasNumberMark_suffix (firstn d text)) in E.
  rewrite firstn_skipn in E. congruence.
Qed.

Lemma hasNumberMark_cons c s :
  isDigit c = false -> hasNumberMark s = false ->
  hasNumberMark (c :: s) = false.
Proof.
  intros Hc Hs. cbn [hasNumberMark]. destruct s; [reflexivity|].
  rewrite Hc, Hs. reflexivity.
Qed.

Lemma hasNumberMark_sep a c b :
  hasNumberMark a = false -> dotOrParen c = false ->
  hasNumberMark (c :: b) = false ->
  hasNumberMark (a ++ c :: b) = false.
Proof.
  intros Ha Hc Hb. induction a as [|x a IH]; [exact Hb|].
  cbn [app]. destruct a as [|y a].
  - cbn [app hasNumberMark] in *. rewrite Hc, andb_false_r. exact Hb.
  - cbn [hasNumberMark] in Ha. apply orb_false_iff in Ha as [Hxy Ha].
    cbn [app hasNumberMark]. rewrite Hxy. cbn [orb]. apply IH. exact Ha.
Qed.

Lemma bulletMark_not_digit m : bulletMark m = true -> isDigit m = false.
Proof.
  unfold bulletMark, oneOf. cbn [existsb]. intros H.
  repeat (apply orb_true_iff in H as [H|H]);
    try (apply N.eqb_eq in H; subst m; reflexivity).
  discriminate.
Qed.

Lemma hasNumberMark_line l :
  goodLine l = true -> hasNumberMark (lineText l) = false.
Proof.
  unfold goodLine. intros H. apply andb_true_iff in H as [Hm Hit].
  apply goodItem_spec in Hit as (c & r & E & _ & _ & _ & Hn).
  unfold lineText. apply hasNumberMark_cons;
    [apply bulletMark_not_digit; exact Hm|].
  induction (linePad l) as [|k IH]; [exact Hn|].
  cbn [repeat app]. apply hasNumberMark_cons; [reflexivity | exact IH].
Qed.

Lemma hasNumberMark_lines : forall ls l,
  goodLine l = true -> forallb goodLine ls = true ->
  hasNumberMark (lineText l ++ moreLines ls) = false.
Proof.
  induction ls as [|l2 ls IH]; intros l Hl Hg.
  - cbn [moreLines map concat]. rewrite app_nil_r.
    apply hasNumberMark_line. exact Hl.
  - cbn [forallb] in Hg. apply andb_true_iff in Hg as [Hl2 Hg].
    change (moreLines (l2 :: ls)) with (LF :: lineText l2 ++ moreLines ls).
    apply hasNumberMark_sep;
      [apply hasNumberMark_line; exact Hl | reflexivity|].
    apply hasNumberMark_cons; [reflexivity | apply IH; assumption].
Qed.

Lemma listText_cons l ls : listText (l :: ls) = lineText l ++ moreLines ls.
Proof.
  unfold listText, moreLines. revert l.
  induction ls as [|l2 ls IH]; intros l.
  - cbn. rewrite app_nil_r. reflexivity.
  - change (map lineText (l :: l2 :: ls))
      with (lineText l :: map lineText (l2 :: ls)).
    rewrite join_cons by apply map_not_nil. rewrite IH. reflexivity.
Qed.

Lemma length_moreLines ls : length ls <= length (moreLines ls).
Proof.
  induction ls as [|l ls IH]; [simpl; lia|].
  change (moreLines (l :: ls)) with (LF :: lineText l ++ moreLines ls).
  cbn [length]. rewrite length_app. lia.
Qed.

Lemma filter_nonEmpty_items ls :
  forallb goodLine ls = true ->
  filter nonEmpty (map lineItem ls) = map lineItem ls.
Proof.
  induction ls as [|l ls IH]; [reflexivity|].
  cbn [forallb map filter]. intros H. apply andb_true_iff in H as [Hl Hg].
  unfold goodLine in Hl. apply andb_true_iff in Hl as [_ Hit].
  apply goodItem_spec in Hit as (c & r & E & _). rewrite E at 1.
  cbn [nonEmpty length Nat.ltb Nat.leb]. rewrite IH by exact Hg. reflexivity.
Qed.

(** X17.  A bullet list comes back whole when it ends with its last
    item: lines joined by single line feeds, each a bullet mark, blanks
    and an item that is trimmed, within one line and free of numbered
    marks (a digit followed by a period or a closing parenthesis) are
    returned as exactly their items, in order. *)
Theorem extractBullets_bullet_list ls :
  forallb goodLine ls = true ->
  extractBullets (listText ls) = Ok (map lineItem ls).
Proof.
  intros Hg. destruct ls as [|l ls]; [reflexivity|].
  pose proof Hg as Hg'. cbn [forallb] in Hg'.
  apply andb_true_iff in Hg' as [Hl Hls].
  rewrite listText_cons. unfold extractBullets. cbv zeta.
  assert (execLoop (S (length (lineText l ++ moreLines ls))) bulletRegex
            (lineText l ++ moreLines ls) 0 []
          = Ok (map lineItem (l :: ls))) as ->.
  { cbn [execLoop].
    change 0 with (length (@nil N)) at 1.
    change (lineText l ++ moreLines ls)
      with ([] ++ lineText l ++ moreLines ls) at 1.
    rewrite exec_at_end. cbn [length].
    rewrite (@scan_here _ _ _ _
               (@matchHere_bullet_line l (moreLines ls) 0 Hl
                  (itemEnd_moreLines ls Hls))).
    cbn [group1 m1 bind endIndex app].
    assert (goodItem (lineItem l) = true) as Hit.
    { unfold goodLine in Hl. apply andb_true_iff in Hl. apply Hl. }
    rewrite (trim_goodItem _ Hit).
    cbn [Nat.add].
    rewrite execLoop_bullets; [reflexivity | exact Hls|].
    rewrite length_app. pose proof (length_moreLines ls).
    unfold lineText. cbn [length]. lia. }
  cbn [bind execLoop].
  rewrite exec_numbered_none by (apply hasNumberMark_lines; assumption).
  cbn [bind map length Nat.eqb].
  change (lineItem l :: map lineItem ls) with (map lineItem (l :: ls)).
  rewrite filter_nonEmpty_items by exact Hg. reflexivity.
Qed.

(** The theorem at three lines with a hyphen, a bullet and a star. *)
Lemma extractBullets_bullet_list_witness :
  extractBullets (listText sampleList) =
  Ok [js "Cold-start latency regressed"; js "Deploys fail 2 of 3 times";
      js "p99 doubled"].
Proof.
  rewrite (@extractBullets_bullet_list sampleList);
    [reflexivity | vm_compute; reflexivity].
Defined.

(** ** The order of the rows that are summarized *)

Lemma compareStr_eq a : forall b, compareStr a b = Eq -> a = b.
Proof.
  induction a as [|x a IH]; intros [|y b] H; cbn [compareStr] in H;
    try discriminate; [reflexivity|].
  destruct (N.compare x y) eqn:E; try discriminate.
  apply N.compare_eq in E. subst y. f_equal. apply IH. exact H.
Qed.

Lemma compareStr_refl a : compareStr a a = Eq.
Proof.
  induction a as [|x a IH]; [reflexivity|].
  cbn [compareStr]. rewrite N.compare_refl. exact IH.
Qed.

Lemma compareStr_antisym a : forall b,
  compareStr b a = CompOpp (compareStr a b).
Proof.
  induction a as [|x a IH]; intros [|y b]; cbn [compareStr]; try reflexivity.
  rewrite (N.compare_antisym x y).
  destruct (N.compare x y); cbn [CompOpp]; [apply IH | reflexivity ..].
Qed.

Lemma compareStr_lt_trans a : forall b c,
  compareStr a b = Lt -> compareStr b c = Lt -> compareStr a c = Lt.
Proof.
  induction a as [|x a IH]; intros [|y b] [|z c] H1 H2;
    cbn [compareStr] in *; try discriminate; try reflexivity.
  destruct (N.compare x y) eqn:E1; try discriminate;
    destruct (N.compare y z) eqn:E2; try discriminate.
  - apply N.compare_eq in E1, E2. subst. rewrite N.compare_refl.
    apply (IH b c); assumption.
  - apply N.compare_eq in E1. subst. rewrite E2. reflexivity.
  - apply N.compare_eq in E2. subst. rewrite E1. reflexivity.
  - rewrite N.compare_lt_iff in *.
    assert (x < z)%N as H by lia. apply N.compare_lt_iff in H.
    rewrite H. reflexivity.
Qed.

Lemma compareStr_gt_trans a b c :
  compareStr a b = Gt -> compareStr b c = Gt -> compareStr a c = Gt.
Proof.
  intros H1 H2.
  rewrite (compareStr_antisym c a).
  rewrite (@compareStr_lt_trans c b a); [reflexivity | |].
  - rewrite (compareStr_antisym b c), H2. reflexivity.
  - rewrite (compareStr_antisym a b), H1. reflexivity.
Qed.

Lemma rowBefore_total f g : rowBefore f g = false -> rowBefore g f = true.
Proof.
  unfold rowBefore.
  rewrite (compareStr_antisym (column (Feedback.urgency f))
                              (column (Feedback.urgency g))).
  rewrite (compareStr_antisym (column (Feedback.sentiment f))
                              (column (Feedback.sentiment g))).
  destruct (compareStr (column (Feedback.urgency f))
                       (column (Feedback.urgency g)));
    destruct (compareStr (column (Feedback.sentiment f))
                         (column (Feedback.sentiment g)));
    cbn [CompOpp]; intros; try reflexivity; discriminate.
Qed.

Lemma rowBefore_trans f g h :
  rowBefore f g = true -> rowBefore g h = true -> rowBefore f h = true.
Proof.
  unfold rowBefore.
  destruct (compareStr (column (Feedback.urgency f))
                       (column (Feedback.urgency g))) eqn:U1; try discriminate;
    destruct (compareStr (column (Feedback.urgency g))
                         (column (Feedback.urgency h))) eqn:U2;
    try discriminate.
  - apply compareStr_eq in U1, U2. rewrite U1, U2, compareStr_refl.
    destruct (compareStr (column (Feedback.sentiment f))
                         (column (Feedback.sentiment g))) eqn:S1;
      try discriminate;
      destruct (compareStr (column (Feedback.sentiment g))
                           (column (Feedback.sentiment h))) eqn:S2;
      try discriminate; intros _ _.
    + apply compareStr_eq in S1, S2. rewrite S1, S2, compareStr_refl.
      reflexivity.
    + apply compareStr_eq in S1. rewrite S1, S2. reflexivity.
    + apply compareStr_eq in S2. rewrite <- S2, S1. reflexivity.
    + rewrite (compareStr_lt_trans _ _ _ S1 S2). reflexivity.
  - apply compareStr_eq in U1. rewrite U1, U2. reflexivity.
  - apply compareStr_eq in U2. rewrite <- U2, U1. reflexivity.
  - rewrite (compareStr_gt_trans _ _ _ U1 U2). reflexivity.
Qed.

Lemma insertRow_In f l x : In x (insertRow f l) <-> x = f \/ In x l.
Proof.
  induction l as [|g l IH]; cbn [insertRow].
  - split; intros [H|H]; auto; try contradiction. left. auto.
  - destruct (rowBefore f g).
    + split; intros [H|H]; cbn [In] in *; auto. 
    + cbn [In]. rewrite IH. tauto.
Qed.

Lemma insertRow_sorted f l :
  StronglySorted (fun a b => rowBefore a b = true) l ->
  StronglySorted (fun a b => rowBefore a b = true) (insertRow f l).
Proof.
  induction 1 as [|g l Hs IH Hg]; cbn [insertRow].
  - constructor; constructor.
  - destruct (rowBefore f g) eqn:E.
    + constructor; [constructor; assumption|].
      constructor; [exact E|].
      rewrite Forall_forall in *. intros x Hx.
      apply (rowBefore_trans _ _ _ E). apply Hg. exact Hx.
    + constructor; [exact IH|].
      apply Forall_forall. intros x Hx. apply insertRow_In in Hx as [->|Hx].
      * apply rowBefore_total. exact E.
      * rewrite Forall_forall in Hg. apply Hg. exact Hx.
Qed.

Lemma orderRows_sorted l :
  StronglySorted (fun a b => rowBefore a b = true) (orderRows l).
Proof.
  unfold orderRows. induction l as [|f l IH]; cbn [fold_right].
  - constructor.
  - apply insertRow_sorted. exact IH.
Qed.

Lemma orderRows_In l x : In x (orderRows l) <-> In x l.
Proof.
  unfold orderRows. induction l as [|f l IH]; cbn [fold_right In];
    [tauto|].
  rewrite insertRow_In, IH. split; intros [H|H]; auto.
Qed.

Lemma insertRow_length f l : length (insertRow f l) = S (length l).
Proof.
  induction l as [|g l IH]; cbn [insertRow]; [reflexivity|].
  destruct (rowBefore f g); cbn [length]; [reflexivity|].
  rewrite IH. reflexivity.
Qed.

Lemma orderRows_length l : length (orderRows l) = length l.
Proof.
  unfold orderRows. induction l as [|f l IH]; cbn [fold_right];
    [reflexivity|].
  rewrite insertRow_length, IH. reflexivity.
Qed.

Lemma StronglySorted_later (A : Type) (R : A -> A -> Prop) l1 f l2 g l3 :
  StronglySorted R (l1 ++ f :: l2 ++ g :: l3) -> R f g.
Proof.
  induction l1 as [|x l1 IH]; cbn [app]; intros H.
  - inversion H as [|? ? _ Hf]; subst. rewrite Forall_forall in Hf.
    apply Hf. apply in_or_app. right. left. reflexivity.
  - inversion H; subst. apply IH. assumption.
Qed.

(** ** The earlier parser *)

Lemma legacy_boldHeader_spells name body ending w :
  spells name w -> spells (Legacy.boldHeader name body ending) w.
Proof.
  intros H. unfold Legacy.boldHeader. cbn [seqs].
  apply Seq_spells_right, Seq_spells_left. exact H.
Qed.

Lemma legacy_plainHeader_spells name body ending w :
  spells name w -> spells (Legacy.plainHeader name body ending) w.
Proof.
  intros H. unfold Legacy.plainHeader. cbn [seqs].
  apply Seq_spells_left. exact H.
Qed.

Lemma legacy_orElse_group1 text r1 r2 m :
  setsCap r1 = true -> setsCap r2 = true ->
  orElse (smatch text r1) (smatch text r2) = Some m ->
  exists g, m1 m = Some g.
Proof.
  intros C1 C2 H. unfold orElse in H.
  destruct (smatch text r1) as [x|] eqn:E.
  - injection H as <-. exact (@smatch_group1 _ _ _ C1 E).
  - exact (@smatch_group1 _ _ _ C2 H).
Qed.

Lemma legacy_parseSummary_unfold s :
  Legacy.parseSummary s =
    (h <- headlineOf (Legacy.headlineMatch s) ;;
     t <- sectionBullets (Legacy.themesMatch s) ;;
     i <- sectionBullets (Legacy.issuesMatch s) ;;
     c <- sectionBullets (Legacy.recMatch s) ;;
     Ok (mkSections h (slice0 3 t) (slice0 3 i) (slice0 2 c))).
Proof.
  unfold Legacy.parseSummary, sectionBullets, headlineOf.
  destruct (Legacy.headlineMatch s) as [m|]; simpl.
  2: destruct (sectionText (Legacy.themesMatch s)); simpl; try reflexivity;
     destruct (extractBullets a); simpl; try reflexivity;
     destruct (sectionText (Legacy.issuesMatch s)); simpl; try reflexivity;
     destruct (extractBullets a1); simpl; try reflexivity;
     destruct (sectionText (Legacy.recMatch s)); simpl; reflexivity.
  destruct (group1 m); simpl; try reflexivity.
  destruct (sectionText (Legacy.themesMatch s)); simpl; try reflexivity;
     destruct (extractBullets a0); simpl; try reflexivity;
     destruct (sectionText (Legacy.issuesMatch s)); simpl; try reflexivity;
     destruct (extractBullets a2); simpl; try reflexivity;
     destruct (sectionText (Legacy.recMatch s)); simpl; reflexivity.
Qed.

(** X19.  The earlier parser kept in src/index.ts returns for every
    text, and knows only its own headers: a text that does not mention
    headline gets the placeholder headline, and a text without the words
    top 3 themes, critical issues or recommendation gets an empty list
    for that section.  An answer laid out under Summary and Key Themes,
    as the later prompt asks, has no headline and no themes for it. *)
Theorem legacy_parseSummary_missing_headers text :
  exists sections,
    Legacy.parseSummary text = Ok sections /\
    (mentions text (js "headline") = false ->
     headline sections = noHeadline) /\
    (mentions text (js "top 3 themes") = false -> themes sections = []) /\
    (mentions text (js "critical issues") = false ->
     criticalIssues sections = []) /\
    (mentions text (js "recommendation") = false ->
     recommendation sections = []).
Proof.
  destruct (@headlineOf_total (Legacy.headlineMatch text)) as (h & Eh & Hh).
  { intros x Hx. unfold Legacy.headlineMatch in Hx.
    eapply legacy_orElse_group1; [| |exact Hx]; reflexivity. }
  destruct (@sectionBullets_total (Legacy.themesMatch text)) as (t & Et & Ht).
  { intros x Hx. unfold Legacy.themesMatch in Hx.
    eapply legacy_orElse_group1; [| |exact Hx]; reflexivity. }
  destruct (@sectionBullets_total (Legacy.issuesMatch text)) as (i & Ei & Hi).
  { intros x Hx. unfold Legacy.issuesMatch in Hx.
    eapply legacy_orElse_group1; [| |exact Hx]; reflexivity. }
  destruct (@sectionBullets_total (Legacy.recMatch text)) as (c & Ec & Hc).
  { intros x Hx. unfold Legacy.recMatch in Hx.
    eapply legacy_orElse_group1; [| |exact Hx]; reflexivity. }
  eexists. split.
  { rewrite legacy_parseSummary_unfold, Eh, Et, Ei, Ec. reflexivity. }
  cbn [headline themes criticalIssues recommendation].
  split; [|split; [|split]].
  - intros Hm. apply Hh. unfold Legacy.headlineMatch.
    rewrite (@smatch_mentions _ _ _
               (@legacy_boldHeader_spells _ _ _ _ reHeadline_spells) Hm).
    rewrite (@smatch_mentions _ _ _
               (@legacy_plainHeader_spells _ _ _ _ reHeadline_spells) Hm).
    reflexivity.
  - intros Hm. rewrite Ht; [reflexivity|]. unfold Legacy.themesMatch.
    rewrite (@smatch_mentions _ _ _
               (@legacy_boldHeader_spells _ _ _ _
                  (stri_spells (js "Top 3 Themes"))) Hm).
    rewrite (@smatch_mentions _ _ _
               (@legacy_plainHeader_spells _ _ _ _
                  (stri_spells (js "Top 3 Themes"))) Hm).
    reflexivity.
  - intros Hm. rewrite Hi; [reflexivity|]. unfold Legacy.issuesMatch.
    rewrite (@smatch_mentions _ _ _
               (@legacy_boldHeader_spells _ _ _ _
                  (stri_spells (js "Critical Issues"))) Hm).
    rewrite (@smatch_mentions _ _ _
               (@legacy_plainHeader_spells _ _ _ _
                  (stri_spells (js "Critical Issues"))) Hm).
    reflexivity.
  - intros Hm. rewrite Hc; [reflexivity|]. unfold Legacy.recMatch.
    rewrite (@smatch_mentions _ _ _
               (@legacy_boldHeader_spells _ _ _ _ reRecommendation_spells) Hm).
    rewrite (@smatch_mentions _ _ _
               (@legacy_plainHeader_spells _ _ _ _ reRecommendation_spells) Hm).
    reflexivity.
Qed.

(** ** The store out of reach *)

(** X20.  When the store cannot be reached, neither endpoint calls the
    oracle or changes anything: /process and /summary answer 500 with
    the text of the storage error, and the dashboard shows that text as
    its error. *)
Theorem store_down_is_reported env w :
  storageUp env = false ->
  processFeedback env w = (Ok (errorResponse storageError), w) /\
  generateSummary env w = (Ok (errorResponse storageError), w) /\
  renderDashboard env w = (Ok (ErrorData (VStr (errorString storageError))), w).
Proof.
  intros Hdown.
  assert (generateSummary env w = (Ok (errorResponse storageError), w)) as Hg.
  { rewrite generateSummary_unfold, Hdown. reflexivity. }
  split; [apply processFeedback_store_down; exact Hdown|].
  split; [exact Hg|].
  apply (@renderDashboard_error env w w 500 (errorString storageError) Hg).
  vm_compute. discriminate.
Qed.

(** The theorem at the sample data. *)
Lemma store_down_is_reported_witness :
  processFeedback (mkEnv (fun _ _ => Returns VNull) false) sampleWorld
  = (Ok (errorResponse storageError), sampleWorld) /\
  generateSummary (mkEnv (fun _ _ => Returns VNull) false) sampleWorld
  = (Ok (errorResponse storageError), sampleWorld) /\
  renderDashboard (mkEnv (fun _ _ => Returns VNull) false) sampleWorld
  = (Ok (ErrorData (VStr (errorString storageError))), sampleWorld).
Proof.
  apply (@store_down_is_reported
           (mkEnv (fun _ _ => Returns VNull) false) sampleWorld).
  reflexivity.
Defined.

(** ** What the oracle is given to summarize *)

Lemma feedbackData_wf rows : wfValue (VArr (map feedbackDatum rows)) = true.
Proof.
  cbn [wfValue]. induction rows as [|f rows IH]; [reflexivity|].
  cbn [map forallb]. rewrite IH. reflexivity.
Qed.

(** X21.  The summary request carries the batch without loss: the
    data block of the prompt is JSON text that denotes exactly the
    content, sentiment and urgency of each row of the batch, in the
    order of the batch, whatever characters the feedback holds. *)
Theorem summary_request_carries_batch env w :
  storageUp env = true ->
  summaryBatch w <> [] ->
  exists json,
    requests (snd (generateSummary env w)) =
      requests w ++ [summaryRequest (VStr json)] /\
    JSON_parse json = Ok (VArr (map feedbackDatum (summaryBatch w))).
Proof.
  intros Hup Hb.
  destruct (@JSON_parse_textOf gapOfTwo
              (VArr (map feedbackDatum (summaryBatch w)))
              (feedbackData_wf _) spaces_gapOfTwo) as (Hs & Hp).
  eexists. split; [|exact Hp].
  rewrite (@generateSummary_calls_once env w Hup Hb).
  unfold JSON_stringify2. fold gapOfTwo. rewrite Hs. reflexivity.
Qed.

(** The theorem at a table with one classified row. *)
Lemma summary_request_carries_batch_witness :
  exists json,
    requests (snd (generateSummary (oracleDown (js "Error: 5007"))
                     classifiedWorld)) =
      requests classifiedWorld ++ [summaryRequest (VStr json)] /\
    JSON_parse json =
      Ok (VArr (map feedbackDatum (summaryBatch classifiedWorld))).
Proof.
  apply (@summary_request_carries_batch
           (oracleDown (js "Error: 5007")) classifiedWorld).
  - reflexivity.
  - vm_compute. discriminate.
Defined.

(** ** The order of the batch in the summary request *)

Lemma insertRow_Permutation f l : Permutation (insertRow f l) (f :: l).
Proof.
  induction l as [|g rest IH]; cbn [insertRow]; [apply Permutation_refl|].
  destruct (rowBefore f g); [apply Permutation_refl|].
  apply Permutation_trans with (g :: f :: rest).
  - apply perm_skip. exact IH.
  - apply perm_swap.
Qed.

Lemma orderRows_Permutation l : Permutation (orderRows l) l.
Proof.
  unfold orderRows. induction l as [|f l IH]; cbn [fold_right];
    [apply Permutation_refl|].
  apply Permutation_trans with (f :: fold_right insertRow [] l).
  - apply insertRow_Permutation.
  - apply perm_skip. exact IH.
Qed.

Lemma urgencyLabel_cases u :
  urgencyLabel u = true ->
  u = None \/ u = Some (js "high") \/ u = Some (js "medium")
  \/ u = Some (js "low").
Proof.
  destruct u as [s|]; [|auto]. cbn [urgencyLabel urgencies existsb].
  intros H.
  repeat (apply orb_true_iff in H; destruct H as [H | H]);
    try discriminate H; apply jsstring_eqb_eq in H; subst; auto.
Qed.

(** X18.  The summary request lists the classified rows of today with
    the rows of high urgency last.  The rows of the table carry the
    timestamps CURRENT_TIMESTAMP writes, so that [DATE(created_at)] is
    their first ten characters, and urgencies that are NULL or one of
    high, medium and low.  The data block of the prompt then denotes
    the content, sentiment and urgency of a rearrangement of today's
    rows that carry both labels, in which, the query ordering by
    urgency descending as text and high being the least of the three
    labels, a row of high urgency is followed by rows of high urgency
    only. *)
Theorem summary_request_lists_high_last env w :
  storageUp env = true ->
  timestamped w = true ->
  labelled w = true ->
  filter (classifiedOn today) (feedback_db w) <> [] ->
  exists rows json,
    requests (snd (generateSummary env w)) =
      requests w ++ [summaryRequest (VStr json)] /\
    JSON_parse json = Ok (VArr (map feedbackDatum rows)) /\
    Permutation rows (filter (classifiedOn today) (feedback_db w)) /\
    (forall before f between g after,
       rows = before ++ f :: between ++ g :: after ->
       Feedback.urgency f = Some (js "high") ->
       Feedback.urgency g = Some (js "high")).
Proof.
  intros Hup _ Hl Hb.
  assert (summaryBatch w <> []) as Hb'.
  { unfold summaryBatch. intros E.
    pose proof (orderRows_length (filter (classifiedOn today) (feedback_db w)))
      as Hlen.
    rewrite E in Hlen.
    destruct (filter (classifiedOn today) (feedback_db w));
      [congruence | discriminate]. }
  destruct (@JSON_parse_textOf gapOfTwo
              (VArr (map feedbackDatum (summaryBatch w)))
              (feedbackData_wf _) spaces_gapOfTwo) as (Hs & Hp).
  exists (summaryBatch w). eexists. split; [|split; [exact Hp|split]].
  - rewrite (@generateSummary_calls_once env w Hup Hb').
    unfold JSON_stringify2. fold gapOfTwo. rewrite Hs. reflexivity.
  - apply orderRows_Permutation.
  - intros l1 f l2 g l3 E Hf.
    assert (In g (feedback_db w) /\ classifiedOn today g = true) as [Hin Hc].
    { apply filter_In. apply (orderRows_In _ g). fold (summaryBatch w).
      rewrite E. apply in_or_app. right. right. apply in_or_app. right.
      left. reflexivity. }
    unfold labelled in Hl. rewrite forallb_forall in Hl.
    pose proof (urgencyLabel_cases _ (Hl _ Hin)) as Hu.
    pose proof (orderRows_sorted (filter (classifiedOn today) (feedback_db w)))
      as Hsort.
    fold (summaryBatch w) in Hsort.
    rewrite E in Hsort. apply StronglySorted_later in Hsort.
    unfold rowBefore in Hsort. rewrite Hf in Hsort.
    unfold classifiedOn, unclassified in Hc.
    destruct Hu as [Hu | [Hu | [Hu | Hu]]]; rewrite Hu in *.
    + apply andb_true_iff in Hc. destruct Hc as [_ Hc].
      destruct (Feedback.sentiment g); discriminate Hc.
    + reflexivity.
    + vm_compute in Hsort. discriminate.
    + vm_compute in Hsort. discriminate.
Qed.

(** The theorem at a table with one row of each urgency. *)
Lemma summary_request_lists_high_last_witness :
  exists rows json,
    requests (snd (generateSummary (oracleDown (js "Error: 5007"))
                     labelledWorld)) =
      requests labelledWorld ++ [summaryRequest (VStr json)] /\
    JSON_parse json = Ok (VArr (map feedbackDatum rows)) /\
    Permutation rows
      (filter (classifiedOn today) (feedback_db labelledWorld)) /\
    (forall before f between g after,
       rows = before ++ f :: between ++ g :: after ->
       Feedback.urgency f = Some (js "high") ->
       Feedback.urgency g = Some (js "high")).
Proof.
  apply (@summary_request_lists_high_last
           (oracleDown (js "Error: 5007")) labelledWorld).
  - reflexivity.
  - reflexivity.
  - reflexivity.
  - vm_compute. discriminate.
Defined.

(** On that table the request lists the medium row, the low row and
    then the high row. *)
Example labelled_batch_order :
  map Feedback.urgency (summaryBatch labelledWorld)
  = [Some (js "medium"); Some (js "low"); Some (js "high")].
Proof. reflexivity. Qed.
